(** * musiclib-visualiser: the filtering and derived-statistics core of web/app.js

    A shallow embedding of the helper functions of [web/app.js]
    ([fileHasGenre], [getYearFromFile], [getFilteredFiles]), of the
    fallback aggregations computed inside the render functions, and of
    the order in which [applyGenreFilter] runs the renderers, followed by
    the properties of the specification that speak about them.

    Conventions of the embedding.
    - A JavaScript string is a [string]; each [ascii] stands for one
      UTF-16 code unit in the range U+0000..U+00FF, on which
      [toLowerCase] and [trim] below are the exact ECMAScript functions.
      The Genre Matcher is given a second time on texts of any code
      units ([Utf16]), of which these are a part.
    - A property that may be missing (or [null]) is an [option].
    - A plain object used as a dictionary is the list of its own
      properties in creation order ([JsObject]); reading a key goes
      through the prototype chain ([js_get]), and [Object.entries] lists
      array-index keys first ([Object_entries]).
    - Numbers that are counts are [nat], epoch seconds and years are [Z],
      durations are [Q] (every finite double is a rational).
    - The host's time zone is a parameter [LocalTZA] of everything that
      calls [getFullYear]. *)

From Stdlib Require Import List Bool Arith ZArith QArith Qround Qminmax Lia.
From Stdlib Require Import Ascii String.
From Stdlib Require Import Sorting.Sorted Sorting.Permutation.
Import ListNotations.

Local Open Scope string_scope.
Local Open Scope list_scope.

(** ** Strings *)

Definition code (c : ascii) : N := N_of_ascii c.

(** The character class [[,;/|]] of the genre separator. *)
Definition isDelim (c : ascii) : bool :=
  (c =? ",")%char || (c =? ";")%char || (c =? "/")%char || (c =? "|")%char.

(** ECMAScript WhiteSpace and LineTerminator code units below U+0100:
    TAB, LF, VT, FF, CR, SPACE and NO-BREAK SPACE. *)
Definition isWhiteSpace (c : ascii) : bool :=
  let n := code c in
  ((9 <=? n) && (n <=? 13) || (n =? 32) || (n =? 160))%N.

(** [\d] without the unicode flag. *)
Definition isDigit (c : ascii) : bool :=
  let n := code c in ((48 <=? n) && (n <=? 57))%N.

(** Letters with a lower-case counterpart: A-Z, and U+00C0..U+00DE
    except the multiplication sign U+00D7. *)
Definition isUpper (c : ascii) : bool :=
  let n := code c in
  ((65 <=? n) && (n <=? 90) || (192 <=? n) && (n <=? 222) && negb (n =? 215))%N.

Definition toLowerChar (c : ascii) : ascii :=
  if isUpper c then ascii_of_N (code c + 32) else c.

(** [String.prototype.toLowerCase]. *)
Fixpoint toLowerCase (s : string) : string :=
  match s with
  | EmptyString => EmptyString
  | String c s' => String (toLowerChar c) (toLowerCase s')
  end.

Fixpoint trimStart (s : string) : string :=
  match s with
  | EmptyString => EmptyString
  | String c s' => if isWhiteSpace c then trimStart s' else s
  end.

Fixpoint trimEnd (s : string) : string :=
  match s with
  | EmptyString => EmptyString
  | String c s' =>
      match trimEnd s' with
      | EmptyString => if isWhiteSpace c then EmptyString else String c EmptyString
      | t => String c t
      end
  end.

(** [String.prototype.trim]. *)
Definition trim (s : string) : string := trimEnd (trimStart s).

Definition startsWithDelim (s : string) : bool :=
  match s with
  | EmptyString => false
  | String c _ => isDelim c
  end.

(** [s.split(/[,;/|]+/)]: the pieces between maximal runs of separator
    characters.  A run at the very start or end leaves an empty piece
    there, and the empty string splits to one empty piece. *)
Fixpoint split (s : string) : list string :=
  match s with
  | EmptyString => [EmptyString]
  | String c s' =>
      if isDelim c then
        (if startsWithDelim s' then split s' else EmptyString :: split s')
      else
        match split s' with
        | h :: t => String c h :: t
        | [] => [String c EmptyString]
        end
  end.

(** Truthiness of a string: [Boolean(s)]. *)
Definition truthyString (s : string) : bool :=
  match s with EmptyString => false | _ => true end.

(** [g.split(/[,;/|]+/).map(s=>s.trim()).filter(Boolean)] *)
Definition genreParts (g : string) : list string :=
  filter truthyString (map trim (split g)).

(** ** File records and the selection *)

Record File := mkFile {
  genre : option string;
  artist : option string;
  duration : option Q;
  date : option string;
  mtime_epoch : option Z
}.

(** What a caller may pass as the [genre] argument. *)
Inductive Selection :=
| SelNull
| SelUndefined
| SelString (s : string).

Definition truthySelection (g : Selection) : bool :=
  match g with
  | SelString s => truthyString s
  | _ => false
  end.

Definition ALL : string := "__all__".

(** [fileHasGenre(file, genre)]; [None] is a null or undefined [file]. *)
Definition fileHasGenre (file : option File) (g : string) : bool :=
  match file with
  | None => false
  | Some f =>
      match genre f with
      | None => false
      | Some fg =>
          if negb (truthyString fg) then false
          else existsb (fun p => toLowerCase p =? toLowerCase g) (genreParts fg)
      end
  end.

(** The callback of the default view (app.js lines 29-33): keeps a file
    with a truthy genre none of whose parts lower-cases to "unknown". *)
Definition excludeUnknown (f : File) : bool :=
  match genre f with
  | None => false
  | Some fg =>
      if negb (truthyString fg) then false
      else negb (existsb (fun p => toLowerCase p =? "unknown") (genreParts fg))
  end.

Definition selectionIs (g : Selection) (s : string) : bool :=
  match g with
  | SelString s' => s' =? s
  | _ => false
  end.

(** [getFilteredFiles(files, genre)]; [None] is a null or undefined list.
    In the last branch the selection is truthy, hence a string. *)
Definition getFilteredFiles (files : option (list File)) (g : Selection) : list File :=
  match files with
  | None => []
  | Some fs =>
      if negb (truthySelection g) || selectionIs g ALL then filter excludeUnknown fs
      else
        match g with
        | SelString s => filter (fun f => fileHasGenre (Some f) s) fs
        | _ => []
        end
  end.

(** ** Dates

    The part of ECMA-262's Date objects that [getFullYear] needs.  A time
    value is a number of milliseconds since the epoch, or the NaN of an
    invalid date, for which [TimeClip] gives [None]. *)

Local Open Scope Z_scope.

Definition msPerDay : Z := 86400000.

Definition Day (t : Z) : Z := t / msPerDay.

(** ECMA-262 DayFromYear: the day number of the first day of year [y]. *)
Definition DayFromYear (y : Z) : Z :=
  365 * (y - 1970) + (y - 1969) / 4 - (y - 1901) / 100 + (y - 1601) / 400.

(** The year in which day [d] falls, found by counting whole 400-, 100-,
    4- and 1-year periods since 1 January 1601, which is [134774] days
    before the epoch.  [YearFromDay_spec] below shows that this is the
    year ECMA-262 defines. *)
Definition YearFromDay (d : Z) : Z :=
  let n := d + 134774 in
  let c400 := n / 146097 in
  let r400 := n mod 146097 in
  let c100 := Z.min (r400 / 36524) 3 in
  let r100 := r400 - c100 * 36524 in
  let c4 := r100 / 1461 in
  let r4 := r100 mod 1461 in
  let c1 := Z.min (r4 / 365) 3 in
  1601 + 400 * c400 + 100 * c100 + 4 * c4 + c1.

Definition YearFromTime (t : Z) : Z := YearFromDay (Day t).

(** ECMA-262 TimeClip on an integral number of milliseconds. *)
Definition TimeClip (t : Z) : option Z :=
  if Z.abs t <=? 8640000000000000 then Some t else None.

(** What [getYearFromFile] can return: [null], NaN or a number. *)
Inductive JsYear :=
| YNull
| YNaN
| YNum (y : Z).

(** [if (y)] on such a value. *)
Definition truthyYear (y : JsYear) : bool :=
  match y with
  | YNum n => negb (n =? 0)
  | _ => false
  end.

(** One step of the regular expression [/(19|20)\d{2}/]: does it match at
    the very start of [s]?  The result is the matched text. *)
Definition yearTokenAt (s : string) : option string :=
  match s with
  | String a (String b (String c (String d _))) =>
      if (((a =? "1")%char && (b =? "9")%char) || ((a =? "2")%char && (b =? "0")%char))
         && isDigit c && isDigit d
      then Some (String a (String b (String c (String d EmptyString))))
      else None
  | _ => None
  end.

(** [s.match(/(19|20)\d{2}/)]: the leftmost match, as [m[0]]. *)
Fixpoint matchYear (s : string) : option string :=
  match s with
  | EmptyString => None
  | String _ s' =>
      match yearTokenAt s with
      | Some m => Some m
      | None => matchYear s'
      end
  end.

Definition digitValue (c : ascii) : Z := Z.of_N (code c) - 48.

Fixpoint digitsValue (acc : Z) (s : string) : Z :=
  match s with
  | EmptyString => acc
  | String c s' => digitsValue (10 * acc + digitValue c) s'
  end.

(** Unary [+] on a string of decimal digits. *)
Definition toNumber (s : string) : Z := digitsValue 0 s.

Section LocalTime.

(** The offset of local time from UTC, in milliseconds, at time [t]:
    ECMA-262's LocalTZA, fixed by the host. *)
Variable LocalTZA : Z -> Z.

(** [new Date(tv).getFullYear()] *)
Definition getFullYear (tv : Z) : JsYear :=
  match TimeClip tv with
  | None => YNaN
  | Some t => YNum (YearFromTime (t + LocalTZA t))
  end.

(** [getYearFromFile(file)] *)
Definition getYearFromFile (file : option File) : JsYear :=
  match file with
  | None => YNull
  | Some f =>
      let m :=
        match date f with
        | Some d => if truthyString d then matchYear d else None
        | None => None
        end in
      match m with
      | Some m0 => YNum (toNumber m0)
      | None =>
          match mtime_epoch f with
          | Some t => if negb (t =? 0) then getFullYear (t * 1000) else YNull
          | None => YNull
          end
      end
  end.

End LocalTime.

(** ** Plain objects used as dictionaries *)

Local Open Scope nat_scope.

(** The own enumerable properties of an object, in creation order. *)
Definition JsObject (V : Type) := list (string * V).

Fixpoint own {V : Type} (o : JsObject V) (k : string) : option V :=
  match o with
  | [] => None
  | (k', v) :: o' => if (k' =? k)%string then Some v else own o' k
  end.

(** [o[k] = v] on a data property: an existing own property keeps its
    place, a new one is created last. *)
Fixpoint setOwn {V : Type} (o : JsObject V) (k : string) (v : V) : JsObject V :=
  match o with
  | [] => [(k, v)]
  | (k', v') :: o' =>
      if (k' =? k)%string then (k', v) :: o' else (k', v') :: setOwn o' k v
  end.

(** The properties every plain object inherits from [Object.prototype]
    (ECMA-262 with Annex B, as in browsers). *)
Definition prototypeKeys : list string :=
  [ "constructor"; "__defineGetter__"; "__defineSetter__"; "hasOwnProperty";
    "__lookupGetter__"; "__lookupSetter__"; "isPrototypeOf";
    "propertyIsEnumerable"; "toString"; "valueOf"; "__proto__";
    "toLocaleString" ].

Definition inheritedKey (k : string) : bool :=
  existsb (fun p => p =? k)%string prototypeKeys.

(** The result of reading [o[k]]. *)
Inductive Lookup (V : Type) :=
| Own (v : V)
| Inherited
| Undefined.

Arguments Own {V} v.
Arguments Inherited {V}.
Arguments Undefined {V}.

Definition js_get {V : Type} (o : JsObject V) (k : string) : Lookup V :=
  match own o k with
  | Some v => Own v
  | None => if inheritedKey k then Inherited else Undefined
  end.

(** A stable sort, as [Array.prototype.sort] is: [le a b] says that the
    comparator does not put [b] before [a]. *)
Section StableSort.

Context {A : Type} (le : A -> A -> bool).

Fixpoint insertSorted (x : A) (l : list A) : list A :=
  match l with
  | [] => [x]
  | y :: l' => if le x y then x :: l else y :: insertSorted x l'
  end.

Fixpoint sortBy (l : list A) : list A :=
  match l with
  | [] => []
  | x :: l' => insertSorted x (sortBy l')
  end.

End StableSort.

Fixpoint allDigits (s : string) : bool :=
  match s with
  | EmptyString => true
  | String c s' => isDigit c && allDigits s'
  end.

(** An array index is the canonical decimal form of an integer below
    [2^32 - 1]; such keys are enumerated first, in numeric order. *)
Definition arrayIndex (k : string) : option Z :=
  match k with
  | EmptyString => None
  | String c rest =>
      if allDigits k && (negb (c =? "0")%char || negb (truthyString rest))
         && (toNumber k <? 4294967295)%Z
      then Some (toNumber k) else None
  end.

Definition isArrayIndex (k : string) : bool :=
  match arrayIndex k with Some _ => true | None => false end.

Definition indexOf (k : string) : Z :=
  match arrayIndex k with Some i => i | None => 0%Z end.

(** [Object.entries(o)] *)
Definition Object_entries {V : Type} (o : JsObject V) : list (string * V) :=
  sortBy (fun a b => (indexOf (fst a) <=? indexOf (fst b))%Z)
         (filter (fun e => isArrayIndex (fst e)) o)
  ++ filter (fun e => negb (isArrayIndex (fst e))) o.

(** [Object.keys(o)] *)
Definition Object_keys {V : Type} (o : JsObject V) : list string :=
  map fst (Object_entries o).

(** The values a tally object can hold: a number, or the string that
    [+ 1] makes of anything that is not a number. *)
Inductive JsVal :=
| VNum (n : nat)
| VStr.

(** [o[k] = (o[k] || 0) + 1].  An inherited value is truthy and not a
    number, so [+ 1] concatenates; assigning a string to [__proto__]
    goes to the inherited setter, which ignores it. *)
Definition bump (o : JsObject JsVal) (k : string) : JsObject JsVal :=
  match js_get o k with
  | Own (VNum n) => setOwn o k (VNum (n + 1))
  | Own VStr => setOwn o k VStr
  | Inherited => if (k =? "__proto__")%string then o else setOwn o k VStr
  | Undefined => setOwn o k (VNum 1)
  end.

(** ** Aggregate statistics (stats.json)

    Every top-level key may be missing.  Only the keys that app.js reads
    are kept. *)

Record Summary := mkSummary {
  total_files_found : Z;
  files_scanned : Z;
  files_with_errors : Z;
  unique_genres : Z;
  unique_artists : Z
}.

Record Percentiles := mkPercentiles {
  p25 : option Q;
  p50 : option Q;
  p75 : option Q;
  p90 : option Q
}.

Record Stats := mkStats {
  summary : option Summary;
  durations : option Q;
  genre_counts : option (JsObject nat);
  artist_counts : option (JsObject nat);
  top_artists_per_genre : option (JsObject (list (string * nat)));
  duration_bins : option (JsObject JsVal);
  duration_percentiles : option Percentiles;
  per_genre_duration_bins : option (JsObject (JsObject JsVal));
  per_genre_duration_stats : option (JsObject (option Percentiles));
  genre_percentages : option (JsObject Q);
  top_genres : option (list (string * nat))
}.

(** ** The fallback aggregations *)

(** [Math.round]: the nearest integer, ties towards plus infinity. *)
Definition Math_round (q : Q) : Z := Qfloor (q + (1 # 2)).

(** [f.duration || 0] *)
Definition durationOrZero (f : File) : Q :=
  match duration f with
  | Some q => q
  | None => 0
  end.

(** The label chosen on line 103 for a rounded duration. *)
Definition durationLabel (d : Z) : string :=
  if (d <? 120)%Z then "<2m"
  else if (d <? 240)%Z then "2-4m"
  else if (d <? 360)%Z then "4-6m"
  else if (d <? 720)%Z then "6-12m"
  else "12m+".

Definition fileDurationLabel (f : File) : string :=
  durationLabel (Math_round (durationOrZero f)).

(** The [counts] object of lines 100-105. *)
Definition durationCounts (files : option (list File)) (g : Selection) : JsObject JsVal :=
  fold_left (fun counts f => bump counts (fileDurationLabel f))
            (getFilteredFiles files g) [].

(** What the variable [bins] of [renderDurationDistribution] can hold:
    an object, or a value inherited from [Object.prototype], which has no
    enumerable key of its own. *)
Inductive BinsVal :=
| BinsObject (o : JsObject JsVal)
| BinsInherited.

Definition binsKeys (b : BinsVal) : list string :=
  match b with
  | BinsObject o => Object_keys o
  | BinsInherited => []
  end.

(** The value of [bins] after line 107 of [renderDurationDistribution],
    from which the histogram is drawn. *)
Definition renderDurationDistribution_bins
    (stats : Stats) (g : Selection) (files : option (list File)) : BinsVal :=
  let bins0 :=
    BinsObject (match duration_bins stats with Some b => b | None => [] end) in
  let bins1 :=
    match g, per_genre_duration_bins stats with
    | SelString s, Some pg =>
        if truthyString s then
          match js_get pg s with
          | Own b => BinsObject b
          | Inherited => BinsInherited
          | Undefined => bins0
          end
        else bins0
    | _, _ => bins0
    end in
  if truthySelection g && (List.length (binsKeys bins1) =? 0)
     && (match files with Some _ => true | None => false end)
  then BinsObject (durationCounts files g)
  else bins1.

(** The [counts] object of lines 188-189. *)
Definition artistCounts (files : option (list File)) (g : Selection) : JsObject JsVal :=
  fold_left (fun counts f =>
               match artist f with
               | Some a => if truthyString a then bump counts a else counts
               | None => counts
               end)
            (getFilteredFiles files g) [].

(** The entries of a tally all of whose values are numbers. *)
Fixpoint numericEntries (es : list (string * JsVal)) : option (list (string * nat)) :=
  match es with
  | [] => Some []
  | (k, VNum n) :: es' =>
      match numericEntries es' with
      | Some r => Some ((k, n) :: r)
      | None => None
      end
  | (_, VStr) :: _ => None
  end.

(** The comparator [(a,b) => b[1]-a[1]]: descending by count. *)
Definition byCountDesc (a b : string * nat) : bool := snd b <=? snd a.

(** Line 190: [Object.entries(counts).sort(...).slice(0,20)], when
    every count is a number.  Otherwise the result is [None]: that entry
    carries a string for a count, the comparator returns NaN on it and
    ECMA-262 leaves the order to the implementation. *)
Definition artistFallback (files : option (list File)) (g : Selection)
  : option (list (string * nat)) :=
  match numericEntries (Object_entries (artistCounts files g)) with
  | Some es => Some (firstn 20 (sortBy byCountDesc es))
  | None => None
  end.

(** A tally whose values are all numbers, as a list of keys with their
    counts in creation order: [o[k] = (o[k]||0)+1] when [k] is not an
    inherited name. *)
Section Tally.

Context {K : Type} (eqb : K -> K -> bool).

Fixpoint lookup (o : list (K * nat)) (k : K) : option nat :=
  match o with
  | [] => None
  | (k', n) :: rest => if eqb k' k then Some n else lookup rest k
  end.

Fixpoint tally (o : list (K * nat)) (k : K) : list (K * nat) :=
  match o with
  | [] => [(k, 1)]
  | (k', n) :: rest =>
      if eqb k' k then (k', n + 1) :: rest else (k', n) :: tally rest k
  end.

(** How often [k] occurs in a list of keys. *)
Definition occurrences (k : K) (ks : list K) : nat :=
  List.length (filter (eqb k) ks).

End Tally.

(** How many elements of a list pass a test. *)
Definition countWhere {X : Type} (p : X -> bool) (xs : list X) : nat :=
  List.length (filter p xs).

(** The keys of a loop that tallies [key x] for those [x] that have one. *)
Definition keysOf {X K : Type} (key : X -> option K) (xs : list X) : list K :=
  flat_map (fun x => match key x with Some k => [k] | None => [] end) xs.

(** [byYear[y] = (byYear[y]||0)+1] for a number [y].  The property key is
    the decimal form of [y], which identifies [y] and is never an
    inherited name, so the object is kept as a tally keyed by [y]. *)
Definition tallyYear (byYear : list (Z * nat)) (y : Z) : list (Z * nat) :=
  tally Z.eqb byYear y.

(** The loop body [if (y) byYear[y] = ...] over the years of the files. *)
Definition tallyYears (ys : list JsYear) : list (Z * nat) :=
  fold_left (fun byYear y =>
               match y with
               | YNum n => if truthyYear y then tallyYear byYear n else byYear
               | _ => byYear
               end) ys [].

(** The comparator [(a,b) => a.year-b.year]: ascending by year. *)
Definition byYearAsc (a b : Z * nat) : bool := (fst a <=? fst b)%Z.

(** [Object.entries(byYear).map(...).sort(...)]: the keys are distinct,
    so the order in which [Object.entries] lists them does not show. *)
Definition yearEntries (ys : list JsYear) : list (Z * nat) :=
  sortBy byYearAsc (tallyYears ys).

(** [f.mtime_epoch || 0] *)
Definition mtimeOrZero (f : File) : Z :=
  match mtime_epoch f with
  | Some t => t
  | None => 0%Z
  end.

Section LocalTimeAggregation.

Variable LocalTZA : Z -> Z.

(** The [entries] of [renderYearHistogramFromFiles]. *)
Definition renderYearHistogramFromFiles_entries
    (files : option (list File)) (g : Selection) : list (Z * nat) :=
  yearEntries (map (fun f => getYearFromFile LocalTZA (Some f))
                   (getFilteredFiles files g)).

(** The year under which line 236 counts a file. *)
Definition addedYear (f : File) : JsYear :=
  getFullYear LocalTZA (mtimeOrZero f * 1000).

(** The [entries] of [renderAddedTimelineFromFiles]. *)
Definition renderAddedTimelineFromFiles_entries
    (files : option (list File)) (g : Selection) : list (Z * nat) :=
  yearEntries (map addedYear (getFilteredFiles files g)).

End LocalTimeAggregation.

(** ** The page and the renderers

    The drawing itself is left out; what is kept of each renderer is
    which element it clears, which keys of the statistics it
    dereferences, and whether it ends with a chart, a message or a
    TypeError. *)

Inductive Element :=
| el_summarytext
| el_genre_select
| el_duration_bins
| el_barchart
| el_genrepie
| el_artistchart
| el_durhist
| el_yearhist
| el_timeline
| el_genreradar.

Definition Element_eqb (a b : Element) : bool :=
  match a, b with
  | el_summarytext, el_summarytext
  | el_genre_select, el_genre_select
  | el_duration_bins, el_duration_bins
  | el_barchart, el_barchart
  | el_genrepie, el_genrepie
  | el_artistchart, el_artistchart
  | el_durhist, el_durhist
  | el_yearhist, el_yearhist
  | el_timeline, el_timeline
  | el_genreradar, el_genreradar => true
  | _, _ => false
  end.

(** What an element shows: what the page was loaded with, nothing
    (after [innerHTML = '']), a chart or text drawn from data, or the
    explicit "No data" message. *)
Inductive Display :=
| Initial
| Cleared
| Drawn
| NoDataMessage.

Definition Dom := Element -> Display.

Definition initialDom : Dom := fun _ => Initial.

Definition setEl (d : Dom) (e : Element) (v : Display) : Dom :=
  fun e' => if Element_eqb e e' then v else d e'.

(** A call either returns or throws; the page keeps what was done to it
    before the throw. *)
Inductive Outcome :=
| Returned (d : Dom)
| Threw (d : Dom).

Definition andThen (o : Outcome) (k : Dom -> Outcome) : Outcome :=
  match o with
  | Returned d => k d
  | Threw d => Threw d
  end.

Notation "o >>= k" := (andThen o k) (at level 50, left associativity).

(** The [length] of the functions and objects of [Object.prototype];
    [__proto__] reads the prototype object itself, which has none. *)
Definition inheritedLength (k : string) : nat :=
  if (k =? "constructor")%string then 1
  else if (k =? "__defineGetter__")%string then 2
  else if (k =? "__defineSetter__")%string then 2
  else if (k =? "hasOwnProperty")%string then 1
  else if (k =? "__lookupGetter__")%string then 1
  else if (k =? "__lookupSetter__")%string then 1
  else if (k =? "isPrototypeOf")%string then 1
  else if (k =? "propertyIsEnumerable")%string then 1
  else 0.

Definition isUnknown (g : string) : bool := (toLowerCase g =? "unknown")%string.

Definition renderSummary (stats : Stats) (d : Dom) : Outcome :=
  match summary stats with
  | None => Threw d
  | Some _ => Returned (setEl d el_summarytext Drawn)
  end.

Definition populateGenreSelect (stats : Stats) (d : Dom) : Outcome :=
  match genre_counts stats with
  | None => Threw d
  | Some _ => Returned (setEl d el_genre_select Drawn)
  end.

Definition renderDurationBins (stats : Stats) (d : Dom) : Outcome :=
  let d1 := setEl d el_duration_bins Cleared in
  match duration_bins stats with
  | None => Returned d1
  | Some b =>
      match Object_entries b with
      | [] => Returned d1
      | _ :: _ => Returned (setEl d1 el_duration_bins Drawn)
      end
  end.

Definition renderGenreBar (stats : Stats) (d : Dom) : Outcome :=
  let d1 := setEl d el_barchart Cleared in
  match genre_counts stats with
  | None => Threw d1
  | Some _ => Returned (setEl d1 el_barchart Drawn)
  end.

Definition renderGenrePie (stats : Stats) (d : Dom) : Outcome :=
  let d1 := setEl d el_genrepie Cleared in
  match genre_counts stats with
  | None => Threw d1
  | Some gc =>
      match filter (fun e => negb (isUnknown (fst e))) (Object_entries gc),
            genre_percentages stats with
      | _ :: _, None => Threw d1
      | _, _ => Returned (setEl d1 el_genrepie Drawn)
      end
  end.

(** Whether [data] of [renderArtistBar] is empty after the fallback of
    lines 186-191. *)
Definition artistFallbackEmpty (files : option (list File)) (g : Selection) : bool :=
  match files with
  | None => true
  | Some _ =>
      match Object_entries (artistCounts files g) with
      | [] => true
      | _ :: _ => false
      end
  end.

Definition renderArtistBar (g : Selection) (stats : Stats)
    (files : option (list File)) (d : Dom) : Outcome :=
  let d1 := setEl d el_artistchart Cleared in
  let finish (empty : bool) :=
    Returned (setEl d1 el_artistchart (if empty then NoDataMessage else Drawn)) in
  if negb (truthySelection g) then
    match artist_counts stats with
    | None => Threw d1
    | Some ac =>
        finish (match firstn 20 (Object_entries ac) with [] => true | _ :: _ => false end)
    end
  else
    match g, top_artists_per_genre stats with
    | SelString s, Some t =>
        match js_get t s with
        | Own [] => finish (artistFallbackEmpty files g)
        | Own (_ :: _) => finish false
        | Inherited =>
            if 0 <? inheritedLength s then Threw d1
            else finish (artistFallbackEmpty files g)
        | Undefined => finish (artistFallbackEmpty files g)
        end
    | _, _ => finish (artistFallbackEmpty files g)
    end.

Definition renderDurationDistribution (stats : Stats) (g : Selection)
    (files : option (list File)) (d : Dom) : Outcome :=
  Returned (setEl (setEl d el_durhist Cleared) el_durhist Drawn).

Definition renderGenreRadar (stats : Stats) (d : Dom) : Outcome :=
  let d1 := setEl d el_genreradar Cleared in
  match top_genres stats with
  | None => Threw d1
  | Some tg =>
      match firstn 6 tg, genre_percentages stats with
      | [], _ => Returned d1
      | _ :: _, None => Threw d1
      | _ :: _, Some _ => Returned (setEl d1 el_genreradar Drawn)
      end
  end.

Section Page.

Variable LocalTZA : Z -> Z.

Definition renderYearHistogramFromFiles (files : option (list File))
    (g : Selection) (d : Dom) : Outcome :=
  let d1 := setEl d el_yearhist Cleared in
  match renderYearHistogramFromFiles_entries LocalTZA files g with
  | [] => Returned d1
  | _ :: _ => Returned (setEl d1 el_yearhist Drawn)
  end.

Definition renderAddedTimelineFromFiles (files : option (list File))
    (g : Selection) (d : Dom) : Outcome :=
  let d1 := setEl d el_timeline Cleared in
  match renderAddedTimelineFromFiles_entries LocalTZA files g with
  | [] => Returned d1
  | _ :: _ => Returned (setEl d1 el_timeline Drawn)
  end.

(** [selectedGenre === '__all__' ? null : selectedGenre] *)
Definition nullIfAll (g : Selection) : Selection :=
  if selectionIs g ALL then SelNull else g.

(** [applyGenreFilter(selectedGenre)]: the renderers in the order of
    lines 283-291, with no handler around any of them. *)
Definition applyGenreFilter (stats : Stats) (files : option (list File))
    (g : Selection) (d : Dom) : Outcome :=
  renderSummary stats d
  >>= renderDurationBins stats
  >>= renderGenreBar stats
  >>= renderGenrePie stats
  >>= renderArtistBar (nullIfAll g) stats files
  >>= renderDurationDistribution stats (nullIfAll g) files
  >>= renderYearHistogramFromFiles files g
  >>= renderAddedTimelineFromFiles files g
  >>= renderGenreRadar stats.

(** [main()], once both documents are loaded. *)
Definition main (stats : Stats) (files : option (list File)) : Outcome :=
  populateGenreSelect stats initialDom
  >>= renderDurationBins stats
  >>= applyGenreFilter stats files (SelString ALL).

End Page.


(** ** The data behind the genre charts and the genre select *)

(** [stats.genre_counts[g]] inside the comparator of line 61.  The keys
    compared come from [Object.keys], so the property is always an own
    one and the second branch is not reached. *)
Definition countOf (gc : JsObject nat) (g : string) : nat :=
  match own gc g with
  | Some n => n
  | None => 0
  end.

(** The options that [populateGenreSelect] appends (line 61), given
    [stats.genre_counts]. *)
Definition populateGenreSelect_options (gc : JsObject nat) : list string :=
  sortBy (fun a b => countOf gc b <=? countOf gc a)
         (filter (fun g => negb (isUnknown g)) (Object_keys gc)).

(** The [data] of [renderGenreBar] (lines 149-151). *)
Definition renderGenreBar_data (gc : JsObject nat) : list (string * nat) :=
  firstn 20
    (sortBy byCountDesc
       (filter (fun e => negb (isUnknown (fst e))) (Object_entries gc))).

(** A slice of the pie: [{genre, count, pct}], where [pct] is whatever
    [stats.genre_percentages[genre]] reads. *)
Record Slice := mkSlice {
  slice_genre : string;
  slice_count : nat;
  slice_pct : Lookup Q
}.

(** The [data] of [renderGenrePie] (lines 296-298), given
    [stats.genre_counts] and [stats.genre_percentages]. *)
Definition renderGenrePie_data (gc : JsObject nat) (gp : JsObject Q) : list Slice :=
  firstn 30
    (sortBy (fun a b => slice_count b <=? slice_count a)
       (map (fun d => mkSlice (fst d) (snd d) (js_get gp (fst d)))
          (filter (fun e => negb (isUnknown (fst e))) (Object_entries gc)))).

(** The slices that get a legend row (line 350). *)
Definition renderGenrePie_legend (gc : JsObject nat) (gp : JsObject Q) : list Slice :=
  firstn 10 (renderGenrePie_data gc gp).

(** The doubles that the literals [0.02] and [0.045] denote. *)
Definition double_0_02 : Q := 5764607523034235 # 288230376151711744.
Definition double_0_045 : Q := 3242591731706757 # 72057594037927936.

(** [pct && pct > t]: an inherited function is truthy but compares as
    NaN. *)
Definition pctAbove (t : Q) (pct : Lookup Q) : bool :=
  match pct with
  | Own q => negb (Qeq_bool q 0) && negb (Qle_bool q t)
  | Inherited => false
  | Undefined => false
  end.

(** Whether a slice gets its genre as a label (line 332) and a leader
    line (line 337). *)
Definition pieLabelShown (s : Slice) : bool := pctAbove double_0_02 (slice_pct s).
Definition pieLeaderShown (s : Slice) : bool := pctAbove double_0_045 (slice_pct s).

(** ** The radar chart *)

(** [stats.genre_percentages[g] || 0]; [None] is a value that is not a
    number (an inherited function, which is truthy). *)
Definition radarValue (gp : JsObject Q) (g : string) : option Q :=
  match js_get gp g with
  | Own q => if Qeq_bool q 0 then Some 0%Q else Some q
  | Inherited => None
  | Undefined => Some 0%Q
  end.

(** The numbers of a list, if all its values are numbers. *)
Fixpoint allNumbers (vs : list (option Q)) : option (list Q) :=
  match vs with
  | [] => Some []
  | Some q :: vs' =>
      match allNumbers vs' with
      | Some qs => Some (q :: qs)
      | None => None
      end
  | None :: _ => None
  end.

(** [Math.max(...values) || 1] for a non-empty [values]: NaN as soon as
    one value is not a number, and then, as for a maximum of 0, the
    result is 1. *)
Definition radarMaxVal (values : list (option Q)) : Q :=
  match allNumbers values with
  | Some (q :: qs) =>
      let m := fold_left Qmax qs q in
      if Qeq_bool m 0 then 1%Q else m
  | _ => 1%Q
  end.

(** Lines 366-376 of [renderGenreRadar]: the labels, the values and
    [maxVal]; [None] when [top] is empty and the function returns. *)
Definition renderGenreRadar_axes (tg : list (string * nat)) (gp : JsObject Q)
  : option (list string * list (option Q) * Q) :=
  match firstn 6 tg with
  | [] => None
  | top =>
      let values := map (fun d => radarValue gp (fst d)) top in
      Some (map fst top, values, radarMaxVal values)
  end.

(** ** The summary *)

(** The number of files on the "Filtered:" line of [renderSummary]
    (lines 50-53), when the line is written at all. *)
Definition renderSummary_filtered (files : option (list File)) (g : Selection)
  : option nat :=
  if truthySelection g && negb (selectionIs g ALL)
  then Some (List.length (getFilteredFiles files g))
  else None.

(** The total of the counts of a tally. *)
Definition totalCount {K : Type} (o : list (K * nat)) : nat :=
  fold_right (fun e acc => snd e + acc) 0 o.
(** ** Tests on strings used in the proofs *)

Fixpoint noDelim (s : string) : bool :=
  match s with
  | EmptyString => true
  | String c s' => negb (isDelim c) && noDelim s'
  end.

Fixpoint endsWithDelim (s : string) : bool :=
  match s with
  | EmptyString => false
  | String c EmptyString => isDelim c
  | String _ s' => endsWithDelim s'
  end.

(** ** The vocabulary of the specification

    The words of the specification are spelled out by themselves,
    without the functions of the program. *)

(** The four separators that the specification names: comma, semicolon,
    slash and pipe. *)
Definition Separator (c : ascii) : Prop :=
  c = ","%char \/ c = ";"%char \/ c = "/"%char \/ c = "|"%char.

(** White space among the code units below U+0100: TAB, LF, VT, FF, CR,
    SPACE and NO-BREAK SPACE, by their numbers. *)
Definition WhiteSpace (c : ascii) : Prop :=
  In (N_of_ascii c) [9; 10; 11; 12; 13; 32; 160]%N.

(** Every code unit of [s] satisfies [P]. *)
Definition Throughout (P : ascii -> Prop) (s : string) : Prop :=
  forall a c b, s = (a ++ String c b)%string -> P c.

(** The first, respectively the last, code unit of [s] satisfies [P]. *)
Definition StartsWith (P : ascii -> Prop) (s : string) : Prop :=
  exists c t, s = String c t /\ P c.

Definition EndsWith (P : ascii -> Prop) (s : string) : Prop :=
  exists t c, s = (t ++ String c EmptyString)%string /\ P c.

(** [p] is one of the pieces into which the separators cut [s]: a run
    without separator that reaches, on each side, a separator or the end
    of [s]. *)
Definition Segment (s p : string) : Prop :=
  exists pre post,
    s = (pre ++ p ++ post)%string
    /\ Throughout (fun c => ~ Separator c) p
    /\ (pre = EmptyString \/ EndsWith Separator pre)
    /\ (post = EmptyString \/ StartsWith Separator post).

(** [p] is [q] without the white space at its two ends. *)
Definition Trimmed (q p : string) : Prop :=
  exists l r,
    q = (l ++ p ++ r)%string
    /\ Throughout WhiteSpace l /\ Throughout WhiteSpace r
    /\ ~ StartsWith WhiteSpace p /\ ~ EndsWith WhiteSpace p.

(** [a] is the capital of the small letter [b]: the capitals are A to Z
    (65 to 90) and, among the accented letters, U+00C0 to U+00DE (192
    to 222) without the multiplication sign (215); the small letter is
    32 places further. *)
Definition CapitalOf (a b : ascii) : Prop :=
  (N_of_ascii b = N_of_ascii a + 32)%N
  /\ ((65 <= N_of_ascii a <= 90)%N
      \/ ((192 <= N_of_ascii a <= 222)%N /\ N_of_ascii a <> 215%N)).

(** Two code units that are the same letter up to case. *)
Definition SameLetter (a b : ascii) : Prop :=
  a = b \/ CapitalOf a b \/ CapitalOf b a.

(** Case-insensitive equality of strings: the same letters, one by one,
    up to case. *)
Inductive EqIgnoreCase : string -> string -> Prop :=
| eic_empty : EqIgnoreCase EmptyString EmptyString
| eic_letter a b s t :
    SameLetter a b -> EqIgnoreCase s t -> EqIgnoreCase (String a s) (String b t).

(** A trimmed, non-empty part of the genre field of [f]. *)
Definition GenrePart (f : File) (p : string) : Prop :=
  exists fg q, genre f = Some fg /\ Segment fg q /\ Trimmed q p /\ p <> EmptyString.

(** The Genre Matcher of the specification. *)
Definition Matches (f : File) (g : string) : Prop :=
  exists p, GenrePart f p /\ EqIgnoreCase p g.

(** The files of the default view. *)
Definition KnownGenre (f : File) : Prop :=
  (exists fg, genre f = Some fg /\ fg <> EmptyString)
  /\ forall p, GenrePart f p -> ~ EqIgnoreCase p "unknown".

(** [r] is exactly the elements of [l] that satisfy [P], each as often
    as in [l] and in the order of [l]. *)
Inductive Selects {A : Type} (P : A -> Prop) : list A -> list A -> Prop :=
| selects_nil : Selects P [] []
| selects_keep x l r : P x -> Selects P l r -> Selects P (x :: l) (x :: r)
| selects_drop x l r : ~ P x -> Selects P l r -> Selects P (x :: l) r.

(** A specific genre: a selection that is neither falsy nor the
    sentinel. *)
Definition SpecificGenre (g : string) : Prop := g <> EmptyString /\ g <> ALL.

(** The text that the Year Extractor scans: the [date] field, or nothing. *)
Definition dateText (f : File) : string :=
  match date f with
  | Some d => d
  | None => EmptyString
  end.

(** The ten decimal digits with their values. *)
Definition DigitOf (c : ascii) (d : Z) : Prop :=
  In (c, d) [("0"%char, 0%Z); ("1"%char, 1%Z); ("2"%char, 2%Z); ("3"%char, 3%Z);
             ("4"%char, 4%Z); ("5"%char, 5%Z); ("6"%char, 6%Z); ("7"%char, 7%Z);
             ("8"%char, 8%Z); ("9"%char, 9%Z)].

(** [t] is a 4-digit sequence beginning with "19" or "20", and [y] is
    the number that it writes. *)
Definition YearTokenOf (t : string) (y : Z) : Prop :=
  exists c d dc dd,
    DigitOf c dc /\ DigitOf d dd
    /\ ((t = String "1" (String "9" (String c (String d EmptyString)))
         /\ y = (1900 + 10 * dc + dd)%Z)
        \/ (t = String "2" (String "0" (String c (String d EmptyString)))
            /\ y = (2000 + 10 * dc + dd)%Z)).

(** A 4-digit sequence beginning with "19" or "20". *)
Definition IsYearToken (t : string) : Prop := exists y, YearTokenOf t y.

(** [t] occurs in [s] after [n] code units. *)
Definition OccursAt (s t : string) (n : nat) : Prop :=
  exists pre post, s = (pre ++ t ++ post)%string /\ String.length pre = n.

(** [t] is the first year token of [s]. *)
Definition FirstYearToken (s t : string) : Prop :=
  IsYearToken t
  /\ exists n, OccursAt s t n
               /\ forall t' n', IsYearToken t' -> OccursAt s t' n' -> n <= n'.

Definition NoYearToken (s : string) : Prop :=
  forall t n, IsYearToken t -> ~ OccursAt s t n.

(** Is the value the number [y]? *)
Definition yearIs (y : Z) (v : JsYear) : bool :=
  match v with
  | YNum m => (m =? y)%Z
  | _ => false
  end.

(** The Year Extractor in the words of the specification (section 4.2):
    the year found in the date text, otherwise the calendar year of
    [mtime_epoch], otherwise absent. *)
Definition yearOf_claimed (LocalTZA : Z -> Z) (f : File) : JsYear :=
  match matchYear (dateText f) with
  | Some t => YNum (toNumber t)
  | None =>
      match mtime_epoch f with
      | Some t => getFullYear LocalTZA (t * 1000)
      | None => YNull
      end
  end.

(** Universal time as the local time zone. *)
Definition UTC : Z -> Z := fun _ => 0%Z.

(** The key under which the loops of the two year charts count a value. *)
Definition yearKey (y : JsYear) : option Z :=
  match y with
  | YNum n => if truthyYear y then Some n else None
  | _ => None
  end.

(** A tally of numbers as the object that holds it. *)
Definition asObject (o : list (string * nat)) : JsObject JsVal :=
  map (fun e => (fst e, VNum (snd e))) o.

(** The five labels of the duration bins, in order. *)
Definition durationLabels : list string :=
  ["<2m"; "2-4m"; "4-6m"; "6-12m"; "12m+"].

(** The key under which line 189 counts a file: its truthy artist. *)
Definition artistKey (f : File) : option string :=
  match artist f with
  | Some a => if truthyString a then Some a else None
  | None => None
  end.

Definition artistIs (a : string) (f : File) : bool :=
  match artist f with
  | Some a' => (a' =? a)%string
  | None => false
  end.

(** The per-genre bins of the statistics hold nothing for [g]. *)
Definition PerGenreBinsAbsent (stats : Stats) (g : string) : Prop :=
  match per_genre_duration_bins stats with
  | None => True
  | Some pg => own pg g = None
  end.

(** The length in days of the year that starts [b] 100-year periods,
    [c] 4-year periods and [e] years into a 400-year cycle begun in 1601. *)
Definition yearLength (b c e : Z) : Z :=
  if ((e =? 3) && ((c <? 24) || (b =? 3)))%Z then 366%Z else 365%Z.

(** White space at the ends of a string, for the contract of [trim]. *)
Fixpoint allWhite (s : string) : bool :=
  match s with
  | EmptyString => true
  | String c s' => isWhiteSpace c && allWhite s'
  end.

Definition startsWithWhite (s : string) : bool :=
  match s with
  | EmptyString => false
  | String c _ => isWhiteSpace c
  end.

Fixpoint endsWithWhite (s : string) : bool :=
  match s with
  | EmptyString => false
  | String c EmptyString => isWhiteSpace c
  | String _ s' => endsWithWhite s'
  end.

(** The place of a label among the five. *)
Definition labelRank (l : string) : nat :=
  if (l =? "<2m")%string then 0
  else if (l =? "2-4m")%string then 1
  else if (l =? "4-6m")%string then 2
  else if (l =? "6-12m")%string then 3
  else 4.

(** The test that [getFilteredFiles] applies to each file for a given
    selection: the callback of line 29 or that of line 35. *)
Definition selectionKeeps (g : Selection) (f : File) : bool :=
  if negb (truthySelection g) || selectionIs g ALL then excludeUnknown f
  else
    match g with
    | SelString s => fileHasGenre (Some f) s
    | _ => false
    end.

(** [!!f.genre] *)
Definition hasGenreText (f : File) : bool :=
  match genre f with
  | Some fg => truthyString fg
  | None => false
  end.

(** A call that either always throws, or always returns and then sets
    the elements [es], and only those, to a display other than the
    initial one that does not depend on the page it started from. *)
Definition Redraws (k : Dom -> Outcome) (es : list Element) : Prop :=
  (forall d, exists r, k d = Threw r)
  \/ exists page : Element -> Display,
       (forall e, existsb (Element_eqb e) es = true -> page e <> Initial)
       /\ forall d, exists r,
            k d = Returned r
            /\ forall e, r e = if existsb (Element_eqb e) es then page e else d e.

(** The statistics hold no list of artists of its own for the genre
    [s]: no per-genre lists at all, none under the key [s], or an empty
    one. *)
Definition NoArtistList (stats : Stats) (s : string) : Prop :=
  match top_artists_per_genre stats with
  | None => True
  | Some t => own t s = None \/ own t s = Some []
  end.



(** ** The calendar *)

(** A leap year of the Gregorian calendar: every fourth year, except the
    years of a century that are not every fourth century. *)
Definition LeapYear (y : Z) : Prop :=
  ((y mod 4 = 0 /\ y mod 100 <> 0) \/ y mod 400 = 0)%Z.

(** The year [y] has [n] days. *)
Definition DaysInYear (y n : Z) : Prop :=
  (LeapYear y /\ n = 366%Z) \/ (~ LeapYear y /\ n = 365%Z).

(** The year [y] begins [d] days after 1 January 1970: counted from
    there, forwards and backwards, year by year. *)
Inductive NewYearsDay : Z -> Z -> Prop :=
| nyd_epoch : NewYearsDay 1970 0
| nyd_next y d n :
    NewYearsDay y d -> DaysInYear y n -> NewYearsDay (y + 1) (d + n)
| nyd_prev y d n :
    NewYearsDay (y + 1) (d + n) -> DaysInYear y n -> NewYearsDay y d.

(** The instant [ms] milliseconds after the start of 1 January 1970, on
    a clock without time zone, falls in the calendar year [y]. *)
Definition CalendarYear (ms y : Z) : Prop :=
  exists d0 d1,
    NewYearsDay y d0 /\ NewYearsDay (y + 1) d1
    /\ (d0 * 86400000 <= ms < d1 * 86400000)%Z.

(** The instant [ms] milliseconds after the epoch falls, on the local
    clock, in the calendar year [y]. *)
Definition LocalCalendarYear (LocalTZA : Z -> Z) (ms y : Z) : Prop :=
  CalendarYear (ms + LocalTZA ms) y.

(** The instants that a Date can hold: 100 million days either side of
    the epoch. *)
Definition InDateRange (ms : Z) : Prop :=
  (- 8640000000000000 <= ms <= 8640000000000000)%Z.

(** The file [f] counts as added in the year [y]: its [mtime_epoch], in
    seconds since the epoch and read as 0 when missing, is an instant
    that a Date can hold and that falls in [y] on the local clock. *)
Definition AddedIn (LocalTZA : Z -> Z) (f : File) (y : Z) : Prop :=
  exists t,
    (mtime_epoch f = Some t \/ (mtime_epoch f = None /\ t = 0%Z))
    /\ InDateRange (t * 1000) /\ LocalCalendarYear LocalTZA (t * 1000) y.

(** The added-timeline in the words of the specification (section 4.4):
    every shown file is counted under the calendar year of its
    [mtime_epoch], none is dropped. *)
Definition NoneDropped (LocalTZA : Z -> Z) (shown : list File)
    (entries : list (Z * nat)) : Prop :=
  forall f y, In f shown -> AddedIn LocalTZA f y ->
              exists n, In (y, n) entries /\ 0 < n.

(** ** The Genre Matcher on texts of any code units

    [fileHasGenre] once more, on strings as ECMAScript has them:
    sequences of 16-bit code units, each a number below 65536.  [split]
    and [trim] are the exact functions.  [toLowerCase] is exact on texts
    whose code units are all below U+0100, where it works unit by unit;
    on any other text it is the function [lower] that the host supplies
    (the Unicode Default Case Conversion, which may look at more than
    one unit at a time and change the length of the text). *)

Module Utf16.

Definition Text := list N.

(** The character class [[,;/|]]. *)
Definition isDelim (c : N) : bool :=
  ((c =? 44) || (c =? 59) || (c =? 47) || (c =? 124))%N.

(** ECMAScript WhiteSpace and LineTerminator: U+0009..U+000D, U+0020,
    U+00A0, U+1680, U+2000..U+200A, U+2028, U+2029, U+202F, U+205F,
    U+3000 and U+FEFF. *)
Definition isWhiteSpace (c : N) : bool :=
  ((9 <=? c) && (c <=? 13) || (c =? 32) || (c =? 160) || (c =? 5760)
   || (8192 <=? c) && (c <=? 8202) || (c =? 8232) || (c =? 8233)
   || (c =? 8239) || (c =? 8287) || (c =? 12288) || (c =? 65279))%N.

Definition isLatin1 (c : N) : bool := (c <? 256)%N.

Definition isUpper (c : N) : bool :=
  ((65 <=? c) && (c <=? 90) || (192 <=? c) && (c <=? 222) && negb (c =? 215))%N.

Definition toLowerChar (c : N) : N := if isUpper c then (c + 32)%N else c.

Fixpoint trimStart (s : Text) : Text :=
  match s with
  | [] => []
  | c :: s' => if isWhiteSpace c then trimStart s' else s
  end.

Fixpoint trimEnd (s : Text) : Text :=
  match s with
  | [] => []
  | c :: s' =>
      match trimEnd s' with
      | [] => if isWhiteSpace c then [] else [c]
      | t => c :: t
      end
  end.

(** [String.prototype.trim]. *)
Definition trim (s : Text) : Text := trimEnd (trimStart s).

Definition startsWithDelim (s : Text) : bool :=
  match s with
  | [] => false
  | c :: _ => isDelim c
  end.

(** [s.split(/[,;/|]+/)] *)
Fixpoint split (s : Text) : list Text :=
  match s with
  | [] => [[]]
  | c :: s' =>
      if isDelim c then
        (if startsWithDelim s' then split s' else [] :: split s')
      else
        match split s' with
        | h :: t => (c :: h) :: t
        | [] => [[c]]
        end
  end.

Definition truthyString (s : Text) : bool :=
  match s with [] => false | _ => true end.

(** [g.split(/[,;/|]+/).map(s=>s.trim()).filter(Boolean)] *)
Definition genreParts (g : Text) : list Text :=
  filter truthyString (map trim (split g)).

(** [===] on strings. *)
Fixpoint eqb (a b : Text) : bool :=
  match a, b with
  | [], [] => true
  | x :: a', y :: b' => (x =? y)%N && eqb a' b'
  | _, _ => false
  end.

Record File := mkFile {
  genre : option Text;
  artist : option Text;
  duration : option Q;
  date : option Text;
  mtime_epoch : option Z
}.

Section Host.

(** The host's lower-casing of a text that holds a code unit from
    U+0100 on. *)
Variable lower : Text -> Text.

(** [String.prototype.toLowerCase]. *)
Definition toLowerCase (s : Text) : Text :=
  if forallb isLatin1 s then map toLowerChar s else lower s.

(** [fileHasGenre(file, genre)] *)
Definition fileHasGenre (file : option File) (g : Text) : bool :=
  match file with
  | None => false
  | Some f =>
      match genre f with
      | None => false
      | Some fg =>
          if negb (truthyString fg) then false
          else existsb (fun p => eqb (toLowerCase p) (toLowerCase g)) (genreParts fg)
      end
  end.

End Host.

(** *** The words of the specification on such texts *)

(** Comma, semicolon, slash and pipe. *)
Definition Separator (c : N) : Prop :=
  c = N_of_ascii ","%char \/ c = N_of_ascii ";"%char
  \/ c = N_of_ascii "/"%char \/ c = N_of_ascii "|"%char.

(** White space: TAB, LF, VT, FF, CR, SPACE, NO-BREAK SPACE, OGHAM SPACE
    MARK, EN QUAD to HAIR SPACE, LINE SEPARATOR, PARAGRAPH SEPARATOR,
    NARROW NO-BREAK SPACE, MEDIUM MATHEMATICAL SPACE, IDEOGRAPHIC SPACE
    and the BYTE ORDER MARK, by their numbers. *)
Definition WhiteSpace (c : N) : Prop :=
  In c [9; 10; 11; 12; 13; 32; 160; 5760;
        8192; 8193; 8194; 8195; 8196; 8197; 8198; 8199; 8200; 8201; 8202;
        8232; 8233; 8239; 8287; 12288; 65279]%N.

Definition StartsWith (P : N -> Prop) (s : Text) : Prop :=
  exists c t, s = c :: t /\ P c.

Definition EndsWith (P : N -> Prop) (s : Text) : Prop :=
  exists t c, s = t ++ [c] /\ P c.

(** [p] is one of the pieces into which the separators cut [s]. *)
Definition Segment (s p : Text) : Prop :=
  exists pre post,
    s = pre ++ p ++ post
    /\ Forall (fun c => ~ Separator c) p
    /\ (pre = [] \/ EndsWith Separator pre)
    /\ (post = [] \/ StartsWith Separator post).

(** [p] is [q] without the white space at its two ends. *)
Definition Trimmed (q p : Text) : Prop :=
  exists l r,
    q = l ++ p ++ r
    /\ Forall WhiteSpace l /\ Forall WhiteSpace r
    /\ ~ StartsWith WhiteSpace p /\ ~ EndsWith WhiteSpace p.

(** A text of code units below U+0100. *)
Definition Latin1 (s : Text) : Prop := Forall (fun c => (c < 256)%N) s.

(** [a] is the capital of the small letter [b], among the code units
    below U+0100: A to Z and U+00C0 to U+00DE without U+00D7, the small
    letter 32 places further. *)
Definition CapitalOf (a b : N) : Prop :=
  (b = a + 32)%N
  /\ ((65 <= a <= 90)%N \/ ((192 <= a <= 222)%N /\ a <> 215%N)).

Definition SameLetter (a b : N) : Prop :=
  a = b \/ CapitalOf a b \/ CapitalOf b a.

(** The same letters, one by one, up to case. *)
Definition EqIgnoreCase (s t : Text) : Prop := Forall2 SameLetter s t.

(** *** Tests used in the proofs *)

Fixpoint noDelim (s : Text) : bool :=
  match s with
  | [] => true
  | c :: s' => negb (isDelim c) && noDelim s'
  end.

Fixpoint endsWithDelim (s : Text) : bool :=
  match s with
  | [] => false
  | [c] => isDelim c
  | _ :: s' => endsWithDelim s'
  end.

Fixpoint allWhite (s : Text) : bool :=
  match s with
  | [] => true
  | c :: s' => isWhiteSpace c && allWhite s'
  end.

Definition startsWithWhite (s : Text) : bool :=
  match s with
  | [] => false
  | c :: _ => isWhiteSpace c
  end.

Fixpoint endsWithWhite (s : Text) : bool :=
  match s with
  | [] => false
  | [c] => isWhiteSpace c
  | _ :: s' => endsWithWhite s'
  end.

End Utf16.

(** The texts of the embedding among all texts: each [ascii] is the
    code unit of its number. *)
Definition units (s : string) : Utf16.Text :=
  map N_of_ascii (list_ascii_of_string s).

Definition wide (f : File) : Utf16.File :=
  Utf16.mkFile (option_map units (genre f)) (option_map units (artist f))
               (duration f) (option_map units (date f)) (mtime_epoch f).

(** ** Sample records *)

Definition rockPop : File := mkFile (Some "Rock; Pop") None None None None.
Definition rock : File := mkFile (Some "Rock") None None None None.
Definition unknownGenre : File := mkFile (Some "Unknown") None None None None.
Definition noGenre : File := mkFile None (Some "Someone") None None None.
Definition emptyGenre : File := mkFile (Some EmptyString) None None None None.
Definition jazzOrUnknown : File :=
  mkFile (Some "Jazz | unKnown ") None None None None.

Definition released1998 : File :=
  mkFile (Some "Rock") None None (Some "Released 1998-04-01") None.
Definition modified2001 : File :=
  mkFile (Some "Rock") None None (Some "n/a") (Some 1000000000%Z).
Definition epochFile : File := mkFile (Some "Rock") None None None (Some 0%Z).
(** A file last modified in the first second of the year 0. *)
Definition yearZeroFile : File :=
  mkFile (Some "Rock") None None None (Some (- 62167219200)%Z).
Definition rock300 : File := mkFile (Some "Rock") (Some "A") (Some 300%Q) None None.
Definition byArtist (a : string) : File :=
  mkFile (Some "Rock") (Some a) None None None.
Definition constructorFile : File := byArtist "constructor".

(** Statistics that hold the global duration bins and nothing else. *)
Definition statsGlobalBinsOnly : Stats :=
  mkStats None None None None None (Some [("2-4m", VNum 7)]) None None None None None.

Definition sampleSummary : Summary := mkSummary 3 3 0 1 1.

(** Statistics with every key that app.js reads. *)
Definition statsComplete : Stats :=
  mkStats (Some sampleSummary) (Some 300%Q)
          (Some [("Rock", 3)]) (Some [("A", 3)]) (Some [("Rock", [("A", 3)])])
          (Some [("4-6m", VNum 3)]) (Some (mkPercentiles None None None None))
          (Some [("Rock", [("4-6m", VNum 3)])])
          (Some [("Rock", Some (mkPercentiles None None None None))])
          (Some [("Rock", 1%Q)]) (Some [("Rock", 3)]).

(** The same without [genre_counts], and without [top_genres]. *)
Definition statsWithoutGenreCounts : Stats :=
  mkStats (summary statsComplete) (durations statsComplete)
          None (artist_counts statsComplete)
          (top_artists_per_genre statsComplete) (duration_bins statsComplete)
          (duration_percentiles statsComplete)
          (per_genre_duration_bins statsComplete)
          (per_genre_duration_stats statsComplete)
          (genre_percentages statsComplete) (top_genres statsComplete).

Definition statsWithoutTopGenres : Stats :=
  mkStats (summary statsComplete) (durations statsComplete)
          (genre_counts statsComplete) (artist_counts statsComplete)
          (top_artists_per_genre statsComplete) (duration_bins statsComplete)
          (duration_percentiles statsComplete)
          (per_genre_duration_bins statsComplete)
          (per_genre_duration_stats statsComplete)
          (genre_percentages statsComplete) None.

Definition threeRockFiles : list File := [rock300; rock300; rock300].

(** Five files by A, five by B and three by C, interleaved. *)
Definition filesABC : list File :=
  map byArtist ["C"; "A"; "B"; "A"; "B"; "C"; "A"; "B"; "A"; "B"; "C"; "A"; "B"].
(** ** Strings: basic facts *)

Lemma append_empty_r (s : string) : (s ++ EmptyString)%string = s.
Proof. induction s as [|c s IH]; simpl; [reflexivity | now rewrite IH]. Qed.

Lemma append_assoc (a b c : string) :
  ((a ++ b) ++ c)%string = (a ++ (b ++ c))%string.
Proof. induction a as [|x a IH]; simpl; [reflexivity | now rewrite IH]. Qed.

Lemma truthyString_true (s : string) : truthyString s = true <-> s <> EmptyString.
Proof. destruct s; simpl; split; congruence. Qed.

Lemma code_inj (a b : ascii) : code a = code b -> a = b.
Proof.
  unfold code. intros H.
  rewrite <- (ascii_N_embedding a), <- (ascii_N_embedding b). now rewrite H.
Qed.

Ltac each_ascii c :=
  destruct c as [[] [] [] [] [] [] [] []].

Lemma toLowerChar_not_upper (c : ascii) : isUpper (toLowerChar c) = false.
Proof. each_ascii c; reflexivity. Qed.

Lemma toLowerChar_code (c : ascii) :
  isUpper c = true -> code (toLowerChar c) = (code c + 32)%N.
Proof. each_ascii c; simpl; intros H; try discriminate H; reflexivity. Qed.

Lemma toLowerChar_fixed (c : ascii) : isUpper c = false -> toLowerChar c = c.
Proof. unfold toLowerChar. now intros ->. Qed.

Lemma toLowerChar_idem (c : ascii) : toLowerChar (toLowerChar c) = toLowerChar c.
Proof. apply toLowerChar_fixed, toLowerChar_not_upper. Qed.

(** The capitals are the code units that [toLowerChar] moves, and it
    moves each to its small letter. *)
Lemma CapitalOf_toLowerChar (a b : ascii) :
  CapitalOf a b <-> isUpper a = true /\ b = toLowerChar a.
Proof.
  assert (Hrange : isUpper a = true
                   <-> ((65 <= N_of_ascii a <= 90)%N
                        \/ ((192 <= N_of_ascii a <= 222)%N /\ N_of_ascii a <> 215%N))).
  { unfold isUpper, code.
    rewrite orb_true_iff, !andb_true_iff, !N.leb_le, negb_true_iff, N.eqb_neq.
    tauto. }
  unfold CapitalOf. rewrite <- Hrange. split.
  - intros [Hb Hup]. split; [exact Hup|].
    apply code_inj. rewrite toLowerChar_code by exact Hup. exact Hb.
  - intros [Hup ->]. split; [|exact Hup].
    exact (toLowerChar_code a Hup).
Qed.

Lemma SameLetter_tests (a b : ascii) :
  SameLetter a b
  <-> a = b \/ (isUpper a = true /\ b = toLowerChar a)
            \/ (isUpper b = true /\ a = toLowerChar b).
Proof. unfold SameLetter. now rewrite !CapitalOf_toLowerChar. Qed.

(** Lower-casing identifies exactly the letters that differ by case. *)
Lemma toLowerChar_eq (a b : ascii) :
  toLowerChar a = toLowerChar b <-> SameLetter a b.
Proof.
  split.
  - intros H.
    destruct (isUpper a) eqn:Ea, (isUpper b) eqn:Eb; apply SameLetter_tests.
    + left. apply code_inj.
      apply (f_equal code) in H.
      rewrite !toLowerChar_code in H by assumption. lia.
    + right; left. split; [assumption|].
      now rewrite H, (toLowerChar_fixed b).
    + right; right. split; [assumption|].
      now rewrite <- H, (toLowerChar_fixed a).
    + left. now rewrite (toLowerChar_fixed a), (toLowerChar_fixed b) in H.
  - intros Hs. apply SameLetter_tests in Hs.
    destruct Hs as [->|[[_ ->]|[_ ->]]]; now rewrite ?toLowerChar_idem.
Qed.

Lemma toLowerCase_eq (s t : string) :
  toLowerCase s = toLowerCase t <-> EqIgnoreCase s t.
Proof.
  split.
  - revert t. induction s as [|a s IH]; intros [|b t] H; simpl in H;
      try discriminate H.
    + constructor.
    + injection H as Hc Hs. constructor; [now apply toLowerChar_eq | now apply IH].
  - induction 1 as [|a b s t Hab _ IH]; simpl; [reflexivity|].
    apply toLowerChar_eq in Hab. now rewrite Hab, IH.
Qed.

Lemma toLowerCase_eqb (s t : string) :
  (toLowerCase s =? toLowerCase t)%string = true <-> EqIgnoreCase s t.
Proof. rewrite String.eqb_eq. apply toLowerCase_eq. Qed.

Lemma toLowerCase_unknown_eqb (s : string) :
  (toLowerCase s =? "unknown")%string = true <-> EqIgnoreCase s "unknown".
Proof. exact (toLowerCase_eqb s "unknown"). Qed.

(** ** The tests of the program against the words of the specification *)

Lemma isDelim_Separator (c : ascii) : isDelim c = true <-> Separator c.
Proof.
  unfold isDelim, Separator. rewrite !orb_true_iff, !Ascii.eqb_eq. tauto.
Qed.

Lemma isWhiteSpace_WhiteSpace (c : ascii) : isWhiteSpace c = true <-> WhiteSpace c.
Proof.
  unfold isWhiteSpace, WhiteSpace, code. cbn [In].
  rewrite !orb_true_iff, andb_true_iff, !N.leb_le, !N.eqb_eq. lia.
Qed.

Lemma Throughout_empty (P : ascii -> Prop) : Throughout P EmptyString.
Proof. intros [|x a] c b H; discriminate H. Qed.

Lemma Throughout_cons (P : ascii -> Prop) (c : ascii) (s : string) :
  Throughout P (String c s) <-> P c /\ Throughout P s.
Proof.
  split.
  - intros H. split.
    + exact (H EmptyString c s eq_refl).
    + intros a c' b ->. exact (H (String c a) c' b eq_refl).
  - intros [Hc Hs] [|x a] c' b Heq; simpl in Heq; injection Heq as -> Heq.
    + exact Hc.
    + exact (Hs a c' b Heq).
Qed.

Lemma StartsWith_cons (P : ascii -> Prop) (c : ascii) (s : string) :
  StartsWith P (String c s) <-> P c.
Proof.
  split.
  - intros (c' & t & [= -> _] & H). exact H.
  - intros H. now exists c, s.
Qed.

Lemma StartsWith_empty (P : ascii -> Prop) : ~ StartsWith P EmptyString.
Proof. intros (c & t & H & _). discriminate H. Qed.

Lemma EndsWith_empty (P : ascii -> Prop) : ~ EndsWith P EmptyString.
Proof. intros ([|x t] & c & H & _); discriminate H. Qed.

Lemma EndsWith_single (P : ascii -> Prop) (c : ascii) :
  EndsWith P (String c EmptyString) <-> P c.
Proof.
  split.
  - intros ([|x t] & c' & Heq & H); simpl in Heq.
    + now injection Heq as ->.
    + injection Heq as _ Heq. destruct t; discriminate Heq.
  - intros H. now exists EmptyString, c.
Qed.

Lemma EndsWith_cons (P : ascii -> Prop) (c : ascii) (s : string) :
  s <> EmptyString -> (EndsWith P (String c s) <-> EndsWith P s).
Proof.
  intros Hne. split.
  - intros ([|x t] & c' & Heq & H); simpl in Heq; injection Heq as -> Heq.
    + now elim Hne.
    + now exists t, c'.
  - intros (t & c' & -> & H). now exists (String c t), c'.
Qed.

Lemma noDelim_Throughout (s : string) :
  noDelim s = true <-> Throughout (fun c => ~ Separator c) s.
Proof.
  induction s as [|c s IH]; simpl.
  - split; [intros _; apply Throughout_empty | reflexivity].
  - rewrite Throughout_cons, andb_true_iff, negb_true_iff, IH,
      <- isDelim_Separator, not_true_iff_false. reflexivity.
Qed.

Lemma allWhite_Throughout (s : string) :
  allWhite s = true <-> Throughout WhiteSpace s.
Proof.
  induction s as [|c s IH]; simpl.
  - split; [intros _; apply Throughout_empty | reflexivity].
  - now rewrite Throughout_cons, andb_true_iff, IH, isWhiteSpace_WhiteSpace.
Qed.

Lemma startsWithDelim_StartsWith (s : string) :
  startsWithDelim s = true <-> StartsWith Separator s.
Proof.
  destruct s as [|c s]; simpl.
  - split; [discriminate | intros H; now apply StartsWith_empty in H].
  - now rewrite StartsWith_cons, isDelim_Separator.
Qed.

Lemma startsWithWhite_StartsWith (s : string) :
  startsWithWhite s = true <-> StartsWith WhiteSpace s.
Proof.
  destruct s as [|c s]; simpl.
  - split; [discriminate | intros H; now apply StartsWith_empty in H].
  - now rewrite StartsWith_cons, isWhiteSpace_WhiteSpace.
Qed.

Lemma endsWithDelim_EndsWith (s : string) :
  endsWithDelim s = true <-> EndsWith Separator s.
Proof.
  induction s as [|c s IH].
  - split; [discriminate | intros H; now apply EndsWith_empty in H].
  - destruct s as [|c' s'].
    + simpl. now rewrite EndsWith_single, isDelim_Separator.
    + rewrite EndsWith_cons by discriminate. exact IH.
Qed.

Lemma endsWithWhite_EndsWith (s : string) :
  endsWithWhite s = true <-> EndsWith WhiteSpace s.
Proof.
  induction s as [|c s IH].
  - split; [discriminate | intros H; now apply EndsWith_empty in H].
  - destruct s as [|c' s'].
    + simpl. now rewrite EndsWith_single, isWhiteSpace_WhiteSpace.
    + rewrite EndsWith_cons by discriminate. exact IH.
Qed.

Lemma Segment_tests (s p : string) :
  Segment s p
  <-> exists pre post,
        s = (pre ++ p ++ post)%string /\ noDelim p = true
        /\ (pre = EmptyString \/ endsWithDelim pre = true)
        /\ (post = EmptyString \/ startsWithDelim post = true).
Proof.
  unfold Segment. split; intros (pre & post & Heq & Hp & Hpre & Hpost);
    exists pre, post; (split; [exact Heq|]).
  - rewrite noDelim_Throughout, endsWithDelim_EndsWith, startsWithDelim_StartsWith.
    auto.
  - rewrite noDelim_Throughout, endsWithDelim_EndsWith, startsWithDelim_StartsWith
      in *. auto.
Qed.

(** ** [trim] removes exactly the white space at both ends *)

Lemma trimStart_spec (s : string) :
  exists l, s = (l ++ trimStart s)%string /\ allWhite l = true
            /\ startsWithWhite (trimStart s) = false.
Proof.
  induction s as [|c s (l & Heq & Hl & Hs)]; simpl.
  - now exists EmptyString.
  - destruct (isWhiteSpace c) eqn:Ec.
    + exists (String c l). simpl. rewrite Ec, Hl, <- Heq. repeat split; auto.
    + exists EmptyString. simpl. repeat split; auto.
Qed.

Lemma trimEnd_spec (s : string) :
  exists r, s = (trimEnd s ++ r)%string /\ allWhite r = true
            /\ endsWithWhite (trimEnd s) = false.
Proof.
  induction s as [|c s (r & Heq & Hr & He)]; simpl.
  - now exists EmptyString.
  - destruct (trimEnd s) as [|c' t] eqn:Et.
    + destruct (isWhiteSpace c) eqn:Ec.
      * exists (String c r). simpl in *. rewrite Ec, Hr, <- Heq. repeat split; auto.
      * exists r. simpl in *. repeat split; congruence.
    + exists r. simpl in *. rewrite <- Heq. repeat split; auto.
Qed.

Lemma trimEnd_start (s : string) :
  startsWithWhite s = false -> startsWithWhite (trimEnd s) = false.
Proof.
  destruct s as [|c s]; simpl; [trivial|]. intros Hc.
  destruct (trimEnd s); [now rewrite Hc | exact Hc].
Qed.

(** The contract of [String.prototype.trim]. *)
Lemma trim_spec (s : string) :
  exists l r,
    s = (l ++ trim s ++ r)%string /\ allWhite l = true /\ allWhite r = true
    /\ startsWithWhite (trim s) = false /\ endsWithWhite (trim s) = false.
Proof.
  unfold trim.
  destruct (trimStart_spec s) as (l & Hs & Hl & Hstart).
  destruct (trimEnd_spec (trimStart s)) as (r & Ht & Hr & Hend).
  exists l, r. rewrite <- Ht. repeat split; auto using trimEnd_start.
Qed.

Lemma trimStart_white (l x : string) :
  allWhite l = true -> trimStart (l ++ x) = trimStart x.
Proof.
  induction l as [|c l IH]; simpl; [reflexivity|].
  intros H. apply andb_prop in H as [Hc Hl]. rewrite Hc. now apply IH.
Qed.

Lemma trimStart_fixed (x : string) : startsWithWhite x = false -> trimStart x = x.
Proof. destruct x as [|c x]; simpl; [reflexivity | now intros ->]. Qed.

Lemma trimStart_all_white (r : string) : allWhite r = true -> trimStart r = EmptyString.
Proof.
  intros H. rewrite <- (append_empty_r r). now rewrite trimStart_white.
Qed.

Lemma trimEnd_all_white (r : string) : allWhite r = true -> trimEnd r = EmptyString.
Proof.
  induction r as [|c r IH]; simpl; [reflexivity|].
  intros H. apply andb_prop in H as [Hc Hr]. now rewrite (IH Hr), Hc.
Qed.

Lemma trimEnd_white (p r : string) :
  allWhite r = true -> trimEnd (p ++ r) = trimEnd p.
Proof.
  intros Hr. induction p as [|c p IH]; simpl.
  - now apply trimEnd_all_white.
  - now rewrite IH.
Qed.

Lemma trimEnd_fixed (p : string) : endsWithWhite p = false -> trimEnd p = p.
Proof.
  induction p as [|c p IH]; [reflexivity|].
  destruct p as [|c' p'].
  - simpl. now intros ->.
  - intros H. specialize (IH H).
    change (trimEnd (String c (String c' p')))
      with (match trimEnd (String c' p') with
            | EmptyString =>
                if isWhiteSpace c then EmptyString else String c EmptyString
            | String x t => String c (String x t)
            end).
    now rewrite IH.
Qed.

(** [trim q] is the one string that [q] trims to. *)
Lemma Trimmed_trim (q p : string) : Trimmed q p <-> p = trim q.
Proof.
  split.
  - intros (l & r & -> & Hl & Hr & Hstart & Hend).
    apply allWhite_Throughout in Hl, Hr.
    rewrite <- startsWithWhite_StartsWith, not_true_iff_false in Hstart.
    rewrite <- endsWithWhite_EndsWith, not_true_iff_false in Hend.
    unfold trim. rewrite trimStart_white by exact Hl.
    destruct p as [|c p].
    + simpl. now rewrite trimStart_all_white.
    + rewrite trimStart_fixed by exact Hstart.
      rewrite trimEnd_white by exact Hr. now rewrite trimEnd_fixed.
  - intros ->. destruct (trim_spec q) as (l & r & Heq & Hl & Hr & Hstart & Hend).
    exists l, r. split; [exact Heq|].
    rewrite <- !allWhite_Throughout, <- startsWithWhite_StartsWith,
      <- endsWithWhite_EndsWith, !not_true_iff_false. auto.
Qed.

(** ** [split] cuts a string into its segments *)

Lemma endsWithDelim_cons (c : ascii) (s : string) :
  endsWithDelim s = true -> endsWithDelim (String c s) = true.
Proof. destruct s; simpl; [discriminate | trivial]. Qed.

Lemma noDelim_starts (s post : string) :
  noDelim s = true -> s <> EmptyString -> startsWithDelim (s ++ post) = false.
Proof.
  destruct s as [|c s]; simpl; [congruence|].
  intros H _. apply andb_prop in H as [H _]. now apply negb_true_iff.
Qed.

Lemma split_starts_with_delim (s : string) :
  startsWithDelim s = true -> exists t, split s = EmptyString :: t.
Proof.
  induction s as [|c s IH]; simpl; [discriminate|].
  intros ->. destruct (startsWithDelim s); eauto.
Qed.

(** The first piece is the longest separator-free prefix. *)
Lemma split_first (s : string) :
  exists h t post,
    split s = h :: t /\ s = (h ++ post)%string /\ noDelim h = true
    /\ (post = EmptyString \/ startsWithDelim post = true).
Proof.
  induction s as [|c s (h & t & post & Hs & Heq & Hh & Hpost)]; simpl.
  - exists EmptyString, [], EmptyString. auto.
  - destruct (isDelim c) eqn:Ec.
    + destruct (startsWithDelim s) eqn:Es.
      * destruct (split_starts_with_delim s Es) as [t' Ht'].
        exists EmptyString, t', (String c s). rewrite Ht'. simpl. auto 8.
      * exists EmptyString, (split s), (String c s). simpl. auto 8.
    + rewrite Hs. exists (String c h), t, post. simpl.
      rewrite Ec, Hh, <- Heq. auto 8.
Qed.

(** Every later piece starts right after a separator. *)
Lemma split_later (s q : string) :
  In q (tl (split s)) ->
  exists pre post,
    s = (pre ++ q ++ post)%string /\ noDelim q = true
    /\ endsWithDelim pre = true
    /\ (post = EmptyString \/ startsWithDelim post = true).
Proof.
  revert q. induction s as [|c s IH]; intros q; simpl; [contradiction|].
  assert (Hlift : In q (tl (split s)) ->
    exists pre post,
      String c s = (pre ++ q ++ post)%string /\ noDelim q = true
      /\ endsWithDelim pre = true
      /\ (post = EmptyString \/ startsWithDelim post = true)).
  { intros Hq. destruct (IH q Hq) as (pre & post & Heq & Hn & He & Hp).
    exists (String c pre), post. simpl (_ ++ _)%string. rewrite <- Heq.
    auto 8 using endsWithDelim_cons. }
  destruct (isDelim c) eqn:Ec.
  - destruct (startsWithDelim s) eqn:Es; [exact Hlift|].
    simpl. intros Hq.
    destruct (split_first s) as (h & t & post & Hs & Heq & Hh & Hpost).
    rewrite Hs in Hq, Hlift. destruct Hq as [<-|Hq]; [|now apply Hlift].
    exists (String c EmptyString), post. simpl. rewrite <- Heq. auto 8.
  - destruct (split s) as [|h t]; simpl; [contradiction | exact Hlift].
Qed.

Lemma split_prefix (q post : string) :
  noDelim q = true -> (post = EmptyString \/ startsWithDelim post = true) ->
  exists t, split (q ++ post) = q :: t.
Proof.
  intros Hq Hpost. induction q as [|c q IH]; simpl in *.
  - destruct Hpost as [->|Hpost]; [now exists []|].
    now apply split_starts_with_delim.
  - apply andb_prop in Hq as [Hc Hq]. apply negb_true_iff in Hc. rewrite Hc.
    destruct (IH Hq) as [t ->]. eauto.
Qed.

Lemma split_inner (pre q post : string) :
  endsWithDelim pre = true -> noDelim q = true -> q <> EmptyString ->
  (post = EmptyString \/ startsWithDelim post = true) ->
  In q (tl (split (pre ++ q ++ post))).
Proof.
  intros Hpre Hq Hne Hpost.
  induction pre as [|c pre IH]; [discriminate|].
  destruct pre as [|c' pre'].
  - simpl in Hpre. simpl. rewrite Hpre, (noDelim_starts q post Hq Hne).
    destruct (split_prefix q post Hq Hpost) as [t ->]. simpl. auto.
  - specialize (IH Hpre).
    change (String c (String c' pre') ++ q ++ post)%string
      with (String c (String c' pre' ++ q ++ post)).
    remember (String c' pre' ++ q ++ post)%string as s eqn:Hs. clear Hs.
    cbn [split]. destruct (isDelim c).
    + destruct (startsWithDelim s); [exact IH|].
      destruct (split s); simpl in *; [contradiction | auto].
    + destruct (split s); simpl in *; [contradiction | exact IH].
Qed.

Lemma split_Segment (s q : string) :
  q <> EmptyString -> In q (split s) <-> Segment s q.
Proof.
  intros Hne. rewrite Segment_tests. split.
  - intros Hin.
    destruct (split_first s) as (h & t & post & Hs & Heq & Hh & Hpost).
    pose proof (split_later s q) as Hlater. rewrite Hs in Hin, Hlater.
    destruct Hin as [<-|Hin].
    + exists EmptyString, post. simpl. auto 8.
    + destruct (Hlater Hin) as (pre & post' & H1 & H2 & H3 & H4).
      exists pre, post'. auto 8.
  - intros (pre & post & -> & Hq & [->|Hpre] & Hpost).
    + simpl. destruct (split_prefix q post Hq Hpost) as [t ->]. simpl. auto.
    + pose proof (split_inner pre q post Hpre Hq Hne Hpost) as Hin.
      destruct (split (pre ++ q ++ post)); simpl in *; [contradiction | auto].
Qed.

Lemma Segment_empty (q : string) : Segment EmptyString q -> q = EmptyString.
Proof.
  intros (pre & post & Heq & _). destruct pre; [|discriminate Heq].
  destruct q; [reflexivity | discriminate Heq].
Qed.

(** The parts that the code compares are the trimmed, non-empty
    segments of the genre text. *)
Lemma genreParts_spec (fg p : string) :
  In p (genreParts fg) <->
  exists q, Segment fg q /\ Trimmed q p /\ p <> EmptyString.
Proof.
  unfold genreParts. rewrite filter_In, in_map_iff, truthyString_true. split.
  - intros [(q & <- & Hin) Hne]. exists q.
    split; [|split; [now apply Trimmed_trim | assumption]].
    apply split_Segment; [|assumption]. intros ->. now apply Hne.
  - intros (q & Hseg & Ht & Hne). apply Trimmed_trim in Ht. subst p.
    split; [|assumption].
    exists q. split; [reflexivity|]. apply split_Segment; [|assumption].
    intros ->. now apply Hne.
Qed.

Lemma GenrePart_parts (f : File) (fg p : string) :
  genre f = Some fg -> (GenrePart f p <-> In p (genreParts fg)).
Proof.
  intros Hg. rewrite genreParts_spec. unfold GenrePart. split.
  - intros (fg' & q & Hg' & H). rewrite Hg in Hg'. injection Hg' as <-. eauto.
  - intros (q & H). eauto.
Qed.

Lemma genreParts_empty : genreParts EmptyString = [].
Proof. reflexivity. Qed.

(** ** The two filters against the vocabulary of the specification *)

Lemma fileHasGenre_Matches (f : File) (g : string) :
  fileHasGenre (Some f) g = true <-> Matches f g.
Proof.
  unfold fileHasGenre, Matches. destruct (genre f) as [fg|] eqn:Hg.
  - destruct fg as [|c fg'] eqn:Hfg; simpl negb; cbv iota.
    + split; [discriminate|].
      intros (p & Hp & _). apply (GenrePart_parts f _ p Hg) in Hp.
      now rewrite genreParts_empty in Hp.
    + rewrite <- Hfg in *. clear Hfg. rewrite existsb_exists. split.
      * intros (p & Hin & Heq). exists p. split.
        -- now apply (GenrePart_parts f fg p Hg).
        -- now apply toLowerCase_eqb.
      * intros (p & Hp & Heq). exists p. split.
        -- now apply (GenrePart_parts f fg p Hg).
        -- now apply toLowerCase_eqb.
  - split; [discriminate|].
    intros (p & (fg & q & Hg' & _) & _). congruence.
Qed.

Lemma excludeUnknown_KnownGenre (f : File) :
  excludeUnknown f = true <-> KnownGenre f.
Proof.
  unfold excludeUnknown, KnownGenre. destruct (genre f) as [fg|] eqn:Hg.
  - destruct fg as [|c fg'] eqn:Hfg; simpl negb; cbv iota.
    + split; [discriminate|]. intros [(fg0 & Heq & Hne) _]. congruence.
    + rewrite <- Hfg in *. rewrite negb_true_iff. split.
      * intros Hex. split; [exists fg; split; congruence|].
        intros p Hp Heq. apply (GenrePart_parts f fg p Hg) in Hp.
        apply toLowerCase_unknown_eqb in Heq.
        assert (existsb (fun p => (toLowerCase p =? "unknown")%string)
                        (genreParts fg) = true) by (apply existsb_exists; eauto).
        congruence.
      * intros [_ Hnone].
        destruct (existsb _ (genreParts fg)) eqn:Hex; [|reflexivity].
        apply existsb_exists in Hex as (p & Hin & Heq).
        exfalso. apply (Hnone p).
        -- now apply (GenrePart_parts f fg p Hg).
        -- now apply toLowerCase_unknown_eqb.
  - split; [discriminate|]. intros [(fg0 & Heq & _) _]. discriminate Heq.
Qed.

Lemma Selects_filter {A : Type} (P : A -> Prop) (b : A -> bool) (l : list A) :
  (forall x, b x = true <-> P x) -> Selects P l (filter b l).
Proof.
  intros Hb. induction l as [|x l IH]; simpl; [constructor|].
  destruct (b x) eqn:Ex.
  - apply selects_keep; [now apply Hb | exact IH].
  - apply selects_drop; [|exact IH]. intros HP. apply Hb in HP. congruence.
Qed.

(** [Selects] determines its result. *)
Lemma Selects_unique {A : Type} (P : A -> Prop) (l r1 r2 : list A) :
  Selects P l r1 -> Selects P l r2 -> r1 = r2.
Proof.
  intros H1. revert r2. induction H1; intros r2 H2; inversion H2; subst;
    try contradiction; [reflexivity | f_equal; auto | auto].
Qed.

Lemma Selects_In {A : Type} (P : A -> Prop) (l r : list A) (x : A) :
  Selects P l r -> (In x r <-> In x l /\ P x).
Proof.
  induction 1 as [|y l r Hy _ IH|y l r Hy _ IH]; simpl.
  - tauto.
  - rewrite IH. split; [intros [<-|[? ?]]; auto | intros [[<-|?] ?]; auto].
  - rewrite IH. split; [intros [? ?]; auto | intros [[<-|?] ?]; tauto].
Qed.

(** ** The Genre Matcher on texts of any code units *)

Lemma isDelim_Separator_wide (c : N) :
  Utf16.isDelim c = true <-> Utf16.Separator c.
Proof.
  unfold Utf16.isDelim, Utf16.Separator.
  change (N_of_ascii ",") with 44%N. change (N_of_ascii ";") with 59%N.
  change (N_of_ascii "/") with 47%N. change (N_of_ascii "|") with 124%N.
  rewrite !orb_true_iff, !N.eqb_eq. tauto.
Qed.

Lemma isWhiteSpace_WhiteSpace_wide (c : N) :
  Utf16.isWhiteSpace c = true <-> Utf16.WhiteSpace c.
Proof.
  unfold Utf16.isWhiteSpace, Utf16.WhiteSpace. cbn [In].
  rewrite !orb_true_iff, !andb_true_iff, !N.leb_le, !N.eqb_eq. lia.
Qed.

Lemma StartsWith_cons_wide (P : N -> Prop) (c : N) (s : Utf16.Text) :
  Utf16.StartsWith P (c :: s) <-> P c.
Proof.
  split.
  - intros (c' & t & [= -> _] & H). exact H.
  - intros H. now exists c, s.
Qed.

Lemma StartsWith_empty_wide (P : N -> Prop) : ~ Utf16.StartsWith P [].
Proof. intros (c & t & H & _). discriminate H. Qed.

Lemma EndsWith_empty_wide (P : N -> Prop) : ~ Utf16.EndsWith P [].
Proof. intros ([|x t] & c & H & _); discriminate H. Qed.

Lemma EndsWith_single_wide (P : N -> Prop) (c : N) :
  Utf16.EndsWith P [c] <-> P c.
Proof.
  split.
  - intros ([|x t] & c' & Heq & H); simpl in Heq.
    + now injection Heq as ->.
    + injection Heq as _ Heq. destruct t; discriminate Heq.
  - intros H. now exists [], c.
Qed.

Lemma EndsWith_cons_wide (P : N -> Prop) (c : N) (s : Utf16.Text) :
  s <> [] -> (Utf16.EndsWith P (c :: s) <-> Utf16.EndsWith P s).
Proof.
  intros Hne. split.
  - intros ([|x t] & c' & Heq & H); simpl in Heq; injection Heq as -> Heq.
    + now elim Hne.
    + now exists t, c'.
  - intros (t & c' & -> & H). now exists (c :: t), c'.
Qed.

Lemma noDelim_Forall_wide (s : Utf16.Text) :
  Utf16.noDelim s = true <-> Forall (fun c => ~ Utf16.Separator c) s.
Proof.
  induction s as [|c s IH]; simpl.
  - split; [constructor | reflexivity].
  - rewrite Forall_cons_iff, andb_true_iff, negb_true_iff, IH,
      <- isDelim_Separator_wide, not_true_iff_false. reflexivity.
Qed.

Lemma allWhite_Forall_wide (s : Utf16.Text) :
  Utf16.allWhite s = true <-> Forall Utf16.WhiteSpace s.
Proof.
  induction s as [|c s IH]; simpl.
  - split; [constructor | reflexivity].
  - now rewrite Forall_cons_iff, andb_true_iff, IH, isWhiteSpace_WhiteSpace_wide.
Qed.

Lemma startsWithDelim_StartsWith_wide (s : Utf16.Text) :
  Utf16.startsWithDelim s = true <-> Utf16.StartsWith Utf16.Separator s.
Proof.
  destruct s as [|c s]; simpl.
  - split; [discriminate | intros H; now apply StartsWith_empty_wide in H].
  - now rewrite StartsWith_cons_wide, isDelim_Separator_wide.
Qed.

Lemma startsWithWhite_StartsWith_wide (s : Utf16.Text) :
  Utf16.startsWithWhite s = true <-> Utf16.StartsWith Utf16.WhiteSpace s.
Proof.
  destruct s as [|c s]; simpl.
  - split; [discriminate | intros H; now apply StartsWith_empty_wide in H].
  - now rewrite StartsWith_cons_wide, isWhiteSpace_WhiteSpace_wide.
Qed.

Lemma endsWithDelim_EndsWith_wide (s : Utf16.Text) :
  Utf16.endsWithDelim s = true <-> Utf16.EndsWith Utf16.Separator s.
Proof.
  induction s as [|c s IH].
  - split; [discriminate | intros H; now apply EndsWith_empty_wide in H].
  - destruct s as [|c' s'].
    + simpl. now rewrite EndsWith_single_wide, isDelim_Separator_wide.
    + rewrite EndsWith_cons_wide by discriminate. exact IH.
Qed.

Lemma endsWithWhite_EndsWith_wide (s : Utf16.Text) :
  Utf16.endsWithWhite s = true <-> Utf16.EndsWith Utf16.WhiteSpace s.
Proof.
  induction s as [|c s IH].
  - split; [discriminate | intros H; now apply EndsWith_empty_wide in H].
  - destruct s as [|c' s'].
    + simpl. now rewrite EndsWith_single_wide, isWhiteSpace_WhiteSpace_wide.
    + rewrite EndsWith_cons_wide by discriminate. exact IH.
Qed.

Lemma Segment_tests_wide (s p : Utf16.Text) :
  Utf16.Segment s p
  <-> exists pre post,
        s = pre ++ p ++ post /\ Utf16.noDelim p = true
        /\ (pre = [] \/ Utf16.endsWithDelim pre = true)
        /\ (post = [] \/ Utf16.startsWithDelim post = true).
Proof.
  unfold Utf16.Segment. split; intros (pre & post & Heq & Hp & Hpre & Hpost);
    exists pre, post; (split; [exact Heq|]).
  - rewrite noDelim_Forall_wide, endsWithDelim_EndsWith_wide,
      startsWithDelim_StartsWith_wide. auto.
  - rewrite noDelim_Forall_wide, endsWithDelim_EndsWith_wide,
      startsWithDelim_StartsWith_wide in *. auto.
Qed.

(** *** [trim] *)

Lemma trimStart_spec_wide (s : Utf16.Text) :
  exists l, s = l ++ Utf16.trimStart s /\ Utf16.allWhite l = true
            /\ Utf16.startsWithWhite (Utf16.trimStart s) = false.
Proof.
  induction s as [|c s (l & Heq & Hl & Hs)]; simpl.
  - now exists [].
  - destruct (Utf16.isWhiteSpace c) eqn:Ec.
    + exists (c :: l). simpl. rewrite Ec, Hl, <- Heq. repeat split; auto.
    + exists []. simpl. repeat split; auto.
Qed.

Lemma trimEnd_spec_wide (s : Utf16.Text) :
  exists r, s = Utf16.trimEnd s ++ r /\ Utf16.allWhite r = true
            /\ Utf16.endsWithWhite (Utf16.trimEnd s) = false.
Proof.
  induction s as [|c s (r & Heq & Hr & He)]; simpl.
  - now exists [].
  - destruct (Utf16.trimEnd s) as [|c' t] eqn:Et.
    + destruct (Utf16.isWhiteSpace c) eqn:Ec.
      * exists (c :: r). simpl in *. rewrite Ec, Hr, <- Heq. repeat split; auto.
      * exists r. simpl in *. repeat split; congruence.
    + exists r. simpl in *. rewrite <- Heq. repeat split; auto.
Qed.

Lemma trimEnd_start_wide (s : Utf16.Text) :
  Utf16.startsWithWhite s = false ->
  Utf16.startsWithWhite (Utf16.trimEnd s) = false.
Proof.
  destruct s as [|c s]; simpl; [trivial|]. intros Hc.
  destruct (Utf16.trimEnd s); [now rewrite Hc | exact Hc].
Qed.

Lemma trim_spec_wide (s : Utf16.Text) :
  exists l r,
    s = l ++ Utf16.trim s ++ r
    /\ Utf16.allWhite l = true /\ Utf16.allWhite r = true
    /\ Utf16.startsWithWhite (Utf16.trim s) = false
    /\ Utf16.endsWithWhite (Utf16.trim s) = false.
Proof.
  unfold Utf16.trim.
  destruct (trimStart_spec_wide s) as (l & Hs & Hl & Hstart).
  destruct (trimEnd_spec_wide (Utf16.trimStart s)) as (r & Ht & Hr & Hend).
  exists l, r. rewrite <- Ht. repeat split; auto using trimEnd_start_wide.
Qed.

Lemma trimStart_white_wide (l x : Utf16.Text) :
  Utf16.allWhite l = true -> Utf16.trimStart (l ++ x) = Utf16.trimStart x.
Proof.
  induction l as [|c l IH]; simpl; [reflexivity|].
  intros H. apply andb_prop in H as [Hc Hl]. rewrite Hc. now apply IH.
Qed.

Lemma trimStart_fixed_wide (x : Utf16.Text) :
  Utf16.startsWithWhite x = false -> Utf16.trimStart x = x.
Proof. destruct x as [|c x]; simpl; [reflexivity | now intros ->]. Qed.

Lemma trimStart_all_white_wide (r : Utf16.Text) :
  Utf16.allWhite r = true -> Utf16.trimStart r = [].
Proof.
  intros H. rewrite <- (app_nil_r r). now rewrite trimStart_white_wide.
Qed.

Lemma trimEnd_all_white_wide (r : Utf16.Text) :
  Utf16.allWhite r = true -> Utf16.trimEnd r = [].
Proof.
  induction r as [|c r IH]; simpl; [reflexivity|].
  intros H. apply andb_prop in H as [Hc Hr]. now rewrite (IH Hr), Hc.
Qed.

Lemma trimEnd_white_wide (p r : Utf16.Text) :
  Utf16.allWhite r = true -> Utf16.trimEnd (p ++ r) = Utf16.trimEnd p.
Proof.
  intros Hr. induction p as [|c p IH]; simpl.
  - now apply trimEnd_all_white_wide.
  - now rewrite IH.
Qed.

Lemma trimEnd_fixed_wide (p : Utf16.Text) :
  Utf16.endsWithWhite p = false -> Utf16.trimEnd p = p.
Proof.
  induction p as [|c p IH]; [reflexivity|].
  destruct p as [|c' p'].
  - simpl. now intros ->.
  - intros H. specialize (IH H).
    change (Utf16.trimEnd (c :: c' :: p'))
      with (match Utf16.trimEnd (c' :: p') with
            | [] => if Utf16.isWhiteSpace c then [] else [c]
            | x :: t => c :: x :: t
            end).
    now rewrite IH.
Qed.

(** [trim q] is the one text that [q] trims to. *)
Lemma Trimmed_trim_wide (q p : Utf16.Text) :
  Utf16.Trimmed q p <-> p = Utf16.trim q.
Proof.
  split.
  - intros (l & r & -> & Hl & Hr & Hstart & Hend).
    apply allWhite_Forall_wide in Hl, Hr.
    rewrite <- startsWithWhite_StartsWith_wide, not_true_iff_false in Hstart.
    rewrite <- endsWithWhite_EndsWith_wide, not_true_iff_false in Hend.
    unfold Utf16.trim. rewrite trimStart_white_wide by exact Hl.
    destruct p as [|c p].
    + simpl. now rewrite trimStart_all_white_wide.
    + rewrite trimStart_fixed_wide by exact Hstart.
      rewrite trimEnd_white_wide by exact Hr. now rewrite trimEnd_fixed_wide.
  - intros ->.
    destruct (trim_spec_wide q) as (l & r & Heq & Hl & Hr & Hstart & Hend).
    exists l, r. split; [exact Heq|].
    rewrite <- !allWhite_Forall_wide, <- startsWithWhite_StartsWith_wide,
      <- endsWithWhite_EndsWith_wide, !not_true_iff_false. auto.
Qed.

(** *** [split] *)

Lemma endsWithDelim_cons_wide (c : N) (s : Utf16.Text) :
  Utf16.endsWithDelim s = true -> Utf16.endsWithDelim (c :: s) = true.
Proof. destruct s; simpl; [discriminate | trivial]. Qed.

Lemma noDelim_starts_wide (s post : Utf16.Text) :
  Utf16.noDelim s = true -> s <> [] -> Utf16.startsWithDelim (s ++ post) = false.
Proof.
  destruct s as [|c s]; simpl; [congruence|].
  intros H _. apply andb_prop in H as [H _]. now apply negb_true_iff.
Qed.

Lemma split_starts_with_delim_wide (s : Utf16.Text) :
  Utf16.startsWithDelim s = true -> exists t, Utf16.split s = [] :: t.
Proof.
  induction s as [|c s IH]; simpl; [discriminate|].
  intros ->. destruct (Utf16.startsWithDelim s); eauto.
Qed.

Lemma split_first_wide (s : Utf16.Text) :
  exists h t post,
    Utf16.split s = h :: t /\ s = h ++ post /\ Utf16.noDelim h = true
    /\ (post = [] \/ Utf16.startsWithDelim post = true).
Proof.
  induction s as [|c s (h & t & post & Hs & Heq & Hh & Hpost)]; simpl.
  - exists [], [], []. auto.
  - destruct (Utf16.isDelim c) eqn:Ec.
    + destruct (Utf16.startsWithDelim s) eqn:Es.
      * destruct (split_starts_with_delim_wide s Es) as [t' Ht'].
        exists [], t', (c :: s). rewrite Ht'. simpl. auto 8.
      * exists [], (Utf16.split s), (c :: s). simpl. auto 8.
    + rewrite Hs. exists (c :: h), t, post. simpl.
      rewrite Ec, Hh, <- Heq. auto 8.
Qed.

Lemma split_later_wide (s q : Utf16.Text) :
  In q (tl (Utf16.split s)) ->
  exists pre post,
    s = pre ++ q ++ post /\ Utf16.noDelim q = true
    /\ Utf16.endsWithDelim pre = true
    /\ (post = [] \/ Utf16.startsWithDelim post = true).
Proof.
  revert q. induction s as [|c s IH]; intros q; simpl; [contradiction|].
  assert (Hlift : In q (tl (Utf16.split s)) ->
    exists pre post,
      c :: s = pre ++ q ++ post /\ Utf16.noDelim q = true
      /\ Utf16.endsWithDelim pre = true
      /\ (post = [] \/ Utf16.startsWithDelim post = true)).
  { intros Hq. destruct (IH q Hq) as (pre & post & Heq & Hn & He & Hp).
    exists (c :: pre), post. simpl (_ ++ _). rewrite <- Heq.
    auto 8 using endsWithDelim_cons_wide. }
  destruct (Utf16.isDelim c) eqn:Ec.
  - destruct (Utf16.startsWithDelim s) eqn:Es; [exact Hlift|].
    simpl. intros Hq.
    destruct (split_first_wide s) as (h & t & post & Hs & Heq & Hh & Hpost).
    rewrite Hs in Hq, Hlift. destruct Hq as [<-|Hq]; [|now apply Hlift].
    exists [c], post. simpl. rewrite <- Heq. auto 8.
  - destruct (Utf16.split s) as [|h t]; simpl; [contradiction | exact Hlift].
Qed.

Lemma split_prefix_wide (q post : Utf16.Text) :
  Utf16.noDelim q = true -> (post = [] \/ Utf16.startsWithDelim post = true) ->
  exists t, Utf16.split (q ++ post) = q :: t.
Proof.
  intros Hq Hpost. induction q as [|c q IH]; simpl in *.
  - destruct Hpost as [->|Hpost]; [now exists []|].
    now apply split_starts_with_delim_wide.
  - apply andb_prop in Hq as [Hc Hq]. apply negb_true_iff in Hc. rewrite Hc.
    destruct (IH Hq) as [t ->]. eauto.
Qed.

Lemma split_inner_wide (pre q post : Utf16.Text) :
  Utf16.endsWithDelim pre = true -> Utf16.noDelim q = true -> q <> [] ->
  (post = [] \/ Utf16.startsWithDelim post = true) ->
  In q (tl (Utf16.split (pre ++ q ++ post))).
Proof.
  intros Hpre Hq Hne Hpost.
  induction pre as [|c pre IH]; [discriminate|].
  destruct pre as [|c' pre'].
  - simpl in Hpre. simpl. rewrite Hpre, (noDelim_starts_wide q post Hq Hne).
    destruct (split_prefix_wide q post Hq Hpost) as [t ->]. simpl. auto.
  - specialize (IH Hpre).
    change ((c :: c' :: pre') ++ q ++ post)
      with (c :: ((c' :: pre') ++ q ++ post)).
    remember ((c' :: pre') ++ q ++ post) as s eqn:Hs. clear Hs.
    cbn [Utf16.split]. destruct (Utf16.isDelim c).
    + destruct (Utf16.startsWithDelim s); [exact IH|].
      destruct (Utf16.split s); simpl in *; [contradiction | auto].
    + destruct (Utf16.split s); simpl in *; [contradiction | exact IH].
Qed.

Lemma split_Segment_wide (s q : Utf16.Text) :
  q <> [] -> In q (Utf16.split s) <-> Utf16.Segment s q.
Proof.
  intros Hne. rewrite Segment_tests_wide. split.
  - intros Hin.
    destruct (split_first_wide s) as (h & t & post & Hs & Heq & Hh & Hpost).
    pose proof (split_later_wide s q) as Hlater. rewrite Hs in Hin, Hlater.
    destruct Hin as [<-|Hin].
    + exists [], post. simpl. auto 8.
    + destruct (Hlater Hin) as (pre & post' & H1 & H2 & H3 & H4).
      exists pre, post'. auto 8.
  - intros (pre & post & -> & Hq & [->|Hpre] & Hpost).
    + simpl. destruct (split_prefix_wide q post Hq Hpost) as [t ->]. simpl. auto.
    + pose proof (split_inner_wide pre q post Hpre Hq Hne Hpost) as Hin.
      destruct (Utf16.split (pre ++ q ++ post)); simpl in *; [contradiction | auto].
Qed.

Lemma truthyString_true_wide (s : Utf16.Text) :
  Utf16.truthyString s = true <-> s <> [].
Proof. destruct s; simpl; split; congruence. Qed.

(** The parts that the code compares are the trimmed, non-empty
    segments of the genre text. *)
Lemma genreParts_spec_wide (fg p : Utf16.Text) :
  In p (Utf16.genreParts fg) <->
  exists q, Utf16.Segment fg q /\ Utf16.Trimmed q p /\ p <> [].
Proof.
  unfold Utf16.genreParts.
  rewrite filter_In, in_map_iff, truthyString_true_wide. split.
  - intros [(q & <- & Hin) Hne]. exists q.
    split; [|split; [now apply Trimmed_trim_wide | assumption]].
    apply split_Segment_wide; [|assumption]. intros ->. now apply Hne.
  - intros (q & Hseg & Ht & Hne). apply Trimmed_trim_wide in Ht. subst p.
    split; [|assumption].
    exists q. split; [reflexivity|]. apply split_Segment_wide; [|assumption].
    intros ->. now apply Hne.
Qed.

(** *** Lower case *)

Lemma isUpper_range_wide (c : N) :
  Utf16.isUpper c = true
  <-> ((65 <= c <= 90)%N \/ ((192 <= c <= 222)%N /\ c <> 215%N)).
Proof.
  unfold Utf16.isUpper.
  rewrite orb_true_iff, !andb_true_iff, !N.leb_le, negb_true_iff, N.eqb_neq.
  tauto.
Qed.

Lemma toLowerChar_eq_wide (a b : N) :
  Utf16.toLowerChar a = Utf16.toLowerChar b <-> Utf16.SameLetter a b.
Proof.
  unfold Utf16.SameLetter, Utf16.CapitalOf, Utf16.toLowerChar.
  rewrite <- !isUpper_range_wide.
  destruct (Utf16.isUpper a) eqn:Ea, (Utf16.isUpper b) eqn:Eb;
    try (apply isUpper_range_wide in Ea); try (apply isUpper_range_wide in Eb);
    try (apply not_true_iff_false in Ea; rewrite isUpper_range_wide in Ea);
    try (apply not_true_iff_false in Eb; rewrite isUpper_range_wide in Eb);
    split; intros H; try lia;
    repeat match goal with
           | H : _ \/ _ |- _ => destruct H
           | H : _ /\ _ |- _ => destruct H
           end; try discriminate; try lia.
Qed.

Lemma forallb_isLatin1 (s : Utf16.Text) :
  forallb Utf16.isLatin1 s = true <-> Utf16.Latin1 s.
Proof.
  unfold Utf16.Latin1. rewrite forallb_forall, Forall_forall.
  unfold Utf16.isLatin1. split; intros H c Hc; specialize (H c Hc);
    now apply N.ltb_lt.
Qed.

Lemma toLowerCase_Latin1 (lower : Utf16.Text -> Utf16.Text) (s : Utf16.Text) :
  Utf16.Latin1 s -> Utf16.toLowerCase lower s = map Utf16.toLowerChar s.
Proof.
  intros H. apply forallb_isLatin1 in H. unfold Utf16.toLowerCase. now rewrite H.
Qed.

(** On texts of code units below U+0100, the same lower-case form means
    the same letters up to case. *)
Lemma toLowerCase_eq_wide (lower : Utf16.Text -> Utf16.Text) (a b : Utf16.Text) :
  Utf16.Latin1 a -> Utf16.Latin1 b ->
  (Utf16.toLowerCase lower a = Utf16.toLowerCase lower b
   <-> Utf16.EqIgnoreCase a b).
Proof.
  intros Ha Hb. rewrite !toLowerCase_Latin1 by assumption. clear Ha Hb.
  unfold Utf16.EqIgnoreCase. split.
  - revert b. induction a as [|x a IH]; intros [|y b] H; simpl in H;
      try discriminate H.
    + constructor.
    + injection H as Hc Hs. constructor; [now apply toLowerChar_eq_wide | now apply IH].
  - induction 1 as [|x y a b Hxy _ IH]; simpl; [reflexivity|].
    apply toLowerChar_eq_wide in Hxy. now rewrite Hxy, IH.
Qed.

Lemma eqb_eq_wide (a b : Utf16.Text) : Utf16.eqb a b = true <-> a = b.
Proof.
  revert b. induction a as [|x a IH]; intros [|y b]; simpl;
    try (split; [discriminate | discriminate]); [tauto|].
  rewrite andb_true_iff, N.eqb_eq, IH. split; [intros [-> ->] | intros [= -> ->]]; auto.
Qed.

(** The matcher on texts of any code units. *)
Lemma fileHasGenre_parts_wide (lower : Utf16.Text -> Utf16.Text)
      (f : Utf16.File) (g : Utf16.Text) :
  Utf16.fileHasGenre lower (Some f) g = true <->
  exists fg q p,
    Utf16.genre f = Some fg /\ Utf16.Segment fg q /\ Utf16.Trimmed q p
    /\ p <> [] /\ Utf16.toLowerCase lower p = Utf16.toLowerCase lower g.
Proof.
  unfold Utf16.fileHasGenre. destruct (Utf16.genre f) as [fg|].
  - destruct fg as [|c fg'] eqn:Hfg; simpl negb; cbv iota.
    + split; [discriminate|].
      intros (fg0 & q & p & [= <-] & Hseg & Ht & Hne & _).
      assert (Hin : In p (Utf16.genreParts []))
        by (apply genreParts_spec_wide; eauto).
      destruct Hin.
    + rewrite <- Hfg. rewrite existsb_exists. split.
      * intros (p & Hin & Heq). apply eqb_eq_wide in Heq.
        apply genreParts_spec_wide in Hin as (q & Hseg & Ht & Hne).
        exists fg, q, p. auto 6.
      * intros (fg0 & q & p & [= <-] & Hseg & Ht & Hne & Heq).
        exists p. split; [|now apply eqb_eq_wide].
        apply genreParts_spec_wide. eauto.
  - split; [discriminate|]. intros (fg & q & p & H & _). discriminate H.
Qed.

(** *** The texts of the embedding are texts among the others *)

Lemma units_isWhiteSpace (c : ascii) :
  Utf16.isWhiteSpace (N_of_ascii c) = isWhiteSpace c.
Proof. each_ascii c; reflexivity. Qed.

Lemma units_isDelim (c : ascii) : Utf16.isDelim (N_of_ascii c) = isDelim c.
Proof. each_ascii c; reflexivity. Qed.

Lemma units_toLowerChar (c : ascii) :
  Utf16.toLowerChar (N_of_ascii c) = N_of_ascii (toLowerChar c).
Proof. each_ascii c; reflexivity. Qed.

Lemma units_isLatin1 (c : ascii) : Utf16.isLatin1 (N_of_ascii c) = true.
Proof. each_ascii c; reflexivity. Qed.

Lemma units_cons (c : ascii) (s : string) :
  units (String c s) = N_of_ascii c :: units s.
Proof. reflexivity. Qed.

Lemma units_trimStart (s : string) :
  units (trimStart s) = Utf16.trimStart (units s).
Proof.
  induction s as [|c s IH]; [reflexivity|].
  rewrite units_cons. simpl. rewrite units_isWhiteSpace.
  destruct (isWhiteSpace c); [exact IH | reflexivity].
Qed.

Lemma units_empty (s : string) : units s = [] <-> s = EmptyString.
Proof. destruct s; split; try reflexivity; discriminate. Qed.

Lemma units_trimEnd (s : string) :
  units (trimEnd s) = Utf16.trimEnd (units s).
Proof.
  induction s as [|c s IH]; [reflexivity|].
  rewrite units_cons. simpl. rewrite <- IH, units_isWhiteSpace.
  destruct (trimEnd s) as [|c' t]; [|reflexivity].
  simpl. now destruct (isWhiteSpace c).
Qed.

Lemma units_trim (s : string) : units (trim s) = Utf16.trim (units s).
Proof. unfold trim, Utf16.trim. now rewrite units_trimEnd, units_trimStart. Qed.

Lemma units_startsWithDelim (s : string) :
  Utf16.startsWithDelim (units s) = startsWithDelim s.
Proof. destruct s as [|c s]; [reflexivity|]. simpl. apply units_isDelim. Qed.

Lemma units_split (s : string) : map units (split s) = Utf16.split (units s).
Proof.
  induction s as [|c s IH]; [reflexivity|].
  rewrite units_cons. simpl. rewrite units_isDelim, units_startsWithDelim, <- IH.
  destruct (isDelim c).
  - destruct (startsWithDelim s); reflexivity.
  - destruct (split s); reflexivity.
Qed.

Lemma units_truthyString (s : string) :
  Utf16.truthyString (units s) = truthyString s.
Proof. destruct s; reflexivity. Qed.

Lemma units_genreParts (s : string) :
  map units (genreParts s) = Utf16.genreParts (units s).
Proof.
  unfold genreParts, Utf16.genreParts. rewrite <- units_split, map_map.
  induction (split s) as [|q l IH]; simpl; [reflexivity|].
  rewrite <- units_trim, units_truthyString.
  destruct (truthyString (trim q)); simpl; now rewrite IH.
Qed.

Lemma units_toLowerCase (lower : Utf16.Text -> Utf16.Text) (s : string) :
  Utf16.toLowerCase lower (units s) = units (toLowerCase s).
Proof.
  rewrite toLowerCase_Latin1.
  - induction s as [|c s IH]; [reflexivity|].
    simpl toLowerCase. rewrite !units_cons. simpl.
    now rewrite units_toLowerChar, IH.
  - apply forallb_isLatin1. induction s as [|c s IH]; [reflexivity|].
    rewrite units_cons. simpl. now rewrite units_isLatin1.
Qed.

Lemma units_eqb (a b : string) : Utf16.eqb (units a) (units b) = (a =? b)%string.
Proof.
  revert b. induction a as [|x a IH]; intros [|y b]; try reflexivity.
  rewrite !units_cons. simpl. rewrite IH.
  destruct (Ascii.eqb_spec x y) as [->|Hne].
  - now rewrite N.eqb_refl.
  - replace (N_of_ascii x =? N_of_ascii y)%N with false; [reflexivity|].
    symmetry. apply N.eqb_neq. intros H. apply Hne.
    rewrite <- (ascii_N_embedding x), <- (ascii_N_embedding y). now rewrite H.
Qed.

(** The matcher of the embedding is the matcher on all texts, applied to
    the texts of the embedding. *)
Lemma fileHasGenre_units (lower : Utf16.Text -> Utf16.Text)
      (f : File) (g : string) :
  Utf16.fileHasGenre lower (Some (wide f)) (units g) = fileHasGenre (Some f) g.
Proof.
  unfold Utf16.fileHasGenre, fileHasGenre, wide. simpl Utf16.genre.
  destruct (genre f) as [fg|]; [|reflexivity]. simpl option_map. cbv iota.
  rewrite units_truthyString. destruct (truthyString fg); [|reflexivity].
  cbn [negb]. rewrite <- units_genreParts.
  induction (genreParts fg) as [|p l IH]; [reflexivity|].
  simpl. now rewrite IH, !units_toLowerCase, units_eqb.
Qed.

(** ** Sorting *)

Section StableSortFacts.

Context {A : Type} (le : A -> A -> bool).

Lemma insertSorted_perm (x : A) (l : list A) :
  Permutation (insertSorted le x l) (x :: l).
Proof.
  induction l as [|y l IH]; simpl; [reflexivity|].
  destruct (le x y); [reflexivity|].
  rewrite IH. apply perm_swap.
Qed.

Lemma sortBy_perm (l : list A) : Permutation (sortBy le l) l.
Proof.
  induction l as [|x l IH]; simpl; [reflexivity|].
  rewrite insertSorted_perm. now constructor.
Qed.

Lemma sortBy_In (l : list A) (x : A) : In x (sortBy le l) <-> In x l.
Proof.
  split; apply Permutation_in;
    [apply sortBy_perm | symmetry; apply sortBy_perm].
Qed.

Lemma sortBy_length (l : list A) : List.length (sortBy le l) = List.length l.
Proof. apply Permutation_length, sortBy_perm. Qed.

Hypothesis le_total : forall a b, le a b = false -> le b a = true.
Hypothesis le_trans :
  forall a b c, le a b = true -> le b c = true -> le a c = true.

Lemma insertSorted_sorted (x : A) (l : list A) :
  StronglySorted (fun a b => le a b = true) l ->
StronglySorted (fun a b => le a b = true) (insertSorted le x l).
Proof.
  induction 1 as [|y l Hl IH Hy]; simpl.
  - repeat constructor.
  - destruct (le x y) eqn:Exy.
    + constructor; [now constructor|].
      constructor; [exact Exy|].
      eapply Forall_impl; [|exact Hy]. intros z. cbv beta. now apply le_trans.
    + constructor; [exact IH|].
      rewrite Forall_forall. intros z Hz.
      apply (Permutation_in _ (insertSorted_perm x l)) in Hz.
      destruct Hz as [<-|Hz]; [now apply le_total|].
      rewrite Forall_forall in Hy. now apply Hy.
Qed.

Lemma sortBy_sorted (l : list A) :
StronglySorted (fun a b => le a b = true) (sortBy le l).
Proof.
  induction l as [|x l IH]; simpl; [constructor|].
  now apply insertSorted_sorted.
Qed.

(** The sort is stable: elements that the comparator does not tell
    apart keep the order they had. *)
Lemma insertSorted_filter_other (z x : A) (l : list A) :
  le z x && le x z = false ->
  filter (fun y => le z y && le y z) (insertSorted le x l)
  = filter (fun y => le z y && le y z) l.
Proof.
  intros Hzx. induction l as [|y l IH]; simpl.
  - now rewrite Hzx.
  - destruct (le x y); simpl; [now rewrite Hzx|].
    now rewrite IH.
Qed.

Lemma insertSorted_filter_same (z x : A) (l : list A) :
  le z x && le x z = true ->
  filter (fun y => le z y && le y z) (insertSorted le x l)
  = x :: filter (fun y => le z y && le y z) l.
Proof.
  intros Hzx. induction l as [|y l IH]; simpl.
  - now rewrite Hzx.
  - destruct (le x y) eqn:Exy; simpl.
    + now rewrite Hzx.
    + rewrite IH. destruct (le z y && le y z) eqn:Ezy; [|reflexivity].
      apply andb_prop in Hzx as [_ Hxz]. apply andb_prop in Ezy as [Hzy _].
      rewrite (le_trans x z y Hxz Hzy) in Exy. discriminate Exy.
Qed.

Lemma sortBy_stable (z : A) (l : list A) :
  filter (fun y => le z y && le y z) (sortBy le l)
  = filter (fun y => le z y && le y z) l.
Proof.
  induction l as [|x l IH]; simpl; [reflexivity|].
  destruct (le z x && le x z) eqn:Ezx.
  - now rewrite insertSorted_filter_same, IH.
  - now rewrite insertSorted_filter_other, IH.
Qed.

End StableSortFacts.

Lemma StronglySorted_app_inv {A : Type} (R : A -> A -> Prop) (l1 l2 : list A) :
  StronglySorted R (l1 ++ l2) ->
  StronglySorted R l1 /\ forall x y, In x l1 -> In y l2 -> R x y.
Proof.
  induction l1 as [|a l1 IH]; simpl; intros H.
  - split; [constructor | contradiction].
  - inversion H as [|? ? Hs Hf]; subst. destruct (IH Hs) as [Hs1 Hcross].
    rewrite Forall_forall in Hf. split.
    + constructor; [exact Hs1|].
      rewrite Forall_forall. intros z Hz. apply Hf, in_or_app. now left.
    + intros x y [<-|Hx] Hy; [|now apply Hcross].
      apply Hf, in_or_app. now right.
Qed.

Lemma StronglySorted_impl {A : Type} (R S : A -> A -> Prop) (l : list A) :
  (forall x y, R x y -> S x y) -> StronglySorted R l -> StronglySorted S l.
Proof.
  intros HRS. induction 1 as [|a l _ IH Ha]; constructor; [exact IH|].
  eapply Forall_impl; [|exact Ha]. intros b. apply HRS.
Qed.

Lemma In_firstn_whole {A : Type} (n : nat) (l : list A) (x : A) :
  In x (firstn n l) -> In x l.
Proof.
  intros H. rewrite <- (firstn_skipn n l). apply in_or_app. now left.
Qed.

(** The first [n] elements of a sorted list are sorted and come before
    all the others. *)
Lemma StronglySorted_firstn {A : Type} (R : A -> A -> Prop) (n : nat) (l : list A) :
  StronglySorted R l ->
  StronglySorted R (firstn n l)
  /\ forall x y, In x (firstn n l) -> In y (skipn n l) -> R x y.
Proof.
  intros H. apply StronglySorted_app_inv. now rewrite firstn_skipn.
Qed.

(** ** Tallies *)

Section TallyFacts.

Context {K : Type} (eqb : K -> K -> bool).
Hypothesis eqb_eq : forall a b, eqb a b = true <-> a = b.

Lemma eqb_same (a : K) : eqb a a = true.
Proof. now apply eqb_eq. Qed.

Lemma eqb_false (a b : K) : a <> b -> eqb a b = false.
Proof.
  intros Hne. destruct (eqb a b) eqn:E; [|reflexivity].
  now apply eqb_eq in E.
Qed.

Lemma lookup_tally_same (o : list (K * nat)) (k : K) :
  lookup eqb (tally eqb o k) k
  = Some (match lookup eqb o k with Some n => n + 1 | None => 1 end).
Proof.
  induction o as [|[k' n] o IH]; simpl.
  - now rewrite eqb_same.
  - destruct (eqb k' k) eqn:E; simpl; rewrite E; [reflexivity | exact IH].
Qed.

Lemma lookup_tally_other (o : list (K * nat)) (k k' : K) :
  k <> k' -> lookup eqb (tally eqb o k) k' = lookup eqb o k'.
Proof.
  intros Hne. induction o as [|[k0 n] o IH]; simpl.
  - now rewrite eqb_false.
  - destruct (eqb k0 k) eqn:E; simpl; [|now rewrite IH].
    apply eqb_eq in E. subst k0. now rewrite (eqb_false k k').
Qed.

Lemma tally_keys (o : list (K * nat)) (k k' : K) :
  In k' (map fst (tally eqb o k)) <-> k' = k \/ In k' (map fst o).
Proof.
  induction o as [|[k0 n] o IH]; simpl.
  - intuition congruence.
  - destruct (eqb k0 k) eqn:E; simpl.
    + apply eqb_eq in E. subst. intuition.
    + rewrite IH. intuition.
Qed.

Lemma tally_NoDup (o : list (K * nat)) (k : K) :
  NoDup (map fst o) -> NoDup (map fst (tally eqb o k)).
Proof.
  induction o as [|[k0 n] o IH]; simpl; intros H.
  - repeat constructor. simpl. tauto.
  - inversion H as [|? ? Hnotin Hnd]; subst.
    destruct (eqb k0 k) eqn:E; simpl.
    + now constructor.
    + constructor; [|now apply IH].
      rewrite tally_keys. intros [->|Hin]; [|contradiction].
      now rewrite eqb_same in E.
Qed.

Lemma lookup_In (o : list (K * nat)) (k : K) (n : nat) :
  NoDup (map fst o) -> (In (k, n) o <-> lookup eqb o k = Some n).
Proof.
  induction o as [|[k0 n0] o IH]; simpl; intros H.
  - split; [contradiction | discriminate].
  - inversion H as [|? ? Hnotin Hnd]; subst.
    destruct (eqb k0 k) eqn:E.
    + apply eqb_eq in E. subst. split.
      * intros [Heq|Hin]; [congruence|].
        exfalso. apply Hnotin. change k with (fst (k, n)). now apply in_map.
      * intros Heq. left. congruence.
    + rewrite <- (IH Hnd). split; [|tauto].
      intros [Heq|Hin]; [|assumption].
      injection Heq as -> ->. now rewrite eqb_same in E.
Qed.

Lemma fold_tally_NoDup (ks : list K) (o : list (K * nat)) :
  NoDup (map fst o) -> NoDup (map fst (fold_left (tally eqb) ks o)).
Proof.
  revert o. induction ks as [|k ks IH]; simpl; intros o H; [exact H|].
  now apply IH, tally_NoDup.
Qed.

Lemma lookup_fold_tally (ks : list K) (o : list (K * nat)) (k : K) :
  lookup eqb (fold_left (tally eqb) ks o) k
  = match lookup eqb o k, occurrences eqb k ks with
    | Some n, c => Some (n + c)
    | None, 0 => None
    | None, c => Some c
    end.
Proof.
  revert o. induction ks as [|k0 ks IH]; intros o; simpl.
  - unfold occurrences. simpl. destruct (lookup eqb o k); [f_equal; lia | reflexivity].
  - rewrite IH. unfold occurrences. simpl. destruct (eqb k k0) eqn:E.
    + apply eqb_eq in E. subst k0. rewrite lookup_tally_same. simpl.
      destruct (lookup eqb o k); f_equal; lia.
    + rewrite lookup_tally_other
        by (intros ->; now rewrite eqb_same in E).
      reflexivity.
Qed.

(** A tally started empty lists every key that occurs, once, with the
    number of its occurrences. *)
Lemma fold_tally_spec (ks : list K) (k : K) (n : nat) :
  In (k, n) (fold_left (tally eqb) ks [])
  <-> n = occurrences eqb k ks /\ 0 < n.
Proof.
  rewrite lookup_In by (apply fold_tally_NoDup; constructor).
  rewrite lookup_fold_tally. simpl.
  destruct (occurrences eqb k ks); split; try discriminate; try lia.
  - intros [= <-]. lia.
  - intros [-> _]. reflexivity.
Qed.

Lemma fold_keyed {X : Type} (key : X -> option K) (xs : list X)
      (o : list (K * nat)) :
  fold_left (fun o x => match key x with Some k => tally eqb o k | None => o end)
            xs o
  = fold_left (tally eqb) (keysOf key xs) o.
Proof.
  revert o. induction xs as [|x xs IH]; intros o; simpl; [reflexivity|].
  rewrite IH. unfold keysOf. simpl. destruct (key x); reflexivity.
Qed.

Lemma occurrences_keysOf {X : Type} (key : X -> option K) (xs : list X) (k : K) :
  occurrences eqb k (keysOf key xs)
  = countWhere (fun x => match key x with Some k' => eqb k k' | None => false end) xs.
Proof.
  unfold occurrences, countWhere, keysOf.
  induction xs as [|x xs IH]; simpl; [reflexivity|].
  destruct (key x) as [k'|]; simpl; [|exact IH].
  destruct (eqb k k'); simpl; now rewrite IH.
Qed.

End TallyFacts.

(** ** Calendar years *)

Local Open Scope Z_scope.

Lemma DayFromYear_periods (a b c e : Z) :
  0 <= b <= 3 -> 0 <= c <= 24 -> 0 <= e <= 3 ->
  DayFromYear (1601 + 400 * a + 100 * b + 4 * c + e)
  = 146097 * a + 36524 * b + 1461 * c + 365 * e - 134774.
Proof.
  intros Hb Hc He. unfold DayFromYear.
  replace ((1601 + 400 * a + 100 * b + 4 * c + e - 1969) / 4)
    with (100 * a + 25 * b + c - 92)
    by (apply Z.div_unique with (r := e); lia).
  replace ((1601 + 400 * a + 100 * b + 4 * c + e - 1901) / 100)
    with (4 * a + b - 3)
    by (apply Z.div_unique with (r := 4 * c + e); lia).
  replace ((1601 + 400 * a + 100 * b + 4 * c + e - 1601) / 400)
    with a
    by (apply Z.div_unique with (r := 100 * b + 4 * c + e); lia).
  lia.
Qed.

Lemma DayFromYear_next (a b c e : Z) :
  0 <= b <= 3 -> 0 <= c <= 24 -> 0 <= e <= 3 ->
  DayFromYear (1601 + 400 * a + 100 * b + 4 * c + e + 1)
  = 146097 * a + 36524 * b + 1461 * c + 365 * e - 134774 + yearLength b c e.
Proof.
  intros Hb Hc He. unfold yearLength.
  destruct (Z.eqb_spec e 3) as [->|Hne]; simpl andb.
  - destruct (Z.ltb_spec c 24) as [Hlt|Hge]; simpl orb.
    + replace (1601 + 400 * a + 100 * b + 4 * c + 3 + 1)
        with (1601 + 400 * a + 100 * b + 4 * (c + 1) + 0) by lia.
      rewrite (DayFromYear_periods a b (c + 1) 0); lia.
    + destruct (Z.eqb_spec b 3) as [->|Hb3].
      * replace (1601 + 400 * a + 100 * 3 + 4 * c + 3 + 1)
          with (1601 + 400 * (a + 1) + 100 * 0 + 4 * 0 + 0) by lia.
        rewrite (DayFromYear_periods (a + 1) 0 0 0); lia.
      * replace (1601 + 400 * a + 100 * b + 4 * c + 3 + 1)
          with (1601 + 400 * a + 100 * (b + 1) + 4 * 0 + 0) by lia.
        rewrite (DayFromYear_periods a (b + 1) 0 0); lia.
  - replace (1601 + 400 * a + 100 * b + 4 * c + e + 1)
      with (1601 + 400 * a + 100 * b + 4 * c + (e + 1)) by lia.
    rewrite (DayFromYear_periods a b c (e + 1)); lia.
Qed.

(** [YearFromDay] returns the year in which the day falls, as ECMA-262
    defines it through [DayFromYear]. *)
Lemma YearFromDay_spec (d : Z) :
  DayFromYear (YearFromDay d) <= d < DayFromYear (YearFromDay d + 1).
Proof.
  unfold YearFromDay.
  set (n := d + 134774).
  pose proof (Z.div_mod n 146097 ltac:(lia)) as H400.
  pose proof (Z.mod_pos_bound n 146097 ltac:(lia)) as B400.
  set (c400 := n / 146097) in *. set (r400 := n mod 146097) in *.
  pose proof (Z.div_mod r400 36524 ltac:(lia)) as H100.
  pose proof (Z.mod_pos_bound r400 36524 ltac:(lia)) as B100.
  set (q100 := r400 / 36524) in *.
  set (c100 := Z.min q100 3).
  assert (Hc100 : 0 <= c100 <= 3) by (unfold c100; lia).
  set (r100 := r400 - c100 * 36524).
  assert (Hr100 : 0 <= r100 <= 36524) by (unfold r100, c100; lia).
  pose proof (Z.div_mod r100 1461 ltac:(lia)) as H4.
  pose proof (Z.mod_pos_bound r100 1461 ltac:(lia)) as B4.
  set (c4 := r100 / 1461) in *. set (r4 := r100 mod 1461) in *.
  pose proof (Z.div_mod r4 365 ltac:(lia)) as H1.
  pose proof (Z.mod_pos_bound r4 365 ltac:(lia)) as B1.
  set (q1 := r4 / 365) in *.
  set (c1 := Z.min q1 3).
  assert (Hc4 : 0 <= c4 <= 24) by lia.
  assert (Hc1 : 0 <= c1 <= 3) by (unfold c1; lia).
  rewrite DayFromYear_periods, DayFromYear_next; [|lia..].
  unfold yearLength.
  destruct ((c1 =? 3) && ((c4 <? 24) || (c100 =? 3))) eqn:E.
  - unfold c1, r100, c100 in *. lia.
  - apply andb_false_iff in E. rewrite orb_false_iff in E.
    rewrite Z.eqb_neq, Z.ltb_ge, Z.eqb_neq in E.
    unfold c1, r100, c100 in *. lia.
Qed.

Lemma DayFromYear_increasing (y : Z) : DayFromYear y < DayFromYear (y + 1).
Proof.
  unfold DayFromYear.
  pose proof (Z.div_le_mono (y - 1969) (y + 1 - 1969) 4 ltac:(lia) ltac:(lia)).
  pose proof (Z.div_le_mono (y - 1601) (y + 1 - 1601) 400 ltac:(lia) ltac:(lia)).
  assert ((y + 1 - 1901) / 100 <= (y - 1901) / 100 + 1).
  { replace (y + 1 - 1901) with (y - 1901 + 1) by lia.
    pose proof (Z.div_le_mono (y - 1901 + 1) (y - 1901 + 1 * 100) 100
                  ltac:(lia) ltac:(lia)) as Hstep.
    now rewrite Z.div_add in Hstep by lia. }
  lia.
Qed.

Lemma DayFromYear_monotone (y1 y2 : Z) :
  y1 <= y2 -> DayFromYear y1 <= DayFromYear y2.
Proof.
  intros H. replace y2 with (y1 + Z.of_nat (Z.to_nat (y2 - y1))) by lia.
  induction (Z.to_nat (y2 - y1)) as [|n IH].
  - replace (y1 + Z.of_nat 0) with y1 by lia. lia.
  - pose proof (DayFromYear_increasing (y1 + Z.of_nat n)).
    replace (y1 + Z.of_nat (S n)) with (y1 + Z.of_nat n + 1) by lia. lia.
Qed.

(** ... and it is the only such year. *)
Lemma YearFromDay_unique (d y : Z) :
  DayFromYear y <= d < DayFromYear (y + 1) -> YearFromDay d = y.
Proof.
  intros [Hlo Hhi]. pose proof (YearFromDay_spec d) as [Hlo' Hhi'].
  destruct (Z.lt_trichotomy (YearFromDay d) y) as [Hlt|[Heq|Hgt]];
    [exfalso | exact Heq | exfalso].
  - pose proof (DayFromYear_monotone (YearFromDay d + 1) y ltac:(lia)). lia.
  - pose proof (DayFromYear_monotone (y + 1) (YearFromDay d) ltac:(lia)). lia.
Qed.

Lemma getFullYear_epoch (LocalTZA : Z -> Z) :
  - msPerDay < LocalTZA 0 < msPerDay ->
  getFullYear LocalTZA 0 = YNum 1969 \/ getFullYear LocalTZA 0 = YNum 1970.
Proof.
  intros H. unfold getFullYear, YearFromTime, Day.
  change (TimeClip 0) with (Some 0). cbv iota.
  replace (0 + LocalTZA 0) with (LocalTZA 0) by lia.
  unfold msPerDay in *.
  destruct (Z.neg_nonneg_cases (LocalTZA 0)) as [Hneg|Hpos].
  - left. replace (LocalTZA 0 / 86400000) with (-1); [reflexivity|].
    apply Z.div_unique with (r := LocalTZA 0 + 86400000); lia.
  - right. rewrite Z.div_small by lia. reflexivity.
Qed.

(** ** The years of ECMA-262 are the years of the calendar *)

Local Open Scope Z_scope.

Lemma DaysInYear_unique (y n m : Z) : DaysInYear y n -> DaysInYear y m -> n = m.
Proof. unfold DaysInYear. intros [[? ->]|[? ->]] [[? ->]|[? ->]]; tauto. Qed.

Lemma DaysInYear_total (y : Z) : exists n, DaysInYear y n.
Proof.
  unfold DaysInYear, LeapYear.
  destruct (Z.eq_dec (y mod 400) 0); [exists 366; tauto|].
  destruct (Z.eq_dec (y mod 4) 0); [|exists 365; tauto].
  destruct (Z.eq_dec (y mod 100) 0); [exists 365 | exists 366]; tauto.
Qed.

(** From one year to the next [DayFromYear] advances by the length of
    the year. *)
Lemma DayFromYear_step (y n : Z) :
  DaysInYear y n -> DayFromYear (y + 1) = DayFromYear y + n.
Proof.
  unfold DaysInYear, LeapYear, DayFromYear. intros H.
  pose proof (Z.div_mod (y + 1 - 1969) 4 ltac:(lia)).
  pose proof (Z.mod_pos_bound (y + 1 - 1969) 4 ltac:(lia)).
  pose proof (Z.div_mod (y - 1969) 4 ltac:(lia)).
  pose proof (Z.mod_pos_bound (y - 1969) 4 ltac:(lia)).
  pose proof (Z.div_mod (y + 1 - 1901) 100 ltac:(lia)).
  pose proof (Z.mod_pos_bound (y + 1 - 1901) 100 ltac:(lia)).
  pose proof (Z.div_mod (y - 1901) 100 ltac:(lia)).
  pose proof (Z.mod_pos_bound (y - 1901) 100 ltac:(lia)).
  pose proof (Z.div_mod (y + 1 - 1601) 400 ltac:(lia)).
  pose proof (Z.mod_pos_bound (y + 1 - 1601) 400 ltac:(lia)).
  pose proof (Z.div_mod (y - 1601) 400 ltac:(lia)).
  pose proof (Z.mod_pos_bound (y - 1601) 400 ltac:(lia)).
  pose proof (Z.div_mod y 4 ltac:(lia)).
  pose proof (Z.mod_pos_bound y 4 ltac:(lia)).
  pose proof (Z.div_mod y 100 ltac:(lia)).
  pose proof (Z.mod_pos_bound y 100 ltac:(lia)).
  pose proof (Z.div_mod y 400 ltac:(lia)).
  pose proof (Z.mod_pos_bound y 400 ltac:(lia)).
  lia.
Qed.

Lemma NewYearsDay_DayFromYear (y d : Z) : NewYearsDay y d <-> d = DayFromYear y.
Proof.
  split.
  - induction 1 as [|y d n _ IH Hn|y d n _ IH Hn].
    + reflexivity.
    + rewrite (DayFromYear_step y n Hn). lia.
    + rewrite (DayFromYear_step y n Hn) in IH. lia.
  - intros ->.
    assert (Hup : forall k : nat, NewYearsDay (1970 + Z.of_nat k)
                                              (DayFromYear (1970 + Z.of_nat k))).
    { induction k as [|k IH]; [exact nyd_epoch|].
      destruct (DaysInYear_total (1970 + Z.of_nat k)) as [n Hn].
      replace (1970 + Z.of_nat (S k)) with (1970 + Z.of_nat k + 1) by lia.
      rewrite (DayFromYear_step _ n Hn). now apply nyd_next. }
    assert (Hdown : forall k : nat, NewYearsDay (1970 - Z.of_nat k)
                                                (DayFromYear (1970 - Z.of_nat k))).
    { induction k as [|k IH]; [exact nyd_epoch|].
      destruct (DaysInYear_total (1970 - Z.of_nat (S k))) as [n Hn].
      apply nyd_prev with n; [|exact Hn].
      rewrite <- (DayFromYear_step _ n Hn).
      replace (1970 - Z.of_nat (S k) + 1) with (1970 - Z.of_nat k) by lia.
      exact IH. }
    destruct (Z.le_ge_cases 1970 y).
    + replace y with (1970 + Z.of_nat (Z.to_nat (y - 1970))) by lia. apply Hup.
    + replace y with (1970 - Z.of_nat (Z.to_nat (1970 - y))) by lia. apply Hdown.
Qed.

(** [YearFromTime] gives the calendar year, and nothing else is it. *)
Lemma YearFromTime_CalendarYear (ms y : Z) :
  YearFromTime ms = y <-> CalendarYear ms y.
Proof.
  unfold CalendarYear, YearFromTime, Day, msPerDay.
  pose proof (Z.div_mod ms 86400000 ltac:(lia)) as Hdm.
  pose proof (Z.mod_pos_bound ms 86400000 ltac:(lia)) as Hb.
  split.
  - intros <-. pose proof (YearFromDay_spec (ms / 86400000)) as [Hlo Hhi].
    exists (DayFromYear (YearFromDay (ms / 86400000))),
           (DayFromYear (YearFromDay (ms / 86400000) + 1)).
    split; [now apply NewYearsDay_DayFromYear|].
    split; [now apply NewYearsDay_DayFromYear|]. lia.
  - intros (d0 & d1 & H0 & H1 & Hms).
    apply NewYearsDay_DayFromYear in H0, H1. subst d0 d1.
    apply YearFromDay_unique. lia.
Qed.

Lemma TimeClip_InDateRange (ms : Z) :
  (TimeClip ms = Some ms <-> InDateRange ms)
  /\ (TimeClip ms = None <-> ~ InDateRange ms).
Proof.
  unfold TimeClip, InDateRange.
  destruct (Z.leb_spec (Z.abs ms) 8640000000000000); split; split;
    try discriminate; try reflexivity; lia.
Qed.

(** [getFullYear] gives the local calendar year of an instant that a
    Date can hold, and NaN for any other. *)
Lemma getFullYear_LocalCalendarYear (LocalTZA : Z -> Z) (ms : Z) :
  (InDateRange ms ->
   forall y, getFullYear LocalTZA ms = YNum y <-> LocalCalendarYear LocalTZA ms y)
  /\ (~ InDateRange ms -> getFullYear LocalTZA ms = YNaN).
Proof.
  unfold getFullYear, LocalCalendarYear.
  destruct (TimeClip_InDateRange ms) as [Hin Hout]. split.
  - intros Hr y. apply Hin in Hr. rewrite Hr.
    rewrite <- YearFromTime_CalendarYear. split; [now intros [= ->] | now intros ->].
  - intros Hr. apply Hout in Hr. now rewrite Hr.
Qed.

Lemma CalendarYear_unique (ms y1 y2 : Z) :
  CalendarYear ms y1 -> CalendarYear ms y2 -> y1 = y2.
Proof.
  intros H1 H2. apply YearFromTime_CalendarYear in H1, H2. congruence.
Qed.

Local Close Scope Z_scope.

(** ** The year token of a date text *)

Local Open Scope nat_scope.

Lemma DigitOf_tests (c : ascii) (d : Z) :
  DigitOf c d <-> isDigit c = true /\ digitValue c = d.
Proof.
  unfold DigitOf. split.
  - cbn [In]. intros H.
    repeat (destruct H as [H|H]; [injection H as <- <-; split; reflexivity|]).
    contradiction.
  - intros [Hc <-]. revert Hc.
    each_ascii c; intros Hc; try discriminate Hc;
      cbv; repeat (first [left; reflexivity | right]).
Qed.

Lemma IsYearToken_tests (t : string) :
  IsYearToken t
  <-> exists c d,
        (t = String "1" (String "9" (String c (String d EmptyString)))
         \/ t = String "2" (String "0" (String c (String d EmptyString))))
        /\ isDigit c = true /\ isDigit d = true.
Proof.
  split.
  - intros (y & c & d & dc & dd & Hc & Hd & Ht).
    apply DigitOf_tests in Hc as [Hc _]. apply DigitOf_tests in Hd as [Hd _].
    exists c, d. split; [|now split]. destruct Ht as [[-> _]|[-> _]]; auto.
  - intros (c & d & Ht & Hc & Hd).
    assert (Hdc : DigitOf c (digitValue c)) by now apply DigitOf_tests.
    assert (Hdd : DigitOf d (digitValue d)) by now apply DigitOf_tests.
    destruct Ht as [->| ->]; eexists; exists c, d, (digitValue c), (digitValue d);
      (split; [exact Hdc|]); (split; [exact Hdd|]); [left | right];
      (split; reflexivity).
Qed.

Lemma IsYearToken_length (t : string) : IsYearToken t -> String.length t = 4.
Proof.
  intros H. apply IsYearToken_tests in H as (c & d & [->| ->] & _); reflexivity.
Qed.

Lemma yearTokenAt_Some (s t : string) :
  yearTokenAt s = Some t -> IsYearToken t /\ exists post, s = (t ++ post)%string.
Proof.
  destruct s as [|a [|b [|c [|d rest]]]]; simpl; try discriminate.
  destruct (_ && isDigit c && isDigit d) eqn:E; [|discriminate].
  intros [= <-].
  apply andb_prop in E as [E Hd]. apply andb_prop in E as [E Hc].
  split; [|now exists rest]. apply IsYearToken_tests.
  exists c, d. split; [|now split].
  apply orb_prop in E as [E|E]; apply andb_prop in E as [Ea Eb];
    apply Ascii.eqb_eq in Ea, Eb; subst; auto.
Qed.

Lemma yearTokenAt_complete (t post : string) :
  IsYearToken t -> yearTokenAt (t ++ post) = Some t.
Proof.
  intros H. apply IsYearToken_tests in H as (c & d & [->| ->] & Hc & Hd);
    simpl; now rewrite Hc, Hd.
Qed.

Lemma OccursAt_zero (s t : string) :
  OccursAt s t 0 <-> exists post, s = (t ++ post)%string.
Proof.
  split.
  - intros (pre & post & -> & Hlen). destruct pre; [|discriminate Hlen].
    now exists post.
  - intros (post & ->). now exists EmptyString, post.
Qed.

Lemma OccursAt_succ (c : ascii) (s t : string) (n : nat) :
  OccursAt (String c s) t (S n) <-> OccursAt s t n.
Proof.
  split.
  - intros (pre & post & Heq & Hlen). destruct pre as [|c' pre]; [discriminate Hlen|].
    simpl in Heq, Hlen. injection Heq as _ ->. injection Hlen as Hlen.
    now exists pre, post.
  - intros (pre & post & -> & Hlen). exists (String c pre), post.
    simpl. now rewrite Hlen.
Qed.

Lemma OccursAt_empty (t : string) (n : nat) :
  OccursAt EmptyString t n -> t = EmptyString.
Proof.
  intros (pre & post & Heq & _). destruct pre; [|discriminate Heq].
  destruct t; [reflexivity | discriminate Heq].
Qed.

Lemma append_same_length (a b p q : string) :
  (a ++ p)%string = (b ++ q)%string -> String.length a = String.length b -> a = b.
Proof.
  revert b. induction a as [|x a IH]; intros [|y b]; simpl; try discriminate.
  - reflexivity.
  - intros [= -> Heq] [= Hlen]. f_equal. now apply IH.
Qed.

(** [matchYear] finds the first year token. *)
Lemma matchYear_Some (s t : string) :
  matchYear s = Some t <-> FirstYearToken s t.
Proof.
  split.
  - revert t. induction s as [|c s IH]; intros t; [discriminate|].
    cbn [matchYear]. destruct (yearTokenAt (String c s)) as [m|] eqn:Em.
    + intros [= <-]. apply yearTokenAt_Some in Em as [Htok Hpost].
      split; [exact Htok|]. exists 0. split; [now apply OccursAt_zero | lia].
    + intros Hm. destruct (IH t Hm) as (Htok & n & Hocc & Hmin).
      split; [exact Htok|]. exists (S n). split; [now apply OccursAt_succ|].
      intros t' [|n'] Htok' Hocc'.
      * apply OccursAt_zero in Hocc' as [post Heq].
        rewrite Heq, yearTokenAt_complete in Em by assumption. discriminate Em.
      * apply OccursAt_succ in Hocc'. specialize (Hmin t' n' Htok' Hocc'). lia.
  - revert t. induction s as [|c s IH]; intros t (Htok & n & Hocc & Hmin).
    + apply OccursAt_empty in Hocc. subst.
      apply IsYearToken_length in Htok. discriminate Htok.
    + cbn [matchYear]. destruct (yearTokenAt (String c s)) as [m|] eqn:Em.
      * apply yearTokenAt_Some in Em as [Hm [postm Heqm]].
        assert (n = 0) as ->
            by (specialize (Hmin m 0 Hm ltac:(apply OccursAt_zero; eauto)); lia).
        apply OccursAt_zero in Hocc as [post Heq]. f_equal.
        rewrite Heq in Heqm. symmetry. eapply append_same_length; [exact Heqm|].
        now rewrite !IsYearToken_length.
      * destruct n as [|n].
        -- apply OccursAt_zero in Hocc as [post Heq].
           rewrite Heq, yearTokenAt_complete in Em by assumption. discriminate Em.
        -- apply IH. split; [exact Htok|]. exists n.
           split; [now apply OccursAt_succ in Hocc|].
           intros t' n' Htok' Hocc'.
           specialize (Hmin t' (S n') Htok' ltac:(now apply OccursAt_succ)). lia.
Qed.

Lemma matchYear_None (s : string) : matchYear s = None <-> NoYearToken s.
Proof.
  split.
  - induction s as [|c s IH]; intros Hm t n Htok Hocc.
    + apply OccursAt_empty in Hocc. subst.
      apply IsYearToken_length in Htok. discriminate Htok.
    + cbn [matchYear] in Hm.
      destruct (yearTokenAt (String c s)) as [m|] eqn:Em; [discriminate|].
      destruct n as [|n].
      * apply OccursAt_zero in Hocc as [post Heq].
        rewrite Heq, yearTokenAt_complete in Em by assumption. discriminate Em.
      * apply OccursAt_succ in Hocc. exact (IH Hm t n Htok Hocc).
  - intros Hnone. destruct (matchYear s) as [t|] eqn:Em; [|reflexivity].
    apply matchYear_Some in Em as (Htok & n & Hocc & _).
    now elim (Hnone t n).
Qed.

Lemma isDigit_value (c : ascii) :
  isDigit c = true -> (0 <= digitValue c <= 9)%Z.
Proof.
  unfold isDigit, digitValue. intros H.
  apply andb_prop in H as [H1 H2].
  apply N.leb_le in H1, H2. lia.
Qed.

(** The number that unary [+] makes of a year token is the number that
    the token writes, a year of the 20th or 21st century. *)
Lemma YearTokenOf_toNumber (t : string) (y : Z) :
  YearTokenOf t y -> toNumber t = y /\ (1900 <= y <= 2099)%Z.
Proof.
  intros (c & d & dc & dd & Hc & Hd & Ht).
  apply DigitOf_tests in Hc as [Hc <-]. apply DigitOf_tests in Hd as [Hd <-].
  apply isDigit_value in Hc, Hd.
  destruct Ht as [[-> ->]|[-> ->]]; unfold toNumber; cbn [digitsValue];
    [change (digitValue "1") with 1%Z; change (digitValue "9") with 9%Z
    |change (digitValue "2") with 2%Z; change (digitValue "0") with 0%Z]; lia.
Qed.

Lemma toNumber_year_token (t : string) :
  IsYearToken t -> (1900 <= toNumber t <= 2099)%Z.
Proof.
  intros (y & Hy). destruct (YearTokenOf_toNumber t y Hy) as [-> H]. exact H.
Qed.

(** The code scans the date text: a missing or empty [date] holds no
    token. *)
Lemma getYearFromFile_scan (LocalTZA : Z -> Z) (f : File) :
  getYearFromFile LocalTZA (Some f)
  = match matchYear (dateText f) with
    | Some t => YNum (toNumber t)
    | None =>
        match mtime_epoch f with
        | Some t => if negb (t =? 0)%Z then getFullYear LocalTZA (t * 1000) else YNull
        | None => YNull
        end
    end.
Proof.
  unfold getYearFromFile, dateText.
  destruct (date f) as [[|c d]|]; reflexivity.
Qed.

(** ** The per-year tallies *)

Lemma countWhere_ext {X : Type} (p q : X -> bool) (xs : list X) :
  (forall x, In x xs -> p x = q x) -> countWhere p xs = countWhere q xs.
Proof.
  unfold countWhere. induction xs as [|x xs IH]; simpl; intros H; [reflexivity|].
  rewrite (H x) by now left.
  destruct (q x); simpl; rewrite IH; auto.
Qed.

Lemma countWhere_map {X Y : Type} (g : X -> Y) (p : Y -> bool) (xs : list X) :
  countWhere p (map g xs) = countWhere (fun x => p (g x)) xs.
Proof.
  unfold countWhere. induction xs as [|x xs IH]; simpl; [reflexivity|].
  destruct (p (g x)); simpl; now rewrite IH.
Qed.

Lemma countWhere_pos {X : Type} (p : X -> bool) (xs : list X) :
  0 < countWhere p xs <-> exists x, In x xs /\ p x = true.
Proof.
  unfold countWhere. split.
  - destruct (filter p xs) as [|x l] eqn:E; simpl; [lia|]. intros _.
    assert (Hin : In x (filter p xs)) by (rewrite E; now left).
    apply filter_In in Hin. eauto.
  - intros (x & Hin & Hp).
    assert (Hf : In x (filter p xs)) by now apply filter_In.
    destruct (filter p xs); simpl; [contradiction | lia].
Qed.

Lemma Z_eqb_eq (a b : Z) : (a =? b)%Z = true <-> a = b.
Proof. apply Z.eqb_eq. Qed.

Lemma tallyYears_keys (ys : list JsYear) :
  tallyYears ys = fold_left (tally Z.eqb) (keysOf yearKey ys) [].
Proof.
  unfold tallyYears. rewrite <- (fold_keyed Z.eqb yearKey ys []).
  generalize (@nil (Z * nat)).
  induction ys as [|y ys IH]; intros o; simpl; [reflexivity|].
  rewrite IH. destruct y as [| |n]; try reflexivity.
  unfold yearKey, tallyYear. now destruct (truthyYear (YNum n)).
Qed.

Lemma tallyYears_spec (ys : list JsYear) (y : Z) (n : nat) :
  In (y, n) (tallyYears ys)
  <-> y <> 0%Z /\ n = countWhere (yearIs y) ys /\ 0 < n.
Proof.
  rewrite tallyYears_keys, (fold_tally_spec Z.eqb Z_eqb_eq),
    (occurrences_keysOf Z.eqb).
  set (p := fun x => match yearKey x with Some k' => (y =? k')%Z | None => false end).
  destruct (Z.eq_dec y 0) as [->|Hy].
  - assert (Hzero : countWhere p ys = 0).
    { unfold countWhere. replace (filter p ys) with (@nil JsYear); [reflexivity|].
      symmetry. induction ys as [|v ys IH]; simpl; [reflexivity|].
      replace (p v) with false; [exact IH|].
      unfold p, yearKey, truthyYear. destruct v as [| |m]; try reflexivity.
      destruct (Z.eqb_spec m 0); cbn [negb]; [reflexivity|].
      symmetry. apply Z.eqb_neq. congruence. }
    rewrite Hzero. split; [lia | tauto].
  - rewrite (countWhere_ext p (yearIs y)); [tauto|].
    intros v _. unfold p, yearKey, yearIs, truthyYear.
    destruct v as [| |m]; try reflexivity.
    destruct (Z.eqb_spec m 0) as [->|Hm]; cbn [negb].
    + symmetry. apply Z.eqb_neq. congruence.
    + apply Z.eqb_sym.
Qed.

Lemma tallyYears_NoDup (ys : list JsYear) : NoDup (map fst (tallyYears ys)).
Proof.
  rewrite tallyYears_keys. apply (fold_tally_NoDup Z.eqb Z_eqb_eq). constructor.
Qed.

Lemma byYearAsc_total (a b : Z * nat) : byYearAsc a b = false -> byYearAsc b a = true.
Proof. unfold byYearAsc. rewrite Z.leb_gt, Z.leb_le. lia. Qed.

Lemma byYearAsc_trans (a b c : Z * nat) :
  byYearAsc a b = true -> byYearAsc b c = true -> byYearAsc a c = true.
Proof. unfold byYearAsc. rewrite !Z.leb_le. lia. Qed.

Lemma sorted_distinct_strict (l : list (Z * nat)) :
  StronglySorted (fun a b => byYearAsc a b = true) l ->
  NoDup (map fst l) ->
  StronglySorted (fun a b => (fst a < fst b)%Z) l.
Proof.
  induction 1 as [|a l Hl IH Ha]; simpl; intros Hnd; constructor.
  - apply IH. now inversion Hnd.
  - inversion Hnd as [|? ? Hnotin _]; subst.
    rewrite Forall_forall in *. intros b Hb.
    specialize (Ha b Hb). unfold byYearAsc in Ha. apply Z.leb_le in Ha.
    assert (fst a <> fst b) by (intros Heq; apply Hnotin; rewrite Heq; now apply in_map).
    lia.
Qed.

(** The entries of either year chart: one per non-zero year that occurs,
    with the number of its occurrences, in strictly ascending order. *)
Lemma yearEntries_spec (ys : list JsYear) :
  StronglySorted (fun a b => (fst a < fst b)%Z) (yearEntries ys)
  /\ forall y n,
       In (y, n) (yearEntries ys)
       <-> y <> 0%Z /\ n = countWhere (yearIs y) ys /\ 0 < n.
Proof.
  unfold yearEntries. split.
  - apply sorted_distinct_strict.
    + apply sortBy_sorted; [exact byYearAsc_total | exact byYearAsc_trans].
    + eapply Permutation_NoDup; [|apply tallyYears_NoDup].
      apply Permutation_map. symmetry. apply sortBy_perm.
  - intros y n. rewrite sortBy_In. apply tallyYears_spec.
Qed.

(** ** Objects that hold a tally *)

Local Open Scope nat_scope.

Lemma string_eqb_eq (a b : string) : (a =? b)%string = true <-> a = b.
Proof. apply String.eqb_eq. Qed.

Lemma own_asObject (o : list (string * nat)) (k : string) :
  own (asObject o) k = option_map VNum (lookup String.eqb o k).
Proof.
  induction o as [|[k' n] o IH]; simpl; [reflexivity|].
  destruct (k' =? k)%string; [reflexivity | exact IH].
Qed.

Lemma setOwn_asObject_present (o : list (string * nat)) (k : string) (n : nat) :
  lookup String.eqb o k = Some n ->
  setOwn (asObject o) k (VNum (n + 1)) = asObject (tally String.eqb o k).
Proof.
  induction o as [|[k' m] o IH]; simpl; [discriminate|].
  destruct (k' =? k)%string; simpl.
  - now intros [= ->].
  - intros H. now rewrite IH.
Qed.

Lemma setOwn_asObject_absent (o : list (string * nat)) (k : string) :
  lookup String.eqb o k = None ->
  setOwn (asObject o) k (VNum 1) = asObject (tally String.eqb o k).
Proof.
  induction o as [|[k' m] o IH]; simpl; [reflexivity|].
  destruct (k' =? k)%string; simpl; [discriminate|].
  intros H. now rewrite IH.
Qed.

(** On a key that is not an inherited name, the assignment
    [o[k] = (o[k]||0)+1] is a plain tally step. *)
Lemma bump_asObject (o : list (string * nat)) (k : string) :
  inheritedKey k = false ->
  bump (asObject o) k = asObject (tally String.eqb o k).
Proof.
  intros Hk. unfold bump, js_get. rewrite own_asObject, Hk.
  destruct (lookup String.eqb o k) as [n|] eqn:E; simpl.
  - now apply setOwn_asObject_present.
  - now apply setOwn_asObject_absent.
Qed.

Lemma fold_bump_asObject (ks : list string) (o : list (string * nat)) :
  Forall (fun k => inheritedKey k = false) ks ->
  fold_left bump ks (asObject o) = asObject (fold_left (tally String.eqb) ks o).
Proof.
  intros H. revert o. induction H as [|k ks Hk _ IH]; intros o; simpl.
  - reflexivity.
  - now rewrite bump_asObject, IH.
Qed.

Lemma sortBy_map {A B : Type} (f : A -> B) (leA : A -> A -> bool)
      (leB : B -> B -> bool) (l : list A) :
  (forall a b, leB (f a) (f b) = leA a b) ->
  sortBy leB (map f l) = map f (sortBy leA l).
Proof.
  intros Hle. induction l as [|x l IH]; simpl; [reflexivity|].
  rewrite IH. generalize (sortBy leA l) as s.
  induction s as [|y s IHs]; simpl; [reflexivity|].
  rewrite Hle. destruct (leA x y); simpl; [reflexivity | now rewrite IHs].
Qed.

Lemma filter_map_comm {A B : Type} (f : A -> B) (p : B -> bool) (l : list A) :
  filter p (map f l) = map f (filter (fun a => p (f a)) l).
Proof.
  induction l as [|x l IH]; simpl; [reflexivity|].
  destruct (p (f x)); simpl; now rewrite IH.
Qed.

Lemma Object_entries_asObject (o : list (string * nat)) :
  Object_entries (asObject o) = asObject (Object_entries o).
Proof.
  unfold Object_entries, asObject.
  rewrite map_app, !filter_map_comm.
  f_equal. now apply sortBy_map.
Qed.

Lemma numericEntries_asObject (o : list (string * nat)) :
  numericEntries (asObject o) = Some o.
Proof.
  induction o as [|[k n] o IH]; [reflexivity|].
  change (numericEntries ((k, VNum n) :: asObject o) = Some ((k, n) :: o)).
  cbn [numericEntries]. now rewrite IH.
Qed.

Lemma filter_partition_perm {A : Type} (p : A -> bool) (l : list A) :
  Permutation (filter p l ++ filter (fun x => negb (p x)) l) l.
Proof.
  induction l as [|x l IH]; simpl; [reflexivity|].
  destruct (p x); simpl.
  - now constructor.
  - rewrite <- Permutation_middle. now constructor.
Qed.

(** [Object.entries] lists every own property once. *)
Lemma Object_entries_perm {V : Type} (o : JsObject V) :
  Permutation (Object_entries o) o.
Proof.
  unfold Object_entries. rewrite sortBy_perm. apply filter_partition_perm.
Qed.

Lemma inheritedKey_durationLabel (d : Z) : inheritedKey (durationLabel d) = false.
Proof.
  unfold durationLabel.
  repeat match goal with |- context [if ?b then _ else _] => destruct b end;
    reflexivity.
Qed.

Lemma fold_left_map {A B C : Type} (f : A -> B -> A) (g : C -> B)
      (l : list C) (a : A) :
  fold_left (fun acc x => f acc (g x)) l a = fold_left f (map g l) a.
Proof.
  revert a. induction l as [|x l IH]; intros a; simpl; [reflexivity | apply IH].
Qed.

(** The duration tally as a tally of labels. *)
Lemma durationCounts_tally (files : option (list File)) (g : Selection) :
  durationCounts files g
  = asObject (fold_left (tally String.eqb)
                        (map fileDurationLabel (getFilteredFiles files g)) []).
Proof.
  unfold durationCounts.
  rewrite (fold_left_map bump fileDurationLabel).
  apply (fold_bump_asObject _ []).
  apply Forall_forall. intros k Hk. apply in_map_iff in Hk as (f & <- & _).
  apply inheritedKey_durationLabel.
Qed.

Lemma occurrences_map {X : Type} (key : X -> string) (xs : list X) (k : string) :
  occurrences String.eqb k (map key xs)
  = countWhere (fun x => (key x =? k)%string) xs.
Proof.
  unfold occurrences, countWhere.
  induction xs as [|x xs IH]; simpl; [reflexivity|].
  rewrite String.eqb_sym. destruct (key x =? k)%string; simpl; now rewrite IH.
Qed.

(** Each label holds the number of shown files that carry it, and a
    label that no file carries is not a property at all. *)
Lemma own_durationCounts (files : option (list File)) (g : Selection) (L : string) :
  own (durationCounts files g) L
  = match countWhere (fun f => (fileDurationLabel f =? L)%string)
                     (getFilteredFiles files g) with
    | 0 => None
    | n => Some (VNum n)
    end.
Proof.
  rewrite durationCounts_tally, own_asObject,
    (lookup_fold_tally String.eqb string_eqb_eq), occurrences_map.
  simpl. now destruct (countWhere _ _).
Qed.

(** The artist tally as a tally of artist names. *)
Lemma artistCounts_keys (files : option (list File)) (g : Selection) :
  artistCounts files g
  = fold_left bump (keysOf artistKey (getFilteredFiles files g)) [].
Proof.
  unfold artistCounts. generalize (@nil (string * JsVal)).
  induction (getFilteredFiles files g) as [|f fs IH]; intros o; [reflexivity|].
  cbn [fold_left]. rewrite IH. unfold keysOf. cbn [flat_map].
  unfold artistKey at 2. destruct (artist f) as [a|]; [|reflexivity].
  destruct (truthyString a); reflexivity.
Qed.

Lemma keysOf_artistKey (fs : list File) (a : string) :
  In a (keysOf artistKey fs) ->
  exists f, In f fs /\ artist f = Some a /\ a <> EmptyString.
Proof.
  unfold keysOf. rewrite in_flat_map. intros (f & Hf & Ha).
  unfold artistKey in Ha. destruct (artist f) as [a'|] eqn:Ea; [|contradiction].
  destruct (truthyString a') eqn:Et; [|contradiction].
  destruct Ha as [->|[]]. exists f. repeat split; auto.
  now apply truthyString_true.
Qed.

Lemma occurrences_artistKey (fs : list File) (a : string) :
  a <> EmptyString ->
  occurrences String.eqb a (keysOf artistKey fs) = countWhere (artistIs a) fs.
Proof.
  intros Ha. rewrite (occurrences_keysOf String.eqb).
  apply countWhere_ext. intros f _. unfold artistKey, artistIs.
  destruct (artist f) as [a'|]; [|reflexivity].
  destruct (truthyString a') eqn:Et.
  - apply String.eqb_sym.
  - destruct a'; [|discriminate Et]. symmetry.
    apply String.eqb_neq. congruence.
Qed.

(** ** The Genre Matcher and the Filter Engine *)

Example fileHasGenre_rockPop_pop : fileHasGenre (Some rockPop) "pop" = true.
Proof. reflexivity. Qed.

Example fileHasGenre_target_not_split :
  fileHasGenre (Some rock) "rock, jazz" = false
  /\ fileHasGenre (Some rock) "pop" = false.
Proof. split; reflexivity. Qed.

Lemma fileHasGenre_empty_target (file : option File) :
  fileHasGenre file EmptyString = false.
Proof.
  destruct file as [f|]; [|reflexivity].
  destruct (fileHasGenre (Some f) EmptyString) eqn:E; [|reflexivity].
  apply fileHasGenre_Matches in E as (p & (fg & q & _ & _ & _ & Hne) & Heq).
  inversion Heq; subst. now elim Hne.
Qed.

Lemma getFilteredFiles_default (fs : list File) (g : Selection) :
  negb (truthySelection g) || selectionIs g ALL = true ->
  getFilteredFiles (Some fs) g = filter excludeUnknown fs.
Proof. unfold getFilteredFiles. now intros ->. Qed.

Lemma getFilteredFiles_specific (fs : list File) (g : string) :
  SpecificGenre g ->
  getFilteredFiles (Some fs) (SelString g)
  = filter (fun f => fileHasGenre (Some f) g) fs.
Proof.
  intros [Hne Hall]. unfold getFilteredFiles. simpl.
  apply truthyString_true in Hne. rewrite Hne.
  apply String.eqb_neq in Hall. now rewrite Hall.
Qed.

Example getFilteredFiles_default_sample :
  getFilteredFiles (Some [unknownGenre; rock; noGenre; emptyGenre; rockPop;
                          jazzOrUnknown])
                   (SelString ALL)
  = [rock; rockPop].
Proof. reflexivity. Qed.

Example getFilteredFiles_specific_sample :
  getFilteredFiles (Some [unknownGenre; rock; noGenre; emptyGenre; rockPop;
                          jazzOrUnknown])
                   (SelString "UNKNOWN")
  = [unknownGenre; jazzOrUnknown].
Proof. reflexivity. Qed.

(** C1. With the ["__all__"] sentinel, [getFilteredFiles] returns
    exactly the files whose genre field is present and none of whose
    separator-split, trimmed parts equals "unknown" up to case, in the
    order of the list; a file with an empty or absent genre is not
    returned. *)
Theorem getFilteredFiles_all_is_default_view :
  forall fs : list File,
    Selects KnownGenre fs (getFilteredFiles (Some fs) (SelString ALL))
    /\ forall f, In f (getFilteredFiles (Some fs) (SelString ALL)) ->
                 genre f <> None /\ genre f <> Some EmptyString.
Proof.
  intros fs. rewrite getFilteredFiles_default by reflexivity. split.
  - apply Selects_filter, excludeUnknown_KnownGenre.
  - intros f Hin. apply filter_In in Hin as [_ Hk].
    apply excludeUnknown_KnownGenre in Hk as [(fg & Hg & Hne) _].
    rewrite Hg. split; congruence.
Qed.

(** C2. For a specific genre [g] (neither falsy nor the sentinel),
    [getFilteredFiles] returns exactly the files for which
    [fileHasGenre] answers true for [g], in the order of the list: the
    exclusion of "unknown" plays no part, and a file whose genre is
    literally "Unknown" is returned for the selection "Unknown" although
    the default view leaves it out.  The result is a value computed from
    the two arguments alone. *)
Theorem getFilteredFiles_specific_is_matcher :
  forall (fs : list File) (g : string),
    SpecificGenre g ->
    Selects (fun f => fileHasGenre (Some f) g = true) fs
            (getFilteredFiles (Some fs) (SelString g))
    /\ Selects (fun f => Matches f g) fs (getFilteredFiles (Some fs) (SelString g))
    /\ forall f, In f fs -> genre f = Some "Unknown" ->
                 In f (getFilteredFiles (Some fs) (SelString "Unknown"))
                 /\ ~ In f (getFilteredFiles (Some fs) (SelString ALL)).
Proof.
  intros fs g Hg. rewrite (getFilteredFiles_specific fs g Hg).
  split; [|split].
  - apply Selects_filter. tauto.
  - apply Selects_filter. intros f. apply fileHasGenre_Matches.
  - intros f Hin Hu.
    rewrite getFilteredFiles_specific by (split; discriminate).
    rewrite getFilteredFiles_default by reflexivity.
    rewrite !filter_In. unfold fileHasGenre, excludeUnknown. rewrite Hu.
    split; [split; [assumption | reflexivity]|].
    intros [_ H]. discriminate H.
Qed.

Lemma getFilteredFiles_specific_is_matcher_witness :
  SpecificGenre "Unknown"
  /\ Selects (fun f => fileHasGenre (Some f) "Unknown" = true)
             [unknownGenre; rock; noGenre]
             (getFilteredFiles (Some [unknownGenre; rock; noGenre])
                               (SelString "Unknown")).
Proof.
  split.
  - split; discriminate.
  - apply (getFilteredFiles_specific_is_matcher
             [unknownGenre; rock; noGenre] "Unknown").
    split; discriminate.
Defined.

(** An IDEOGRAPHIC SPACE and a NO-BREAK SPACE around the parts are
    trimmed like any other white space. *)
Example genreParts_wide_spaces :
  Utf16.genreParts (units "Rock" ++ [12288%N] ++ units ";" ++ [160%N] ++ units "Pop")
  = [units "Rock"; units "Pop"].
Proof. reflexivity. Qed.

(** A genre written in Cyrillic matches itself, whatever the host's
    lower-casing. *)
Example fileHasGenre_wide_same_text (lower : Utf16.Text -> Utf16.Text) :
  Utf16.fileHasGenre lower
    (Some (Utf16.mkFile (Some [1056; 1086; 1082]%N) None None None None))
    [1056; 1086; 1082]%N
  = true.
Proof.
  apply fileHasGenre_parts_wide.
  exists [1056; 1086; 1082]%N, [1056; 1086; 1082]%N, [1056; 1086; 1082]%N.
  split; [reflexivity|].
  split; [apply split_Segment_wide; [discriminate | now left]|].
  split; [now apply Trimmed_trim_wide|].
  split; [discriminate | reflexivity].
Qed.

(** C3. [fileHasGenre] answers true exactly when some part of the
    file's genre field (cut at any of [, ; / |], trimmed and non-empty)
    equals the whole target up to case, which is to say that the two
    have the same lower-case form; the target is never split, and a
    file without a genre field matches nothing.  This holds on texts of
    any code units, whatever the host's lower-casing of the texts that
    reach beyond U+00FF.  On texts below U+0100 the same lower-case
    form means the same letters, one by one, up to case; and
    [fileHasGenre] on the texts of the embedding is this function on
    those texts. *)
Theorem fileHasGenre_some_part_equals_target :
  forall lower : Utf16.Text -> Utf16.Text,
    (forall (f : Utf16.File) (g : Utf16.Text),
        (Utf16.fileHasGenre lower (Some f) g = true <->
         exists fg q p,
           Utf16.genre f = Some fg /\ Utf16.Segment fg q /\ Utf16.Trimmed q p
           /\ p <> []
           /\ Utf16.toLowerCase lower p = Utf16.toLowerCase lower g)
        /\ (Utf16.genre f = None -> Utf16.fileHasGenre lower (Some f) g = false))
    /\ (forall a b : Utf16.Text,
           Utf16.Latin1 a -> Utf16.Latin1 b ->
           (Utf16.toLowerCase lower a = Utf16.toLowerCase lower b
            <-> Utf16.EqIgnoreCase a b))
    /\ (forall (f : File) (g : string),
           fileHasGenre (Some f) g
           = Utf16.fileHasGenre lower (Some (wide f)) (units g)).
Proof.
  intros lower. split; [|split].
  - intros f g. split.
    + apply fileHasGenre_parts_wide.
    + unfold Utf16.fileHasGenre. now intros ->.
  - intros a b. apply toLowerCase_eq_wide.
  - intros f g. symmetry. apply fileHasGenre_units.
Qed.

(** C10. A falsy selection ([null], [undefined] or the empty string) is
    handled exactly as the ["__all__"] sentinel: the default view with
    its exclusion of "unknown" is returned, whereas matching the empty
    string as a genre name would select no file at all. *)
Theorem getFilteredFiles_falsy_is_all :
  forall files : option (list File),
    getFilteredFiles files SelNull = getFilteredFiles files (SelString ALL)
    /\ getFilteredFiles files SelUndefined = getFilteredFiles files (SelString ALL)
    /\ getFilteredFiles files (SelString EmptyString)
       = getFilteredFiles files (SelString ALL)
    /\ match files with
       | Some fs =>
           Selects KnownGenre fs (getFilteredFiles files (SelString EmptyString))
       | None => getFilteredFiles files (SelString EmptyString) = []
       end
    /\ forall f, fileHasGenre f EmptyString = false.
Proof.
  intros [fs|]; repeat split; try reflexivity.
  - rewrite getFilteredFiles_default by reflexivity.
    apply Selects_filter, excludeUnknown_KnownGenre.
  - apply fileHasGenre_empty_target.
  - apply fileHasGenre_empty_target.
Qed.

(** ** The Year Extractor and the two year charts *)

Example getYearFromFile_released1998 :
  getYearFromFile UTC (Some released1998) = YNum 1998.
Proof. reflexivity. Qed.

Example getYearFromFile_modified2001 :
  getYearFromFile UTC (Some modified2001) = YNum 2001.
Proof. reflexivity. Qed.

(** C4, as stated, fails: with no year in the date text and
    [mtime_epoch] present and equal to 0, whose calendar year is 1970,
    [getYearFromFile] returns [null]. *)
Lemma getYearFromFile_epoch_mtime_is_absent :
  NoYearToken (dateText epochFile)
  /\ mtime_epoch epochFile = Some 0%Z
  /\ LocalCalendarYear UTC (0 * 1000) 1970
  /\ getFullYear UTC (0 * 1000) = YNum 1970
  /\ yearOf_claimed UTC epochFile = YNum 1970
  /\ getYearFromFile UTC (Some epochFile) = YNull
  /\ getYearFromFile UTC (Some epochFile) <> yearOf_claimed UTC epochFile.
Proof.
  split; [now apply matchYear_None|]. split; [reflexivity|].
  split; [apply YearFromTime_CalendarYear; reflexivity|].
  repeat split; try reflexivity; discriminate.
Qed.

Lemma yearIs_YNum (y : Z) (v : JsYear) : yearIs y v = true <-> v = YNum y.
Proof.
  destruct v as [| |m]; simpl; [split; discriminate | split; discriminate |].
  rewrite Z.eqb_eq. split; [now intros -> | now intros [= ->]].
Qed.

Lemma Selects_countWhere {A : Type} (P : A -> Prop) (p : A -> bool)
      (l : list A) (n : nat) :
  (forall x, p x = true <-> P x) ->
  (n = countWhere p l <-> exists r, Selects P l r /\ n = List.length r).
Proof.
  intros Hp. unfold countWhere. split.
  - intros ->. exists (filter p l). split; [now apply Selects_filter | reflexivity].
  - intros (r & Hr & ->). f_equal.
    exact (Selects_unique P l _ _ Hr (Selects_filter P p l Hp)).
Qed.

(** C4, amended.  [getYearFromFile] returns the number written by the
    first 4-digit sequence beginning with "19" or "20" of the date text
    when there is one.  Otherwise, when [mtime_epoch] is present and
    not zero, it returns the calendar year in which that many seconds
    after the epoch fall on the local clock, provided the instant is
    one that a Date can hold, and NaN when it is not.  Otherwise (no
    token, and [mtime_epoch] missing or zero) it returns [null].  The
    year histogram counts under a year exactly the shown files for
    which [getYearFromFile] returns that number, and has no entry for
    0: a file whose year is absent, NaN or 0 is in no bucket. *)
Theorem getYearFromFile_date_then_nonzero_mtime :
  forall LocalTZA : Z -> Z,
    (forall f : File,
        (forall t y, FirstYearToken (dateText f) t -> YearTokenOf t y ->
                     getYearFromFile LocalTZA (Some f) = YNum y
                     /\ (1900 <= y <= 2099)%Z)
        /\ (NoYearToken (dateText f) ->
            forall t, mtime_epoch f = Some t -> t <> 0%Z ->
              (InDateRange (t * 1000) ->
               exists y,
                 getYearFromFile LocalTZA (Some f) = YNum y
                 /\ LocalCalendarYear LocalTZA (t * 1000) y
                 /\ forall y', LocalCalendarYear LocalTZA (t * 1000) y' -> y' = y)
              /\ (~ InDateRange (t * 1000) ->
                  getYearFromFile LocalTZA (Some f) = YNaN))
        /\ (NoYearToken (dateText f) ->
            mtime_epoch f = None \/ mtime_epoch f = Some 0%Z ->
            getYearFromFile LocalTZA (Some f) = YNull))
    /\ forall (files : option (list File)) (g : Selection) (y : Z) (n : nat),
         In (y, n) (renderYearHistogramFromFiles_entries LocalTZA files g)
         <-> y <> 0%Z /\ 0 < n
             /\ exists r,
                  Selects (fun f => getYearFromFile LocalTZA (Some f) = YNum y)
                          (getFilteredFiles files g) r
                  /\ n = List.length r.
Proof.
  intros LocalTZA. split.
  - intros f. rewrite getYearFromFile_scan. split; [|split].
    + intros t y Hfirst Hy.
      apply matchYear_Some in Hfirst. rewrite Hfirst.
      destruct (YearTokenOf_toNumber t y Hy) as [-> Hrange]. now split.
    + intros Hnone t Ht Hne. apply matchYear_None in Hnone.
      rewrite Hnone, Ht. apply Z.eqb_neq in Hne. rewrite Hne. cbn [negb].
      destruct (getFullYear_LocalCalendarYear LocalTZA (t * 1000)) as [Hin Hout].
      split; [|exact Hout]. intros Hr.
      destruct (getFullYear LocalTZA (t * 1000)) as [| |y] eqn:Ey.
      * exfalso. unfold getFullYear in Ey.
        destruct (TimeClip (t * 1000)); discriminate Ey.
      * exfalso. unfold getFullYear in Ey.
        destruct (TimeClip_InDateRange (t * 1000)) as [Hclip _].
        apply Hclip in Hr. rewrite Hr in Ey. discriminate Ey.
      * exists y. split; [reflexivity|].
        assert (Hy : LocalCalendarYear LocalTZA (t * 1000) y)
          by now apply (Hin Hr y).
        split; [exact Hy|]. intros y' Hy'.
        exact (CalendarYear_unique _ _ _ Hy' Hy).
    + intros Hnone Hm. apply matchYear_None in Hnone. rewrite Hnone.
      destruct Hm as [-> | ->]; reflexivity.
  - intros files g y n. unfold renderYearHistogramFromFiles_entries.
    destruct (yearEntries_spec
                (map (fun f => getYearFromFile LocalTZA (Some f))
                     (getFilteredFiles files g))) as [_ H].
    rewrite H, countWhere_map.
    rewrite (Selects_countWhere
               (fun f => getYearFromFile LocalTZA (Some f) = YNum y)
               (fun f => yearIs y (getYearFromFile LocalTZA (Some f)))
               (getFilteredFiles files g) n
               (fun f => yearIs_YNum y (getYearFromFile LocalTZA (Some f)))).
    tauto.
Qed.

Lemma getYearFromFile_date_then_nonzero_mtime_witness :
  (FirstYearToken (dateText released1998) "1998" /\ YearTokenOf "1998" 1998
   /\ getYearFromFile UTC (Some released1998) = YNum 1998)
  /\ (NoYearToken (dateText modified2001)
      /\ mtime_epoch modified2001 = Some 1000000000%Z
      /\ InDateRange (1000000000 * 1000)
      /\ LocalCalendarYear UTC (1000000000 * 1000) 2001
      /\ getYearFromFile UTC (Some modified2001) = YNum 2001).
Proof.
  assert (H1 : FirstYearToken (dateText released1998) "1998")
    by (apply matchYear_Some; reflexivity).
  assert (H2 : YearTokenOf "1998" 1998).
  { exists "9"%char, "8"%char, 9%Z, 8%Z.
    split; [unfold DigitOf; cbn [In]; auto 12|].
    split; [unfold DigitOf; cbn [In]; auto 12|].
    left. split; reflexivity. }
  assert (H3 : NoYearToken (dateText modified2001))
    by (apply matchYear_None; reflexivity).
  assert (H4 : mtime_epoch modified2001 = Some 1000000000%Z) by reflexivity.
  assert (H5 : (1000000000 <> 0)%Z) by discriminate.
  assert (H6 : InDateRange (1000000000 * 1000)) by (unfold InDateRange; lia).
  assert (H7 : LocalCalendarYear UTC (1000000000 * 1000) 2001)
    by (apply YearFromTime_CalendarYear; reflexivity).
  pose proof (getYearFromFile_date_then_nonzero_mtime UTC) as [Hfile _].
  split.
  - split; [exact H1|]. split; [exact H2|].
    exact (proj1 (proj1 (Hfile released1998) "1998" 1998%Z H1 H2)).
  - split; [exact H3|]. split; [exact H4|]. split; [exact H6|]. split; [exact H7|].
    destruct (proj1 (proj1 (proj2 (Hfile modified2001)) H3 1000000000%Z H4 H5) H6)
      as (y & Hy & _ & Honly).
    rewrite Hy. f_equal. symmetry. exact (Honly 2001%Z H7).
Defined.

(** A file is counted under [y] by line 236 exactly when it counts as
    added in [y]. *)
Lemma addedYear_AddedIn (LocalTZA : Z -> Z) (f : File) (y : Z) :
  yearIs y (addedYear LocalTZA f) = true <-> AddedIn LocalTZA f y.
Proof.
  unfold addedYear, AddedIn.
  assert (Hm : forall t,
             (mtime_epoch f = Some t \/ (mtime_epoch f = None /\ t = 0%Z))
             <-> t = mtimeOrZero f).
  { intros t. unfold mtimeOrZero. destruct (mtime_epoch f) as [t'|]; split.
    - intros [[= ->]|[H _]]; [reflexivity | discriminate H].
    - intros ->. now left.
    - intros [H|[_ ->]]; [discriminate H | reflexivity].
    - intros ->. now right. }
  destruct (getFullYear_LocalCalendarYear LocalTZA (mtimeOrZero f * 1000))
    as [Hin Hout].
  assert (Hyear : yearIs y (getFullYear LocalTZA (mtimeOrZero f * 1000)) = true
                  <-> getFullYear LocalTZA (mtimeOrZero f * 1000) = YNum y).
  { unfold yearIs.
    destruct (getFullYear LocalTZA (mtimeOrZero f * 1000)) as [| |m];
      [split; discriminate | split; discriminate |].
    rewrite Z.eqb_eq. split; [now intros -> | now intros [= ->]]. }
  rewrite Hyear. split.
  - intros Hy. exists (mtimeOrZero f). split; [now apply Hm|].
    assert (Hr : InDateRange (mtimeOrZero f * 1000)).
    { destruct (TimeClip_InDateRange (mtimeOrZero f * 1000)) as [Hclip Hnone].
      apply Hclip. unfold getFullYear in Hy. unfold TimeClip in *.
      destruct (Z.abs (mtimeOrZero f * 1000) <=? 8640000000000000)%Z;
        [reflexivity | discriminate Hy]. }
    split; [exact Hr|]. now apply (Hin Hr y).
  - intros (t & Ht & Hr & Hy). apply Hm in Ht. subst t. now apply (Hin Hr y).
Qed.

(** C9, as stated, fails: a file whose [mtime_epoch] falls in the year 0
    of the calendar (here its first second, 62167219200 seconds before
    the epoch) is shown, is counted by no entry of the added-timeline,
    and so is dropped. *)
Lemma addedTimeline_drops_year_zero :
  getFilteredFiles (Some [yearZeroFile]) (SelString ALL) = [yearZeroFile]
  /\ mtime_epoch yearZeroFile = Some (- 62167219200)%Z
  /\ AddedIn UTC yearZeroFile 0
  /\ renderAddedTimelineFromFiles_entries UTC (Some [yearZeroFile]) (SelString ALL)
     = []
  /\ ~ NoneDropped UTC
        (getFilteredFiles (Some [yearZeroFile]) (SelString ALL))
        (renderAddedTimelineFromFiles_entries
           UTC (Some [yearZeroFile]) (SelString ALL)).
Proof.
  assert (Hadded : AddedIn UTC yearZeroFile 0).
  { exists (- 62167219200)%Z. split; [now left|].
    split; [unfold InDateRange; lia|].
    apply YearFromTime_CalendarYear. reflexivity. }
  split; [reflexivity|]. split; [reflexivity|]. split; [exact Hadded|].
  split; [reflexivity|].
  intros Hnone.
  destruct (Hnone yearZeroFile 0%Z (or_introl eq_refl) Hadded) as (n & Hin & _).
  exact Hin.
Qed.

(** C9, amended.  The added-timeline lists years in strictly ascending
    order, each with the number of shown files that count as added in
    it: those whose [mtime_epoch], read as 0 when missing, is an
    instant that a Date can hold and falls in that year on the local
    clock.  There is no entry for the year 0, so that files of the year
    0, like files beyond the range of a Date, are dropped.  Where local
    time is less than a day from UTC, a shown file without
    [mtime_epoch] is counted under the local year of the epoch (1970,
    or 1969 behind UTC). *)
Theorem addedTimeline_groups_by_mtime_year :
  forall (LocalTZA : Z -> Z) (files : option (list File)) (g : Selection),
    (- 86400000 < LocalTZA 0 < 86400000)%Z ->
    StronglySorted (fun a b => (fst a < fst b)%Z)
                   (renderAddedTimelineFromFiles_entries LocalTZA files g)
    /\ (forall y n,
           In (y, n) (renderAddedTimelineFromFiles_entries LocalTZA files g)
           <-> y <> 0%Z /\ 0 < n
               /\ exists r,
                    Selects (fun f => AddedIn LocalTZA f y)
                            (getFilteredFiles files g) r
                    /\ n = List.length r)
    /\ exists epochYear,
         (epochYear = 1969 \/ epochYear = 1970)%Z
         /\ LocalCalendarYear LocalTZA 0 epochYear
         /\ forall f, In f (getFilteredFiles files g) -> mtime_epoch f = None ->
                      AddedIn LocalTZA f epochYear
                      /\ exists n,
                           In (epochYear, n)
                              (renderAddedTimelineFromFiles_entries LocalTZA files g)
                           /\ 0 < n.
Proof.
  intros LocalTZA files g Hzone.
  unfold renderAddedTimelineFromFiles_entries.
  destruct (yearEntries_spec (map (addedYear LocalTZA) (getFilteredFiles files g)))
    as [Hsorted Hentries].
  assert (Hcount : forall y n,
             In (y, n) (yearEntries (map (addedYear LocalTZA) (getFilteredFiles files g)))
             <-> y <> 0%Z /\ 0 < n
                 /\ exists r,
                      Selects (fun f => AddedIn LocalTZA f y)
                              (getFilteredFiles files g) r
                      /\ n = List.length r).
  { intros y n. rewrite Hentries, countWhere_map.
    rewrite (Selects_countWhere (fun f => AddedIn LocalTZA f y)
               (fun f => yearIs y (addedYear LocalTZA f))
               (getFilteredFiles files g) n
               (fun f => addedYear_AddedIn LocalTZA f y)).
    tauto. }
  split; [exact Hsorted|]. split; [exact Hcount|].
  assert (exists y0, (y0 = 1969 \/ y0 = 1970)%Z /\ getFullYear LocalTZA 0 = YNum y0)
    as (y0 & Hy0 & Hepoch)
      by (destruct (getFullYear_epoch LocalTZA Hzone); eauto).
  assert (Hrange0 : InDateRange 0) by (unfold InDateRange; lia).
  assert (Hlocal : LocalCalendarYear LocalTZA 0 y0)
    by now apply (proj1 (getFullYear_LocalCalendarYear LocalTZA 0) Hrange0 y0).
  exists y0. split; [exact Hy0|]. split; [exact Hlocal|].
  intros f Hin Hf.
  assert (Hadded : AddedIn LocalTZA f y0).
  { exists 0%Z. split; [now right|]. split; assumption. }
  split; [exact Hadded|].
  exists (List.length (filter (fun f => yearIs y0 (addedYear LocalTZA f))
                              (getFilteredFiles files g))).
  assert (Hpos : 0 < countWhere (fun f => yearIs y0 (addedYear LocalTZA f))
                                (getFilteredFiles files g)).
  { apply countWhere_pos. exists f. split; [exact Hin|].
    now apply addedYear_AddedIn. }
  split; [|exact Hpos]. apply Hcount.
  split; [lia|]. split; [exact Hpos|].
  exists (filter (fun f => yearIs y0 (addedYear LocalTZA f)) (getFilteredFiles files g)).
  split; [|reflexivity].
  apply Selects_filter. intros x. apply addedYear_AddedIn.
Qed.

Lemma addedTimeline_groups_by_mtime_year_witness :
  (- 86400000 < UTC 0 < 86400000)%Z
  /\ forall y n,
       In (y, n) (renderAddedTimelineFromFiles_entries
                    UTC (Some [modified2001; rock; epochFile]) (SelString ALL))
       <-> y <> 0%Z /\ 0 < n
           /\ exists r,
                Selects (fun f => AddedIn UTC f y)
                        (getFilteredFiles (Some [modified2001; rock; epochFile])
                                          (SelString ALL)) r
                /\ n = List.length r.
Proof.
  assert (H : (- 86400000 < UTC 0 < 86400000)%Z) by (split; reflexivity).
  split; [exact H|].
  exact (proj1 (proj2 (addedTimeline_groups_by_mtime_year
                         UTC (Some [modified2001; rock; epochFile])
                         (SelString ALL) H))).
Defined.

Example addedTimeline_sample :
  renderAddedTimelineFromFiles_entries
    UTC (Some [modified2001; rock; epochFile]) (SelString ALL)
  = [(1970%Z, 2); (2001%Z, 1)].
Proof. reflexivity. Qed.

(** ** The duration bins *)

Lemma Math_round_integer (z : Z) : Math_round (inject_Z z) = z.
Proof.
  unfold Math_round, Qfloor, Qplus, inject_Z. simpl.
  symmetry. apply Z.div_unique with (r := 1%Z); lia.
Qed.

Lemma Math_round_Qeq (p q : Q) : (p == q)%Q -> Math_round p = Math_round q.
Proof. intros H. unfold Math_round. now rewrite H. Qed.

Lemma durationLabel_ranges (d : Z) :
  In (durationLabel d) durationLabels
  /\ (durationLabel d = "<2m" <-> (d < 120)%Z)
  /\ (durationLabel d = "2-4m" <-> (120 <= d < 240)%Z)
  /\ (durationLabel d = "4-6m" <-> (240 <= d < 360)%Z)
  /\ (durationLabel d = "6-12m" <-> (360 <= d < 720)%Z)
  /\ (durationLabel d = "12m+" <-> (720 <= d)%Z).
Proof.
  unfold durationLabel, durationLabels.
  destruct (Z.ltb_spec d 120); [|destruct (Z.ltb_spec d 240);
    [|destruct (Z.ltb_spec d 360); [|destruct (Z.ltb_spec d 720)]]];
    (split; [simpl; tauto|]);
    repeat split; intros; try discriminate; try reflexivity; lia.
Qed.

Lemma durationLabel_monotone (d1 d2 : Z) :
  (d1 <= d2)%Z -> labelRank (durationLabel d1) <= labelRank (durationLabel d2).
Proof.
  intros H. unfold durationLabel.
  repeat match goal with
         | |- context [(?a <? ?b)%Z] => destruct (Z.ltb_spec a b)
         end; try lia; vm_compute; lia.
Qed.

(** C5.  The fallback binning gives each shown file exactly one of the
    five labels, decided by its duration rounded to whole seconds (0
    when the duration is absent): [<2m] below 120, [2-4m] for 120-239,
    [4-6m] for 240-359, [6-12m] for 360-719 and [12m+] from 720 on; in
    particular 120 falls in [2-4m] and 720 in [12m+].  The result holds,
    for each label, the number of files that carry it, and no property
    for a label that no file carries. *)
Theorem durationCounts_five_exclusive_bins :
  forall (files : option (list File)) (g : Selection),
    (forall f : File,
        In (fileDurationLabel f) durationLabels
        /\ (fileDurationLabel f = "<2m"
            <-> (Math_round (durationOrZero f) < 120)%Z)
        /\ (fileDurationLabel f = "2-4m"
            <-> (120 <= Math_round (durationOrZero f) < 240)%Z)
        /\ (fileDurationLabel f = "4-6m"
            <-> (240 <= Math_round (durationOrZero f) < 360)%Z)
        /\ (fileDurationLabel f = "6-12m"
            <-> (360 <= Math_round (durationOrZero f) < 720)%Z)
        /\ (fileDurationLabel f = "12m+"
            <-> (720 <= Math_round (durationOrZero f))%Z))
    /\ NoDup durationLabels
    /\ (forall f1 f2,
           (Math_round (durationOrZero f1) <= Math_round (durationOrZero f2))%Z ->
           labelRank (fileDurationLabel f1) <= labelRank (fileDurationLabel f2))
    /\ (forall f z, duration f = Some (inject_Z z) ->
                    Math_round (durationOrZero f) = z)
    /\ (forall f, duration f = None -> fileDurationLabel f = "<2m")
    /\ (forall f q, duration f = Some q -> (q == 120)%Q ->
                    fileDurationLabel f = "2-4m")
    /\ (forall f q, duration f = Some q -> (q == 720)%Q ->
                    fileDurationLabel f = "12m+")
    /\ forall L : string,
         own (durationCounts files g) L
         = match countWhere (fun f => (fileDurationLabel f =? L)%string)
                            (getFilteredFiles files g) with
           | 0 => None
           | n => Some (VNum n)
           end.
Proof.
  intros files g. repeat apply conj.
  - intros f. apply durationLabel_ranges.
  - unfold durationLabels.
    repeat (constructor; [simpl; intuition discriminate|]). constructor.
  - intros f1 f2. apply durationLabel_monotone.
  - intros f z Hd. unfold durationOrZero. rewrite Hd. apply Math_round_integer.
  - intros f Hd. unfold fileDurationLabel, durationOrZero. now rewrite Hd.
  - intros f q Hd Hq. unfold fileDurationLabel, durationOrZero.
    now rewrite Hd, (Math_round_Qeq q 120 Hq).
  - intros f q Hd Hq. unfold fileDurationLabel, durationOrZero.
    now rewrite Hd, (Math_round_Qeq q 720 Hq).
  - apply own_durationCounts.
Qed.

Example durationCounts_sample :
  durationCounts (Some [rock300; rock; rock300]) (SelString "rock")
  = [("4-6m", VNum 2); ("<2m", VNum 1)].
Proof. reflexivity. Qed.

(** ** Which bins the duration chart shows *)

(** C6, as stated, fails: the statistics hold no per-genre bins at all,
    yet for the selection "Rock" the chart is drawn from the global
    [duration_bins] and not from the durations of the Rock files. *)
Lemma renderDurationDistribution_prefers_global_bins :
  PerGenreBinsAbsent statsGlobalBinsOnly "Rock"
  /\ renderDurationDistribution_bins statsGlobalBinsOnly (SelString "Rock")
                                     (Some [rock300])
     = BinsObject [("2-4m", VNum 7)]
  /\ durationCounts (Some [rock300]) (SelString "Rock") = [("4-6m", VNum 1)]
  /\ renderDurationDistribution_bins statsGlobalBinsOnly (SelString "Rock")
                                     (Some [rock300])
     <> BinsObject (durationCounts (Some [rock300]) (SelString "Rock")).
Proof. repeat split; try reflexivity. discriminate. Qed.

Lemma Object_keys_nil {V : Type} (o : JsObject V) :
  Object_keys o = [] <-> o = [].
Proof.
  unfold Object_keys. split.
  - intros H. apply map_eq_nil in H.
    apply Permutation_nil. rewrite <- H. apply Object_entries_perm.
  - now intros ->.
Qed.

(** C6, amended.  When a genre is selected, the file list is loaded, the
    per-genre duration bins hold nothing for that genre and the global
    [duration_bins] are missing or empty, the chart is drawn from the
    bins computed from the filtered files. *)
Theorem renderDurationDistribution_fallback_without_any_bins :
  forall (stats : Stats) (g : string) (fs : list File),
    g <> EmptyString ->
    PerGenreBinsAbsent stats g ->
    duration_bins stats = None \/ duration_bins stats = Some [] ->
    renderDurationDistribution_bins stats (SelString g) (Some fs)
    = BinsObject (durationCounts (Some fs) (SelString g)).
Proof.
  intros stats g fs Hg Habsent Hglobal.
  apply truthyString_true in Hg.
  unfold renderDurationDistribution_bins, PerGenreBinsAbsent, js_get in *.
  simpl truthySelection. rewrite Hg.
  assert (Hempty : (match duration_bins stats with Some b => b | None => [] end) = [])
    by (destruct Hglobal as [-> | ->]; reflexivity).
  rewrite Hempty.
  destruct (per_genre_duration_bins stats) as [pg|]; [|reflexivity].
  rewrite Habsent. destruct (inheritedKey g); reflexivity.
Qed.

Lemma renderDurationDistribution_fallback_without_any_bins_witness :
  "Rock" <> EmptyString
  /\ PerGenreBinsAbsent (mkStats None None None None None None None None None None None)
                        "Rock"
  /\ (@None (JsObject JsVal) = None \/ @None (JsObject JsVal) = Some [])
  /\ renderDurationDistribution_bins
       (mkStats None None None None None None None None None None None)
       (SelString "Rock") (Some [rock300])
     = BinsObject (durationCounts (Some [rock300]) (SelString "Rock")).
Proof.
  assert (H1 : "Rock" <> EmptyString) by discriminate.
  assert (H2 : PerGenreBinsAbsent
                 (mkStats None None None None None None None None None None None)
                 "Rock") by exact I.
  assert (H3 : @None (JsObject JsVal) = None \/ @None (JsObject JsVal) = Some [])
    by (left; reflexivity).
  split; [exact H1|]. split; [exact H2|]. split; [exact H3|].
  exact (renderDurationDistribution_fallback_without_any_bins
           (mkStats None None None None None None None None None None None)
           "Rock" [rock300] H1 H2 H3).
Defined.

(** Otherwise the global bins stay on display. *)
Lemma renderDurationDistribution_global_bins (stats : Stats) (g : string)
      (files : option (list File)) (b : JsObject JsVal) :
  PerGenreBinsAbsent stats g -> inheritedKey g = false ->
  duration_bins stats = Some b -> b <> [] ->
  renderDurationDistribution_bins stats (SelString g) files = BinsObject b.
Proof.
  intros Habsent Hk Hb Hne.
  unfold renderDurationDistribution_bins, PerGenreBinsAbsent, js_get in *.
  rewrite Hb.
  assert (Hkeys : (List.length (Object_keys b) =? 0) = false).
  { apply Nat.eqb_neq. intros Hlen. apply Hne, Object_keys_nil.
    now apply length_zero_iff_nil. }
  destruct (per_genre_duration_bins stats) as [pg|].
  - rewrite Habsent, Hk. destruct (truthyString g); simpl binsKeys;
      now rewrite Hkeys, andb_false_r.
  - simpl binsKeys. now rewrite Hkeys, andb_false_r.
Qed.

(** ** The fallback artist ranking *)

Lemma byCountDesc_total (a b : string * nat) :
  byCountDesc a b = false -> byCountDesc b a = true.
Proof. unfold byCountDesc. rewrite Nat.leb_gt, Nat.leb_le. lia. Qed.

Lemma byCountDesc_trans (a b c : string * nat) :
  byCountDesc a b = true -> byCountDesc b c = true -> byCountDesc a c = true.
Proof. unfold byCountDesc. rewrite !Nat.leb_le. lia. Qed.

Lemma occurrences_pos_In (ks : list string) (k : string) :
  0 < occurrences String.eqb k ks -> In k ks.
Proof.
  intros H. apply (countWhere_pos (String.eqb k) ks) in H as (x & Hin & Hx).
  apply String.eqb_eq in Hx. now subst.
Qed.

(** The artist tally, when no artist of a shown file bears an inherited
    name: one entry per artist, with the number of that artist's files. *)
Lemma artistCounts_spec (files : option (list File)) (g : Selection) :
  (forall f a, In f (getFilteredFiles files g) -> artist f = Some a ->
               inheritedKey a = false) ->
  exists T : list (string * nat),
    artistCounts files g = asObject T
    /\ NoDup (map fst T)
    /\ forall a n,
         In (a, n) T
         <-> a <> EmptyString
             /\ n = countWhere (artistIs a) (getFilteredFiles files g) /\ 0 < n.
Proof.
  intros Hnames.
  set (F := getFilteredFiles files g) in *.
  exists (fold_left (tally String.eqb) (keysOf artistKey F) []).
  split; [|split].
  - rewrite artistCounts_keys. apply (fold_bump_asObject _ []).
    apply Forall_forall. intros a Ha.
    apply keysOf_artistKey in Ha as (f & Hf & Hartist & _). eauto.
  - apply (fold_tally_NoDup String.eqb string_eqb_eq). constructor.
  - intros a n. rewrite (fold_tally_spec String.eqb string_eqb_eq). split.
    + intros [-> Hpos].
      assert (Ha : a <> EmptyString).
      { apply occurrences_pos_In, keysOf_artistKey in Hpos.
        now destruct Hpos as (f & _ & _ & Hne). }
      rewrite occurrences_artistKey in * by assumption. auto.
    + intros (Ha & -> & Hpos). now rewrite occurrences_artistKey.
Qed.

(** What the fallback computes for artists without inherited names:
    the artists of the shown files with their numbers of files, in
    descending order of that number, cut after the twentieth; an artist
    that is cut has no more files than any artist that is kept. *)
Theorem artistFallback_top_twenty :
  forall (files : option (list File)) (g : Selection),
    (forall f a, In f (getFilteredFiles files g) -> artist f = Some a ->
                 inheritedKey a = false) ->
    exists data : list (string * nat),
      artistFallback files g = Some data
      /\ StronglySorted (fun x y => snd y <= snd x) data
      /\ List.length data <= 20
      /\ NoDup (map fst data)
      /\ (forall a n,
             In (a, n) data ->
             a <> EmptyString
             /\ n = countWhere (artistIs a) (getFilteredFiles files g) /\ 0 < n)
      /\ (forall a,
             a <> EmptyString ->
             0 < countWhere (artistIs a) (getFilteredFiles files g) ->
             In (a, countWhere (artistIs a) (getFilteredFiles files g)) data
             \/ (List.length data = 20
                 /\ forall b n, In (b, n) data ->
                                countWhere (artistIs a) (getFilteredFiles files g) <= n)).
Proof.
  intros files g Hnames.
  destruct (artistCounts_spec files g Hnames) as (T & Hobj & Hnd & HT).
  set (F := getFilteredFiles files g) in *.
  set (sorted := sortBy byCountDesc (Object_entries T)).
  assert (Hperm : Permutation sorted T).
  { unfold sorted. rewrite sortBy_perm. apply Object_entries_perm. }
  assert (Hsorted : StronglySorted (fun x y => byCountDesc x y = true) sorted)
    by (apply sortBy_sorted; [exact byCountDesc_total | exact byCountDesc_trans]).
  destruct (StronglySorted_firstn _ 20 sorted Hsorted) as [Hfirst Hcut].
  exists (firstn 20 sorted). repeat apply conj.
  - unfold artistFallback.
    now rewrite Hobj, Object_entries_asObject, numericEntries_asObject.
  - eapply StronglySorted_impl; [|exact Hfirst].
    intros x y Hxy. unfold byCountDesc in Hxy. now apply Nat.leb_le.
  - apply firstn_le_length.
  - assert (Hnds : NoDup (map fst sorted)).
    { eapply Permutation_NoDup; [|exact Hnd].
      apply Permutation_map. now symmetry. }
    rewrite <- (firstn_skipn 20 sorted), map_app in Hnds.
    now apply NoDup_app_remove_r in Hnds.
  - intros a n Hin. apply HT.
    apply (Permutation_in _ Hperm). now apply In_firstn_whole in Hin.
  - intros a Ha Hpos.
    set (m := countWhere (artistIs a) F) in *.
    assert (Hin : In (a, m) sorted).
    { apply (Permutation_in _ (Permutation_sym Hperm)). apply HT. auto. }
    rewrite <- (firstn_skipn 20 sorted) in Hin.
    apply in_app_or in Hin as [Hin|Hin]; [now left|]. right. split.
    + apply firstn_length_le.
      destruct (Nat.le_gt_cases 20 (List.length sorted)) as [Hle|Hgt]; [exact Hle|].
      rewrite skipn_all2 in Hin by lia. contradiction.
    + intros b n Hb. specialize (Hcut (b, n) (a, m) Hb Hin).
      unfold byCountDesc in Hcut. now apply Nat.leb_le in Hcut.
Qed.

Lemma artistFallback_top_twenty_witness :
  (forall f a, In f (getFilteredFiles (Some filesABC) (SelString "Rock")) ->
               artist f = Some a -> inheritedKey a = false)
  /\ exists data : list (string * nat),
       artistFallback (Some filesABC) (SelString "Rock") = Some data
       /\ StronglySorted (fun x y => snd y <= snd x) data.
Proof.
  assert (H : forall f a,
             In f (getFilteredFiles (Some filesABC) (SelString "Rock")) ->
             artist f = Some a -> inheritedKey a = false).
  { intros f a Hin Ha.
    assert (Hall : forallb (fun f => match artist f with
                                     | Some a => negb (inheritedKey a)
                                     | None => true
                                     end)
                           (getFilteredFiles (Some filesABC) (SelString "Rock"))
                   = true) by reflexivity.
    rewrite forallb_forall in Hall. specialize (Hall f Hin).
    rewrite Ha in Hall. now apply negb_true_iff. }
  split; [exact H|].
  destruct (artistFallback_top_twenty (Some filesABC) (SelString "Rock") H)
    as (data & Hdata & Hsorted & _).
  exists data. split; assumption.
Defined.

(** Artists with 5, 5 and 3 files: the one with 3 comes last, and the
    two with 5 keep the order in which they were first met. *)
Example artistFallback_A5_B5_C3 :
  artistFallback (Some filesABC) (SelString "Rock")
  = Some [("A", 5); ("B", 5); ("C", 3)].
Proof. reflexivity. Qed.

(** C8 fails on one case: an artist whose name is that of a property
    inherited from [Object.prototype].  One shown file has the artist
    "constructor"; the tally, started as [{}], reads the inherited
    function for that key, so its count becomes a string and not 1, and
    the ranking that sorts by count is undefined. *)
Theorem artistFallback_inherited_name_miscounted :
  getFilteredFiles (Some [constructorFile]) (SelString "Rock") = [constructorFile]
  /\ artist constructorFile = Some "constructor"
  /\ countWhere (artistIs "constructor")
                (getFilteredFiles (Some [constructorFile]) (SelString "Rock")) = 1
  /\ js_get (@nil (string * JsVal)) "constructor" = Inherited
  /\ artistCounts (Some [constructorFile]) (SelString "Rock")
     = [("constructor", VStr)]
  /\ artistFallback (Some [constructorFile]) (SelString "Rock") = None.
Proof. repeat split. Qed.

(** ** Missing keys of the statistics *)

Lemma andThen_Threw (d : Dom) (k : Dom -> Outcome) : Threw d >>= k = Threw d.
Proof. reflexivity. Qed.

Lemma setEl_other (d : Dom) (e e' : Element) (v : Display) :
  Element_eqb e e' = false -> setEl d e v e' = d e'.
Proof. unfold setEl. now intros ->. Qed.

(** Without [genre_counts] the call throws at the genre bar chart at the
    latest, and none of the charts after it is touched. *)
Lemma applyGenreFilter_without_genre_counts
      (LocalTZA : Z -> Z) (stats : Stats) (files : option (list File))
      (g : Selection) (d : Dom) :
  genre_counts stats = None ->
  exists d',
    applyGenreFilter LocalTZA stats files g d = Threw d'
    /\ d' el_genrepie = d el_genrepie
    /\ d' el_artistchart = d el_artistchart
    /\ d' el_durhist = d el_durhist
    /\ d' el_yearhist = d el_yearhist
    /\ d' el_timeline = d el_timeline
    /\ d' el_genreradar = d el_genreradar.
Proof.
  intros Hgc. unfold applyGenreFilter, renderSummary.
  destruct (summary stats) as [s|].
  - cbn [andThen].
    assert (Hbins : exists d1,
               renderDurationBins stats (setEl d el_summarytext Drawn) = Returned d1
               /\ forall e, Element_eqb el_duration_bins e = false ->
                            Element_eqb el_summarytext e = false -> d1 e = d e).
    { unfold renderDurationBins.
      destruct (duration_bins stats) as [b|]; [destruct (Object_entries b)|];
        eexists; (split; [reflexivity|]); intros e H1 H2;
        now rewrite ?setEl_other by assumption. }
    destruct Hbins as (d1 & -> & Hd1). cbn [andThen].
    unfold renderGenreBar. rewrite Hgc. cbn [andThen].
    eexists. split; [reflexivity|].
    repeat split; (rewrite setEl_other by reflexivity; now apply Hd1).
  - exists d. repeat split.
Qed.

(** C7 fails.  With every key present all charts are drawn.  With
    [genre_counts] alone missing, [applyGenreFilter] throws in the genre
    bar chart and the pie, artist, duration, year, timeline and radar
    charts are never rendered; started from [main], the throw comes
    before anything is drawn.  With [top_genres] alone missing, the
    radar chart throws and shows neither a chart nor a message. *)
Theorem applyGenreFilter_missing_key_throws :
  (match applyGenreFilter UTC statsComplete (Some threeRockFiles)
                          (SelString ALL) initialDom with
   | Returned d =>
       d el_barchart = Drawn /\ d el_genrepie = Drawn /\ d el_artistchart = Drawn
       /\ d el_durhist = Drawn /\ d el_genreradar = Drawn
   | Threw _ => False
   end)
  /\ genre_counts statsWithoutGenreCounts = None
  /\ (match applyGenreFilter UTC statsWithoutGenreCounts (Some threeRockFiles)
                             (SelString ALL) initialDom with
      | Returned _ => False
      | Threw d =>
          d el_barchart = Cleared
          /\ d el_genrepie = Initial /\ d el_artistchart = Initial
          /\ d el_durhist = Initial /\ d el_yearhist = Initial
          /\ d el_timeline = Initial /\ d el_genreradar = Initial
      end)
  /\ (match main UTC statsWithoutGenreCounts (Some threeRockFiles) with
      | Returned _ => False
      | Threw d =>
          d el_summarytext = Initial /\ d el_barchart = Initial
          /\ d el_genrepie = Initial /\ d el_artistchart = Initial
          /\ d el_durhist = Initial /\ d el_yearhist = Initial
          /\ d el_timeline = Initial /\ d el_genreradar = Initial
      end)
  /\ top_genres statsWithoutTopGenres = None
  /\ (match applyGenreFilter UTC statsWithoutTopGenres (Some threeRockFiles)
                             (SelString ALL) initialDom with
      | Returned _ => False
      | Threw d => d el_genreradar = Cleared
      end).
Proof. repeat split. Qed.

(** With the keys that the renderers dereference all present, and a
    selection that is not an inherited name, every renderer returns. *)
Lemma applyGenreFilter_returns
      (LocalTZA : Z -> Z) (stats : Stats) (files : option (list File))
      (g : Selection) (d : Dom) :
  summary stats <> None -> genre_counts stats <> None ->
  artist_counts stats <> None -> genre_percentages stats <> None ->
  top_genres stats <> None ->
  (forall s, g = SelString s -> inheritedKey s = false) ->
  exists d', applyGenreFilter LocalTZA stats files g d = Returned d'.
Proof.
  intros Hs Hgc Hac Hgp Htg Hg.
  unfold applyGenreFilter, renderSummary, renderDurationBins, renderGenreBar,
    renderGenrePie, renderDurationDistribution, renderYearHistogramFromFiles,
    renderAddedTimelineFromFiles, renderGenreRadar.
  destruct (summary stats) as [sm|]; [|contradiction]. cbn [andThen].
  assert (Hpipe : forall o : Outcome,
             (exists d1, o = Returned d1) ->
             forall k : Dom -> Outcome,
               (forall d1, exists d2, k d1 = Returned d2) ->
               exists d2, o >>= k = Returned d2).
  { intros o [d1 ->] k Hk. exact (Hk d1). }
  repeat (apply Hpipe; [|intros ?]).
  - destruct (duration_bins stats) as [b|]; [destruct (Object_entries b)|]; eauto.
  - destruct (genre_counts stats); [eauto | contradiction].
  - destruct (genre_counts stats) as [gc|]; [|contradiction].
    destruct (genre_percentages stats); [|contradiction].
    destruct (filter _ (Object_entries gc)); eauto.
  - unfold renderArtistBar.
    destruct (negb (truthySelection (nullIfAll g))).
    + destruct (artist_counts stats); [eauto | contradiction].
    + destruct (nullIfAll g) as [| |s] eqn:Eg; eauto.
      assert (Hk : inheritedKey s = false).
      { apply Hg. unfold nullIfAll in Eg.
        destruct (selectionIs g ALL); [discriminate Eg | exact Eg]. }
      destruct (top_artists_per_genre stats) as [t|]; eauto.
      unfold js_get. rewrite Hk.
      destruct (own t s) as [[|]|]; eauto.
  - eauto.
  - destruct (renderYearHistogramFromFiles_entries LocalTZA files g); eauto.
  - destruct (renderAddedTimelineFromFiles_entries LocalTZA files g); eauto.
  - destruct (top_genres stats) as [tg|]; [|contradiction].
    destruct (genre_percentages stats); [|contradiction].
    destruct (firstn 6 tg); eauto.
Qed.

(** ** Further properties of the matcher and the filter *)

Lemma split_noDelim (s q : string) : In q (split s) -> noDelim q = true.
Proof.
  intros Hin.
  destruct (split_first s) as (h & t & post & Hs & _ & Hh & _).
  pose proof (split_later s q) as Hlater. rewrite Hs in Hin, Hlater.
  destruct Hin as [<-|Hin]; [exact Hh|].
  now destruct (Hlater Hin) as (_ & _ & _ & Hq & _).
Qed.

Lemma noDelim_trimStart (s : string) :
  noDelim s = true -> noDelim (trimStart s) = true.
Proof.
  induction s as [|c s IH]; simpl; [trivial|]. intros H.
  destruct (isWhiteSpace c); [|exact H].
  apply andb_prop in H as [_ H]. now apply IH.
Qed.

Lemma noDelim_trimEnd (s : string) :
  noDelim s = true -> noDelim (trimEnd s) = true.
Proof.
  induction s as [|c s IH]; simpl; [trivial|]. intros H.
  apply andb_prop in H as [Hc Hs]. specialize (IH Hs).
  destruct (trimEnd s) as [|c' t].
  - destruct (isWhiteSpace c); simpl; [reflexivity | now rewrite Hc].
  - simpl in *. now rewrite Hc, IH.
Qed.

(** Every part that the matcher compares is non-empty, holds no
    separator and has no white space at either end. *)
Theorem genreParts_clean :
  forall (fg p : string),
    In p (genreParts fg) ->
    p <> EmptyString /\ noDelim p = true
    /\ startsWithWhite p = false /\ endsWithWhite p = false.
Proof.
  intros fg p Hin. unfold genreParts in Hin.
  apply filter_In in Hin as [Hin Hne]. apply in_map_iff in Hin as (q & <- & Hq).
  split; [now apply truthyString_true|]. split.
  - unfold trim. apply noDelim_trimEnd, noDelim_trimStart.
    exact (split_noDelim fg q Hq).
  - now destruct (trim_spec q) as (_ & _ & _ & _ & _ & Hs & He).
Qed.

Lemma genreParts_clean_witness :
  In "Pop" (genreParts " Rock ;; Pop /")
  /\ "Pop" <> EmptyString /\ noDelim "Pop" = true
  /\ startsWithWhite "Pop" = false /\ endsWithWhite "Pop" = false.
Proof.
  assert (H : In "Pop" (genreParts " Rock ;; Pop /")) by (simpl; auto).
  split; [exact H|].
  exact (genreParts_clean " Rock ;; Pop /" "Pop" H).
Defined.

Lemma getFilteredFiles_keeps (fs : list File) (g : Selection) :
  getFilteredFiles (Some fs) g = filter (selectionKeeps g) fs.
Proof.
  unfold getFilteredFiles, selectionKeeps.
  destruct (negb (truthySelection g) || selectionIs g ALL) eqn:E; [reflexivity|].
  destruct g as [| |s]; try discriminate E. reflexivity.
Qed.

Lemma excludeUnknown_not_Unknown (f : File) :
  excludeUnknown f = hasGenreText f && negb (fileHasGenre (Some f) "Unknown").
Proof.
  unfold excludeUnknown, hasGenreText, fileHasGenre.
  destruct (genre f) as [fg|]; [|reflexivity].
  destruct (truthyString fg); reflexivity.
Qed.

(** The default view is made of the files that have a genre text and
    that the explicit selection "Unknown" does not return: a file with a
    genre text is in exactly one of the two lists. *)
Theorem default_view_complements_Unknown :
  forall (fs : list File) (f : File),
    In f (getFilteredFiles (Some fs) (SelString ALL))
    <-> In f fs /\ hasGenreText f = true
        /\ ~ In f (getFilteredFiles (Some fs) (SelString "Unknown")).
Proof.
  intros fs f.
  rewrite getFilteredFiles_default by reflexivity.
  rewrite getFilteredFiles_specific by (split; discriminate).
  rewrite !filter_In, excludeUnknown_not_Unknown, andb_true_iff, negb_true_iff.
  split.
  - intros (Hin & Hg & Hu). repeat split; auto. intros [_ H]. congruence.
  - intros (Hin & Hg & Hu). repeat split; auto.
    destruct (fileHasGenre (Some f) "Unknown") eqn:E; [|reflexivity].
    exfalso. apply Hu. auto.
Qed.

Lemma filter_idem {A : Type} (p : A -> bool) (l : list A) :
  filter p (filter p l) = filter p l.
Proof.
  induction l as [|x l IH]; simpl; [reflexivity|].
  destruct (p x) eqn:E; simpl; [rewrite E; f_equal|]; exact IH.
Qed.

Lemma filter_comm {A : Type} (p q : A -> bool) (l : list A) :
  filter p (filter q l) = filter q (filter p l).
Proof.
  induction l as [|x l IH]; simpl; [reflexivity|].
  destruct (p x) eqn:Ep, (q x) eqn:Eq; simpl; rewrite ?Ep, ?Eq, IH; reflexivity.
Qed.

(** Filtering a filtered list again with the same selection changes
    nothing, and two selections applied one after the other give the
    same list in either order. *)
Theorem getFilteredFiles_idempotent_commutes :
  forall (files : option (list File)) (g1 g2 : Selection),
    getFilteredFiles (Some (getFilteredFiles files g1)) g1
    = getFilteredFiles files g1
    /\ getFilteredFiles (Some (getFilteredFiles files g1)) g2
       = getFilteredFiles (Some (getFilteredFiles files g2)) g1.
Proof.
  intros [fs|] g1 g2.
  - rewrite !getFilteredFiles_keeps. split; [apply filter_idem | apply filter_comm].
  - change (getFilteredFiles None g1) with (@nil File).
    change (getFilteredFiles None g2) with (@nil File).
    rewrite !getFilteredFiles_keeps. split; reflexivity.
Qed.

(** A file of the default view is returned for each of its own genre
    parts (other than the text of the sentinel) when that part is
    selected. *)
Theorem default_view_reachable_by_part :
  forall (fs : list File) (f : File) (p : string),
    In f (getFilteredFiles (Some fs) (SelString ALL)) ->
    GenrePart f p -> p <> ALL ->
    In f (getFilteredFiles (Some fs) (SelString p)).
Proof.
  intros fs f p Hin Hp Hall.
  rewrite getFilteredFiles_default in Hin by reflexivity.
  apply filter_In in Hin as [Hin _].
  assert (Hne : p <> EmptyString) by (now destruct Hp as (fg & q & _ & _ & _ & Hne)).
  rewrite getFilteredFiles_specific by (split; assumption).
  apply filter_In. split; [exact Hin|].
  apply fileHasGenre_Matches. exists p. split; [exact Hp|].
  now apply toLowerCase_eq.
Qed.

Lemma default_view_reachable_by_part_witness :
  In rockPop (getFilteredFiles (Some [unknownGenre; rockPop]) (SelString ALL))
  /\ GenrePart rockPop "Pop" /\ "Pop" <> ALL
  /\ In rockPop (getFilteredFiles (Some [unknownGenre; rockPop]) (SelString "Pop")).
Proof.
  assert (H1 : In rockPop (getFilteredFiles (Some [unknownGenre; rockPop])
                                            (SelString ALL)))
    by (simpl; auto).
  assert (H2 : GenrePart rockPop "Pop")
    by (apply (GenrePart_parts rockPop "Rock; Pop"); [reflexivity | simpl; auto]).
  assert (H3 : "Pop" <> ALL) by discriminate.
  split; [exact H1|]. split; [exact H2|]. split; [exact H3|].
  exact (default_view_reachable_by_part [unknownGenre; rockPop] rockPop "Pop" H1 H2 H3).
Defined.

(** ** Totals and order of the tallies *)

Lemma totalCount_tally {K : Type} (eqb : K -> K -> bool) (o : list (K * nat)) (k : K) :
  totalCount (tally eqb o k) = S (totalCount o).
Proof.
  induction o as [|[k' n] o IH]; simpl; [reflexivity|].
  destruct (eqb k' k); simpl; [lia | rewrite IH; lia].
Qed.

Lemma totalCount_fold_tally {K : Type} (eqb : K -> K -> bool) (ks : list K)
      (o : list (K * nat)) :
  totalCount (fold_left (tally eqb) ks o) = totalCount o + List.length ks.
Proof.
  revert o. induction ks as [|k ks IH]; intros o; simpl; [lia|].
  rewrite IH, totalCount_tally. lia.
Qed.

Lemma totalCount_perm {K : Type} (l l' : list (K * nat)) :
  Permutation l l' -> totalCount l = totalCount l'.
Proof. induction 1; simpl; lia. Qed.

Lemma durationCounts_entries_total (files : option (list File)) (g : Selection) :
  exists es : list (string * nat),
    numericEntries (Object_entries (durationCounts files g)) = Some es
    /\ totalCount es = List.length (getFilteredFiles files g).
Proof.
  rewrite durationCounts_tally.
  set (T := fold_left (tally String.eqb)
                      (map fileDurationLabel (getFilteredFiles files g)) []).
  exists (Object_entries T). split.
  - now rewrite Object_entries_asObject, numericEntries_asObject.
  - rewrite (totalCount_perm _ _ (Object_entries_perm T)). unfold T.
    rewrite totalCount_fold_tally, length_map. reflexivity.
Qed.

(** Each shown file is counted in exactly one duration bin: the counts
    of the fallback bins are numbers that add up to the number of shown
    files, which is the number on the "Filtered:" line of the summary. *)
Theorem durationCounts_total :
  forall (files : option (list File)) (g : Selection),
    exists es : list (string * nat),
      numericEntries (Object_entries (durationCounts files g)) = Some es
      /\ totalCount es = List.length (getFilteredFiles files g)
      /\ forall n, renderSummary_filtered files g = Some n -> totalCount es = n.
Proof.
  intros files g.
  destruct (durationCounts_entries_total files g) as (es & Hes & Htotal).
  exists es. split; [exact Hes|]. split; [exact Htotal|].
  intros n. unfold renderSummary_filtered.
  destruct (truthySelection g && negb (selectionIs g ALL)); [|discriminate].
  intros [= <-]. exact Htotal.
Qed.

Lemma last_In {A : Type} (l : list A) (d : A) : l <> [] -> In (last l d) l.
Proof.
  induction l as [|a l IH]; [congruence|]. intros _.
  destruct l as [|b l]; [now left|].
  right. apply IH. discriminate.
Qed.

Lemma last_cons {A : Type} (a : A) (l : list A) (d : A) :
  l <> [] -> last (a :: l) d = last l d.
Proof. destruct l; [congruence | reflexivity]. Qed.

Lemma StronglySorted_last {A : Type} (R : A -> A -> Prop) (l : list A) (x d : A) :
  StronglySorted R l -> In x l -> x = last l d \/ R x (last l d).
Proof.
  induction 1 as [|a l Hl IH Ha]; [contradiction|].
  intros [<-|Hin].
  - destruct l as [|b l]; [now left|]. right.
    rewrite last_cons by discriminate.
    rewrite Forall_forall in Ha. apply Ha, last_In. discriminate.
  - rewrite last_cons by (intros ->; contradiction). now apply IH.
Qed.

(** The entries of the year histogram are in strictly ascending order
    of year, so that the first and the last entry, from which line 224
    takes the range of the axis, hold the least and the greatest year. *)
Theorem yearHistogram_ascending :
  forall (LocalTZA : Z -> Z) (files : option (list File)) (g : Selection),
    StronglySorted (fun a b => (fst a < fst b)%Z)
                   (renderYearHistogramFromFiles_entries LocalTZA files g)
    /\ forall e,
         In e (renderYearHistogramFromFiles_entries LocalTZA files g) ->
         (fst (hd e (renderYearHistogramFromFiles_entries LocalTZA files g))
          <= fst e
          <= fst (last (renderYearHistogramFromFiles_entries LocalTZA files g) e))%Z.
Proof.
  intros LocalTZA files g. unfold renderYearHistogramFromFiles_entries.
  destruct (yearEntries_spec (map (fun f => getYearFromFile LocalTZA (Some f))
                                  (getFilteredFiles files g))) as [Hs _].
  split; [exact Hs|]. intros e Hin.
  set (E := yearEntries _) in *. split.
  - destruct E as [|a l]; [contradiction|]. simpl.
    inversion Hs as [|? ? _ Ha]; subst. destruct Hin as [<-|Hin]; [lia|].
    rewrite Forall_forall in Ha. specialize (Ha e Hin). lia.
  - destruct (StronglySorted_last _ E e e Hs Hin) as [<-|Hlt]; lia.
Qed.

Lemma YearFromDay_monotone (d1 d2 : Z) :
  (d1 <= d2)%Z -> (YearFromDay d1 <= YearFromDay d2)%Z.
Proof.
  intros H.
  pose proof (YearFromDay_spec d1) as [Hlo1 _].
  pose proof (YearFromDay_spec d2) as [_ Hhi2].
  destruct (Z.le_gt_cases (YearFromDay d1) (YearFromDay d2)) as [Hle|Hgt];
    [exact Hle|].
  pose proof (DayFromYear_monotone (YearFromDay d2 + 1) (YearFromDay d1)
                                   ltac:(lia)).
  lia.
Qed.

Lemma YearFromTime_since_1969 (t : Z) :
  (- msPerDay <= t)%Z -> (1969 <= YearFromTime t)%Z.
Proof.
  intros H. unfold YearFromTime, Day.
  change 1969%Z with (YearFromDay (-1)). apply YearFromDay_monotone.
  change (-1)%Z with ((- msPerDay) / msPerDay)%Z.
  apply Z.div_le_mono; [reflexivity | exact H].
Qed.

Lemma keysOf_all {X K : Type} (key : X -> option K) (xs : list X) :
  (forall x, In x xs -> key x <> None) ->
  List.length (keysOf key xs) = List.length xs.
Proof.
  unfold keysOf. induction xs as [|x xs IH]; simpl; intros H; [reflexivity|].
  rewrite length_app, IH by auto.
  destruct (key x) eqn:E; [reflexivity|]. now elim (H x (or_introl eq_refl)).
Qed.

Lemma totalCount_yearEntries (ys : list JsYear) :
  totalCount (yearEntries ys) = List.length (keysOf yearKey ys).
Proof.
  unfold yearEntries.
  rewrite (totalCount_perm _ _ (sortBy_perm byYearAsc (tallyYears ys))).
  rewrite tallyYears_keys, totalCount_fold_tally. reflexivity.
Qed.

(** With time stamps between the epoch and the last day that a Date can
    hold, and a time zone less than a day behind UTC, the added-timeline
    drops no file: its counts add up to the number of shown files, and
    no year before 1969 appears. *)
Theorem addedTimeline_counts_every_file :
  forall (LocalTZA : Z -> Z) (files : option (list File)) (g : Selection),
    (forall t, (- msPerDay < LocalTZA t)%Z) ->
    (forall f, In f (getFilteredFiles files g) ->
               (0 <= mtimeOrZero f <= 8640000000000)%Z) ->
    totalCount (renderAddedTimelineFromFiles_entries LocalTZA files g)
    = List.length (getFilteredFiles files g)
    /\ forall y n,
         In (y, n) (renderAddedTimelineFromFiles_entries LocalTZA files g) ->
         (1969 <= y)%Z.
Proof.
  intros LocalTZA files g Hzone Hrange.
  assert (Hyear : forall f, In f (getFilteredFiles files g) ->
                            exists y, addedYear LocalTZA f = YNum y /\ (1969 <= y)%Z).
  { intros f Hf. specialize (Hrange f Hf). unfold addedYear, getFullYear, TimeClip.
    destruct (Z.leb_spec (Z.abs (mtimeOrZero f * 1000)) 8640000000000000) as [_|Hbig];
      [|lia].
    eexists. split; [reflexivity|]. apply YearFromTime_since_1969.
    specialize (Hzone (mtimeOrZero f * 1000)%Z). unfold msPerDay in *. lia. }
  unfold renderAddedTimelineFromFiles_entries. split.
  - rewrite totalCount_yearEntries, keysOf_all; [apply length_map|].
    intros v Hv. apply in_map_iff in Hv as (f & <- & Hf).
    destruct (Hyear f Hf) as (y & -> & Hy). unfold yearKey, truthyYear.
    destruct (Z.eqb_spec y 0); [lia | discriminate].
  - intros y n Hin.
    destruct (yearEntries_spec (map (addedYear LocalTZA) (getFilteredFiles files g)))
      as [_ Hspec].
    apply Hspec in Hin as (_ & -> & Hpos).
    apply countWhere_pos in Hpos as (v & Hv & Hy).
    apply in_map_iff in Hv as (f & <- & Hf).
    destruct (Hyear f Hf) as (y' & Heq & Hy'). rewrite Heq in Hy.
    simpl in Hy. apply Z.eqb_eq in Hy. lia.
Qed.

Lemma addedTimeline_counts_every_file_witness :
  (forall t, (- msPerDay < UTC t)%Z)
  /\ (forall f, In f (getFilteredFiles (Some [modified2001; rock; epochFile])
                                        (SelString ALL)) ->
                 (0 <= mtimeOrZero f <= 8640000000000)%Z)
  /\ totalCount (renderAddedTimelineFromFiles_entries
                    UTC (Some [modified2001; rock; epochFile]) (SelString ALL))
     = List.length (getFilteredFiles (Some [modified2001; rock; epochFile])
                                     (SelString ALL)).
Proof.
  assert (H1 : forall t, (- msPerDay < UTC t)%Z) by (intros t; reflexivity).
  assert (H2 : forall f, In f (getFilteredFiles (Some [modified2001; rock; epochFile])
                                                (SelString ALL)) ->
                         (0 <= mtimeOrZero f <= 8640000000000)%Z).
  { intros f Hf. simpl in Hf.
    destruct Hf as [<-|[<-|[<-|[]]]];
      cbv [mtimeOrZero mtime_epoch modified2001 rock epochFile]; lia. }
  split; [exact H1|]. split; [exact H2|].
  exact (proj1 (addedTimeline_counts_every_file
                  UTC (Some [modified2001; rock; epochFile]) (SelString ALL) H1 H2)).
Defined.

(** ** The genre select, the bar chart and the pie *)

(** What cutting a sorted list after [n] elements keeps. *)
Lemma firstn_sortBy_spec {A : Type} (le : A -> A -> bool) (n : nat) (l : list A) :
  (forall a b, le a b = false -> le b a = true) ->
  (forall a b c, le a b = true -> le b c = true -> le a c = true) ->
  StronglySorted (fun a b => le a b = true) (firstn n (sortBy le l))
  /\ List.length (firstn n (sortBy le l)) <= n
  /\ (forall x, In x (firstn n (sortBy le l)) -> In x l)
  /\ (forall x, In x l ->
                In x (firstn n (sortBy le l))
                \/ (List.length (firstn n (sortBy le l)) = n
                    /\ forall y, In y (firstn n (sortBy le l)) -> le y x = true)).
Proof.
  intros Htotal Htrans.
  pose proof (sortBy_sorted le Htotal Htrans l) as Hsorted.
  destruct (StronglySorted_firstn _ n _ Hsorted) as [Hfirst Hcut].
  split; [exact Hfirst|]. split; [apply firstn_le_length|]. split.
  - intros x Hx. apply (sortBy_In le). now apply In_firstn_whole in Hx.
  - intros x Hx. apply (sortBy_In le) in Hx.
    rewrite <- (firstn_skipn n (sortBy le l)) in Hx.
    apply in_app_or in Hx as [Hx|Hx]; [now left|]. right. split.
    + apply firstn_length_le.
      destruct (Nat.le_gt_cases n (List.length (sortBy le l))) as [Hle|Hgt];
        [exact Hle|].
      rewrite skipn_all2 in Hx by lia. contradiction.
    + intros y Hy. exact (Hcut y x Hy Hx).
Qed.

Lemma Object_entries_In {V : Type} (o : JsObject V) (e : string * V) :
  In e (Object_entries o) <-> In e o.
Proof.
  split; apply Permutation_in;
    [apply Object_entries_perm | symmetry; apply Object_entries_perm].
Qed.

Lemma isUnknown_EqIgnoreCase (g : string) :
  isUnknown g = false <-> ~ EqIgnoreCase g "unknown".
Proof.
  unfold isUnknown.
  rewrite <- (toLowerCase_unknown_eqb g), not_true_iff_false. reflexivity.
Qed.

(** The bar chart holds at most twenty genres, none of them "unknown"
    in any case, each with its count from [genre_counts], in descending
    order of count; a genre that is cut has no greater count than any
    genre that is kept. *)
Theorem renderGenreBar_data_top_twenty :
  forall gc : JsObject nat,
    StronglySorted (fun x y => snd y <= snd x) (renderGenreBar_data gc)
    /\ List.length (renderGenreBar_data gc) <= 20
    /\ (forall e, In e (renderGenreBar_data gc) ->
                  In e gc /\ ~ EqIgnoreCase (fst e) "unknown")
    /\ (forall e, In e gc -> ~ EqIgnoreCase (fst e) "unknown" ->
                  In e (renderGenreBar_data gc)
                  \/ (List.length (renderGenreBar_data gc) = 20
                      /\ forall e', In e' (renderGenreBar_data gc) ->
                                    snd e <= snd e')).
Proof.
  intros gc. unfold renderGenreBar_data.
  set (shown := filter (fun e => negb (isUnknown (fst e))) (Object_entries gc)).
  destruct (firstn_sortBy_spec byCountDesc 20 shown
              byCountDesc_total byCountDesc_trans) as (Hs & Hlen & Hin & Hall).
  assert (Hshown : forall e, In e shown
                             <-> In e gc /\ ~ EqIgnoreCase (fst e) "unknown").
  { intros e. unfold shown.
    now rewrite filter_In, Object_entries_In, negb_true_iff, isUnknown_EqIgnoreCase. }
  split; [|split; [exact Hlen|split]].
  - eapply StronglySorted_impl; [|exact Hs].
    intros x y Hxy. unfold byCountDesc in Hxy. now apply Nat.leb_le.
  - intros e He. now apply Hshown, Hin.
  - intros e He Hu. destruct (Hall e) as [Hk|[Hfull Hle]].
    + now apply Hshown.
    + now left.
    + right. split; [exact Hfull|]. intros e' He'.
      specialize (Hle e' He'). unfold byCountDesc in Hle. now apply Nat.leb_le.
Qed.

Lemma filter_perm {A : Type} (p : A -> bool) (l l' : list A) :
  Permutation l l' -> Permutation (filter p l) (filter p l').
Proof.
  induction 1 as [|x l l' _ IH|x y l|l l' l'' _ IH1 _ IH2]; simpl.
  - constructor.
  - destruct (p x); [now constructor | exact IH].
  - destruct (p x), (p y); try reflexivity. apply perm_swap.
  - now transitivity (filter p l').
Qed.

Lemma countOf_total (gc : JsObject nat) (a b : string) :
  (countOf gc b <=? countOf gc a) = false -> (countOf gc a <=? countOf gc b) = true.
Proof. rewrite Nat.leb_gt, Nat.leb_le. lia. Qed.

Lemma countOf_trans (gc : JsObject nat) (a b c : string) :
  (countOf gc b <=? countOf gc a) = true -> (countOf gc c <=? countOf gc b) = true ->
  (countOf gc c <=? countOf gc a) = true.
Proof. rewrite !Nat.leb_le. lia. Qed.

Lemma own_key {V : Type} (o : JsObject V) (k : string) :
  In k (map fst o) -> exists v, own o k = Some v.
Proof.
  induction o as [|[k' v'] o IH]; simpl; [contradiction|].
  destruct (String.eqb_spec k' k) as [_|Hne]; [eauto|].
  intros [Heq|Hin]; [congruence | now apply IH].
Qed.

(** The select offers the keys of [genre_counts] that are not "unknown"
    in any case, each as often as it is a key, in descending order of
    count; each count that the comparator reads is an own property. *)
Theorem populateGenreSelect_options_spec :
  forall gc : JsObject nat,
    (exists kept,
        Selects (fun g => ~ EqIgnoreCase g "unknown") (map fst gc) kept
        /\ Permutation (populateGenreSelect_options gc) kept)
    /\ StronglySorted (fun a b => countOf gc b <= countOf gc a)
                      (populateGenreSelect_options gc)
    /\ (forall g, In g (populateGenreSelect_options gc)
                  <-> In g (map fst gc) /\ ~ EqIgnoreCase g "unknown")
    /\ forall g, In g (populateGenreSelect_options gc) ->
                 exists n, own gc g = Some n /\ countOf gc g = n.
Proof.
  intros gc. unfold populateGenreSelect_options, Object_keys.
  assert (Hperm : Permutation
                    (sortBy (fun a b => countOf gc b <=? countOf gc a)
                            (filter (fun g => negb (isUnknown g))
                                    (map fst (Object_entries gc))))
                    (filter (fun g => negb (isUnknown g)) (map fst gc))).
  { rewrite sortBy_perm.
    apply filter_perm, Permutation_map, Object_entries_perm. }
  assert (Hkeep : forall g, negb (isUnknown g) = true
                            <-> ~ EqIgnoreCase g "unknown").
  { intros g. now rewrite negb_true_iff, isUnknown_EqIgnoreCase. }
  assert (Hin : forall g,
             In g (sortBy (fun a b => countOf gc b <=? countOf gc a)
                          (filter (fun g => negb (isUnknown g))
                                  (map fst (Object_entries gc))))
             <-> In g (map fst gc) /\ ~ EqIgnoreCase g "unknown").
  { intros g. rewrite <- Hkeep. split.
    - intros Hg. apply (Permutation_in _ Hperm) in Hg.
      now apply filter_In in Hg.
    - intros Hg. apply (Permutation_in _ (Permutation_sym Hperm)).
      now apply filter_In. }
  split; [|split; [|split; [exact Hin|]]].
  - exists (filter (fun g => negb (isUnknown g)) (map fst gc)).
    split; [|exact Hperm]. now apply Selects_filter.
  - eapply StronglySorted_impl;
      [|apply sortBy_sorted; [apply countOf_total | apply countOf_trans]].
    intros a b Hab. now apply Nat.leb_le.
  - intros g Hg. apply Hin in Hg as [Hg _].
    destruct (own_key gc g Hg) as [n Hn]. exists n. unfold countOf.
    now rewrite Hn.
Qed.

Lemma own_In {V : Type} (o : JsObject V) (k : string) (v : V) :
  NoDup (map fst o) -> In (k, v) o -> own o k = Some v.
Proof.
  induction o as [|[k' v'] o IH]; simpl; [contradiction|].
  intros Hnd Hin. inversion Hnd as [|? ? Hnotin Hnd']; subst.
  destruct (String.eqb_spec k' k) as [->|Hne].
  - destruct Hin as [[= ->]|Hin]; [reflexivity|].
    exfalso. apply Hnotin. change k with (fst (k, v)). now apply in_map.
  - destruct Hin as [[= -> _]|Hin]; [congruence | now apply IH].
Qed.

Lemma insertSorted_map_in {A B : Type} (f : A -> B) (leA : A -> A -> bool)
      (leB : B -> B -> bool) (x : A) (s : list A) :
  (forall y, In y s -> leB (f x) (f y) = leA x y) ->
  insertSorted leB (f x) (map f s) = map f (insertSorted leA x s).
Proof.
  induction s as [|y s IH]; simpl; intros H; [reflexivity|].
  rewrite (H y) by now left.
  destruct (leA x y); simpl; [reflexivity|]. rewrite IH; auto.
Qed.

Lemma sortBy_map_in {A B : Type} (f : A -> B) (leA : A -> A -> bool)
      (leB : B -> B -> bool) (l : list A) :
  (forall a b, In a l -> In b l -> leB (f a) (f b) = leA a b) ->
  sortBy leB (map f l) = map f (sortBy leA l).
Proof.
  induction l as [|x l IH]; simpl; intros H; [reflexivity|].
  rewrite IH by auto. apply insertSorted_map_in.
  intros y Hy. apply H; [now left|]. right. exact (proj1 (sortBy_In leA l y) Hy).
Qed.

(** When [genre_counts] is an object (its keys are distinct), the bar
    chart shows the first twenty options of the select, in the same
    order. *)
Theorem renderGenreBar_shows_first_options :
  forall gc : JsObject nat,
    NoDup (map fst gc) ->
    map fst (renderGenreBar_data gc) = firstn 20 (populateGenreSelect_options gc).
Proof.
  intros gc Hnd. unfold renderGenreBar_data, populateGenreSelect_options, Object_keys.
  rewrite <- firstn_map. f_equal.
  rewrite filter_map_comm. symmetry. apply sortBy_map_in.
  intros a b Ha Hb. unfold byCountDesc, countOf.
  apply filter_In in Ha as [Ha _]. apply filter_In in Hb as [Hb _].
  apply (proj1 (Object_entries_In gc a)) in Ha.
  apply (proj1 (Object_entries_In gc b)) in Hb.
  destruct a as [ka va], b as [kb vb]. cbn [fst snd].
  now rewrite (own_In gc ka va Hnd Ha), (own_In gc kb vb Hnd Hb).
Qed.

Lemma renderGenreBar_shows_first_options_witness :
  NoDup (map fst [("Rock", 3); ("Unknown", 9); ("Jazz", 5)])
  /\ map fst (renderGenreBar_data [("Rock", 3); ("Unknown", 9); ("Jazz", 5)])
     = firstn 20 (populateGenreSelect_options
                    [("Rock", 3); ("Unknown", 9); ("Jazz", 5)]).
Proof.
  assert (H : NoDup (map fst [("Rock", 3); ("Unknown", 9); ("Jazz", 5)])).
  { simpl. repeat (constructor; [simpl; intuition discriminate|]). constructor. }
  split; [exact H|].
  exact (renderGenreBar_shows_first_options
           [("Rock", 3); ("Unknown", 9); ("Jazz", 5)] H).
Defined.

Lemma pctAbove_mono (t1 t2 : Q) (pct : Lookup Q) :
  (t1 <= t2)%Q -> pctAbove t2 pct = true -> pctAbove t1 pct = true.
Proof.
  intros Ht. destruct pct as [q| |]; simpl; try discriminate.
  rewrite !andb_true_iff, !negb_true_iff. intros [Hz Hq]. split; [exact Hz|].
  destruct (Qle_bool q t1) eqn:E; [|reflexivity].
  apply Qle_bool_iff in E.
  assert (Hle : Qle_bool q t2 = true) by (apply Qle_bool_iff; now apply Qle_trans with t1).
  congruence.
Qed.

(** The pie holds at most thirty slices and its legend at most ten; its
    first twenty slices are the bars of the bar chart, genre by genre
    and count by count; and a slice that gets a leader line also gets
    its label. *)
Theorem renderGenrePie_data_spec :
  forall (gc : JsObject nat) (gp : JsObject Q),
    List.length (renderGenrePie_data gc gp) <= 30
    /\ List.length (renderGenrePie_legend gc gp) <= 10
    /\ map (fun s => (slice_genre s, slice_count s))
           (firstn 20 (renderGenrePie_data gc gp))
       = renderGenreBar_data gc
    /\ forall s, pieLeaderShown s = true -> pieLabelShown s = true.
Proof.
  intros gc gp. split; [apply firstn_le_length|]. split; [apply firstn_le_length|].
  split.
  - unfold renderGenrePie_data, renderGenreBar_data.
    rewrite firstn_firstn. change (Nat.min 20 30) with 20.
    rewrite (sortBy_map (fun d => mkSlice (fst d) (snd d) (js_get gp (fst d)))
                        byCountDesc) by reflexivity.
    rewrite firstn_map, map_map.
    etransitivity; [|apply map_id].
    apply map_ext. now intros [k v].
  - intros s. unfold pieLeaderShown, pieLabelShown.
    apply pctAbove_mono. unfold double_0_02, double_0_045, Qle. simpl. lia.
Qed.

(** ** The radar chart *)

Local Open Scope Q_scope.

Lemma fold_Qmax_upper (qs : list Q) (q x : Q) :
  In x (q :: qs) -> x <= fold_left Qmax qs q.
Proof.
  revert q x. induction qs as [|y qs IH]; intros q x; simpl.
  - intros [->|[]]. apply Qle_refl.
  - intros [->|[->|Hin]].
    + apply Qle_trans with (Qmax x y); [apply Q.le_max_l|]. apply IH. now left.
    + apply Qle_trans with (Qmax q x); [apply Q.le_max_r|]. apply IH. now left.
    + apply IH. now right.
Qed.

Lemma fold_Qmax_bound (qs : list Q) (q b : Q) :
  (forall x, In x (q :: qs) -> x <= b) -> fold_left Qmax qs q <= b.
Proof.
  revert q. induction qs as [|y qs IH]; intros q H; simpl.
  - apply H. now left.
  - apply IH. intros x [<-|Hin].
    + apply Q.max_lub; apply H; simpl; auto.
    + apply H. simpl. auto.
Qed.

Lemma allNumbers_In (vs : list (option Q)) (qs : list Q) (v : Q) :
  allNumbers vs = Some qs -> In (Some v) vs -> In v qs.
Proof.
  revert qs. induction vs as [|[q|] vs IH]; intros qs; simpl; try discriminate.
  - intros _ [].
  - destruct (allNumbers vs) as [qs'|]; [|discriminate].
    intros [= <-] [[= ->]|Hin]; [now left | right; now apply IH].
Qed.

Lemma allNumbers_from (vs : list (option Q)) (qs : list Q) (q : Q) :
  allNumbers vs = Some qs -> In q qs -> In (Some q) vs.
Proof.
  revert qs. induction vs as [|[x|] vs IH]; intros qs; simpl; try discriminate.
  - intros [= <-] [].
  - destruct (allNumbers vs) as [qs'|]; [|discriminate].
    intros [= <-] [->|Hin]; [now left | right; now apply (IH qs')].
Qed.

Lemma own_Some_In {V : Type} (o : JsObject V) (k : string) (v : V) :
  own o k = Some v -> In (k, v) o.
Proof.
  induction o as [|[k' v'] o IH]; simpl; [discriminate|].
  destruct (String.eqb_spec k' k) as [->|_]; [intros [= ->]; now left | auto].
Qed.

Lemma radarValue_range (gp : JsObject Q) (g : string) (v : Q) :
  (forall k q, In (k, q) gp -> 0 <= q <= 1) ->
  radarValue gp g = Some v -> 0 <= v <= 1.
Proof.
  intros Hgp. unfold radarValue, js_get.
  destruct (own gp g) as [q|] eqn:E.
  - apply own_Some_In in E. specialize (Hgp g q E).
    destruct (Qeq_bool q 0); intros [= <-]; [split; discriminate | exact Hgp].
  - destruct (inheritedKey g); [discriminate|]. intros [= <-]. split; discriminate.
Qed.

Lemma allNumbers_None (vs : list (option Q)) :
  In None vs -> allNumbers vs = None.
Proof.
  induction vs as [|[q|] vs IH]; simpl; [contradiction| |reflexivity].
  intros [H|H]; [discriminate H|]. now rewrite (IH H).
Qed.

Lemma inheritedKey_In (g : string) : inheritedKey g = true <-> In g prototypeKeys.
Proof.
  unfold inheritedKey. rewrite existsb_exists. split.
  - intros (p & Hp & Heq). apply String.eqb_eq in Heq. now subst.
  - intros H. exists g. split; [exact H | apply String.eqb_refl].
Qed.

(** What each axis of the radar holds, by the two ways of reading
    [stats.genre_percentages[g] || 0]. *)
Lemma radarValue_cases (gp : JsObject Q) (g : string) :
  match radarValue gp g with
  | Some q =>
      match own gp g with
      | Some p => q == p
      | None => q == 0 /\ ~ In g prototypeKeys
      end
  | None => own gp g = None /\ In g prototypeKeys
  end.
Proof.
  unfold radarValue, js_get. destruct (own gp g) as [p|].
  - destruct (Qeq_bool p 0) eqn:E; [|reflexivity].
    apply Qeq_bool_iff in E. now symmetry.
  - destruct (inheritedKey g) eqn:E.
    + split; [reflexivity | now apply inheritedKey_In].
    + split; [reflexivity|]. rewrite <- inheritedKey_In. congruence.
Qed.

Lemma renderGenreRadar_axes_bounds :
  forall (tg : list (string * nat)) (gp : JsObject Q)
         (labels : list string) (values : list (option Q)) (maxVal : Q),
    (forall k q, In (k, q) gp -> 0 <= q <= 1) ->
    renderGenreRadar_axes tg gp = Some (labels, values, maxVal) ->
    labels = map fst (firstn 6 tg)
    /\ (1 <= List.length labels <= 6)%nat
    /\ List.length values = List.length labels
    /\ 0 < maxVal
    /\ (forall v, In (Some v) values -> 0 <= v <= maxVal)
    /\ (In None values -> maxVal = 1).
Proof.
  intros tg gp labels values maxVal Hgp. unfold renderGenreRadar_axes.
  pose proof (firstn_le_length 6 tg) as Hlen.
  destruct (firstn 6 tg) as [|t0 top] eqn:Etop; [discriminate|].
  intros [= <- <- <-]. cbn [map].
  set (vs := radarValue gp (fst t0) :: map (fun d => radarValue gp (fst d)) top).
  assert (Hrange : forall v, In (Some v) vs -> 0 <= v <= 1).
  { intros v Hv.
    change vs with (map (fun d => radarValue gp (fst d)) (t0 :: top)) in Hv.
    apply in_map_iff in Hv as (d & Hd & _).
    exact (radarValue_range gp (fst d) v Hgp Hd). }
  split; [reflexivity|].
  split; [cbn [List.length] in *; rewrite ?length_map; lia|].
  split; [unfold vs; cbn [List.length]; now rewrite !length_map|].
  unfold radarMaxVal. destruct (allNumbers vs) as [[|q qs]|] eqn:Eall.
  - split; [reflexivity|]. split; [|reflexivity]. intros v Hv. apply Hrange, Hv.
  - assert (Hnum : ~ In None vs).
    { intros Hn. apply allNumbers_None in Hn. congruence. }
    set (m := fold_left Qmax qs q).
    assert (Hupper : forall v, In (Some v) vs -> v <= m).
    { intros v Hv. apply fold_Qmax_upper. exact (allNumbers_In vs _ v Eall Hv). }
    assert (Hm0 : 0 <= m).
    { apply Qle_trans with q.
      - apply Hrange. apply (allNumbers_from vs _ q Eall). now left.
      - apply fold_Qmax_upper. now left. }
    destruct (Qeq_bool m 0) eqn:Em.
    + split; [reflexivity|]. split; [|reflexivity]. intros v Hv. apply Hrange, Hv.
    + apply Qeq_bool_neq in Em. split; [|split].
      * apply Qle_lteq in Hm0 as [Hlt|Heq]; [exact Hlt|]. elim Em. now symmetry.
      * intros v Hv. split; [apply Hrange, Hv | apply Hupper, Hv].
      * intros Hn. now elim Hnum.
  - split; [reflexivity|]. split; [|reflexivity]. intros v Hv. apply Hrange, Hv.
Qed.


(** With percentages between 0 and 1, the radar has between one and six
    axes, one value for each label, and a positive scale [maxVal].  The
    value of a genre is its percentage (0 when it has none) and lies
    between 0 and [maxVal], so that its corner of the polygon lies
    between the centre and the outer ring; except that a genre without
    a percentage of its own and named like a property of
    [Object.prototype] gets a value that is not a number, and then
    [maxVal] is 1. *)
Theorem renderGenreRadar_axes_in_scale :
  forall (tg : list (string * nat)) (gp : JsObject Q)
         (labels : list string) (values : list (option Q)) (maxVal : Q),
    (forall k q, In (k, q) gp -> 0 <= q <= 1) ->
    renderGenreRadar_axes tg gp = Some (labels, values, maxVal) ->
    labels = map fst (firstn 6 tg)
    /\ (1 <= List.length labels <= 6)%nat
    /\ 0 < maxVal
    /\ Forall2 (fun g v =>
                  match v with
                  | Some q =>
                      0 <= q <= maxVal
                      /\ match own gp g with
                         | Some p => q == p
                         | None => q == 0 /\ ~ In g prototypeKeys
                         end
                  | None => own gp g = None /\ In g prototypeKeys /\ maxVal = 1
                  end) labels values.
Proof.
  intros tg gp labels values maxVal Hgp Haxes.
  destruct (renderGenreRadar_axes_bounds tg gp labels values maxVal Hgp Haxes)
    as (Hlabels & Hlen & _ & Hpos & Hin & Hnan).
  split; [exact Hlabels|]. split; [exact Hlen|]. split; [exact Hpos|].
  assert (Hvalues : values = map (radarValue gp) labels).
  { unfold renderGenreRadar_axes in Haxes.
    destruct (firstn 6 tg) as [|t0 top]; [discriminate|].
    injection Haxes as <- <- _. cbn [map]. f_equal. symmetry. apply map_map. }
  assert (Hall : forall g, In g labels ->
             match radarValue gp g with
             | Some q =>
                 0 <= q <= maxVal
                 /\ match own gp g with
                    | Some p => q == p
                    | None => q == 0 /\ ~ In g prototypeKeys
                    end
             | None => own gp g = None /\ In g prototypeKeys /\ maxVal = 1
             end).
  { intros g Hg. pose proof (radarValue_cases gp g) as Hcase.
    assert (Hv : In (radarValue gp g) values)
      by (rewrite Hvalues; now apply in_map).
    destruct (radarValue gp g) as [q|].
    - split; [now apply Hin | exact Hcase].
    - destruct Hcase as [Hown Hproto]. auto. }
  rewrite Hvalues. clear Hvalues Hin Hnan Hlabels Hlen Haxes.
  induction labels as [|g labels IH]; simpl; constructor.
  - apply Hall. now left.
  - apply IH. intros g' Hg'. apply Hall. now right.
Qed.

Lemma renderGenreRadar_axes_in_scale_witness :
  (forall k q, In (k, q) [("Rock", 3 # 4); ("Jazz", 1 # 4)] -> 0 <= q <= 1)
  /\ renderGenreRadar_axes [("Rock", 3%nat); ("Jazz", 1%nat); ("Folk", 0%nat)]
                           [("Rock", 3 # 4); ("Jazz", 1 # 4)]
     = Some (["Rock"; "Jazz"; "Folk"], [Some (3 # 4); Some (1 # 4); Some 0], 3 # 4)
  /\ 0 < 3 # 4.
Proof.
  assert (H1 : forall k q, In (k, q) [("Rock", 3 # 4); ("Jazz", 1 # 4)] -> 0 <= q <= 1).
  { intros k q [[= _ <-]|[[= _ <-]|[]]]; split; discriminate. }
  assert (H2 : renderGenreRadar_axes [("Rock", 3%nat); ("Jazz", 1%nat); ("Folk", 0%nat)]
                                     [("Rock", 3 # 4); ("Jazz", 1 # 4)]
               = Some (["Rock"; "Jazz"; "Folk"],
                       [Some (3 # 4); Some (1 # 4); Some 0], 3 # 4))
    by reflexivity.
  split; [exact H1|]. split; [exact H2|].
  exact (proj1 (proj2 (proj2
           (renderGenreRadar_axes_in_scale _ _ _ _ _ H1 H2)))).
Defined.

(** A top genre named "constructor" with no percentage of its own: its
    value is a function, and the scale falls back to 1. *)
Example renderGenreRadar_axes_constructor :
  renderGenreRadar_axes [("constructor", 2%nat); ("Rock", 1%nat)] [("Rock", 1 # 2)]
  = Some (["constructor"; "Rock"], [None; Some (1 # 2)], 1).
Proof. reflexivity. Qed.

Local Close Scope Q_scope.

(** ** How the renderers compose *)

Lemma Element_eqb_sym (a b : Element) : Element_eqb a b = Element_eqb b a.
Proof. destruct a, b; reflexivity. Qed.

Lemma Redraws_throws (k : Dom -> Outcome) (es : list Element) :
  (forall d, exists r, k d = Threw r) -> Redraws k es.
Proof. intros H. now left. Qed.

(** A renderer that clears one element and then sets it. *)
Lemma Redraws_one (k : Dom -> Outcome) (e : Element) (v : Display) :
  v <> Initial ->
  (forall d, exists r, k d = Returned r /\ forall e', r e' = setEl d e v e') ->
  Redraws k [e].
Proof.
  intros Hv Hk. right. exists (fun _ => v). split; [now intros _ _|].
  intros d. destruct (Hk d) as (r & Hr & Hset). exists r. split; [exact Hr|].
  intros e'. rewrite Hset. unfold setEl. simpl.
  rewrite (Element_eqb_sym e' e), orb_false_r. reflexivity.
Qed.

Lemma Redraws_then (k1 k2 : Dom -> Outcome) (es1 es2 : list Element) :
  Redraws k1 es1 -> Redraws k2 es2 ->
  Redraws (fun d => k1 d >>= k2) (es1 ++ es2).
Proof.
  intros [H1|(p1 & Hp1 & H1)] H2.
  - left. intros d. destruct (H1 d) as [r ->]. now exists r.
  - destruct H2 as [H2|(p2 & Hp2 & H2)].
    + left. intros d. destruct (H1 d) as (r1 & -> & _). apply H2.
    + right.
      exists (fun e => if existsb (Element_eqb e) es2 then p2 e else p1 e). split.
      * intros e. rewrite existsb_app, orb_true_iff.
        destruct (existsb (Element_eqb e) es2) eqn:E2; [intros _; now apply Hp2|].
        intros [E1|E]; [now apply Hp1 | discriminate E].
      * intros d. destruct (H1 d) as (r1 & -> & Hr1).
        destruct (H2 r1) as (r2 & Hr2 & Hr2'). exists r2. split; [exact Hr2|].
        intros e. rewrite Hr2', Hr1, existsb_app.
        destruct (existsb (Element_eqb e) es2), (existsb (Element_eqb e) es1);
          reflexivity.
Qed.

Lemma setEl_twice (d : Dom) (e : Element) (v w : Display) (e' : Element) :
  setEl (setEl d e v) e w e' = setEl d e w e'.
Proof. unfold setEl. now destruct (Element_eqb e e'). Qed.

Ltac redraws_with v :=
  apply (Redraws_one _ _ v); [discriminate|];
  intros d; eexists; split; [reflexivity|];
  intros e'; now rewrite ?setEl_twice.

Lemma Redraws_renderSummary (stats : Stats) :
  Redraws (renderSummary stats) [el_summarytext].
Proof.
  unfold renderSummary. destruct (summary stats).
  - redraws_with Drawn.
  - apply Redraws_throws. eauto.
Qed.

Lemma Redraws_renderDurationBins (stats : Stats) :
  Redraws (renderDurationBins stats) [el_duration_bins].
Proof.
  unfold renderDurationBins.
  destruct (duration_bins stats) as [b|]; [destruct (Object_entries b)|].
  - redraws_with Cleared.
  - redraws_with Drawn.
  - redraws_with Cleared.
Qed.

Lemma Redraws_renderGenreBar (stats : Stats) :
  Redraws (renderGenreBar stats) [el_barchart].
Proof.
  unfold renderGenreBar. destruct (genre_counts stats).
  - redraws_with Drawn.
  - apply Redraws_throws. eauto.
Qed.

Lemma Redraws_renderGenrePie (stats : Stats) :
  Redraws (renderGenrePie stats) [el_genrepie].
Proof.
  unfold renderGenrePie. destruct (genre_counts stats) as [gc|].
  - destruct (filter _ (Object_entries gc)), (genre_percentages stats);
      try (redraws_with Drawn).
    apply Redraws_throws. eauto.
  - apply Redraws_throws. eauto.
Qed.

Lemma Redraws_renderArtistBar (g : Selection) (stats : Stats)
      (files : option (list File)) :
  Redraws (renderArtistBar g stats files) [el_artistchart].
Proof.
  assert (Hfinish : forall empty : bool,
             Redraws (fun d => Returned
                        (setEl (setEl d el_artistchart Cleared) el_artistchart
                               (if empty then NoDataMessage else Drawn)))
                     [el_artistchart]).
  { intros [|]; [redraws_with NoDataMessage | redraws_with Drawn]. }
  unfold renderArtistBar. destruct (negb (truthySelection g)).
  - destruct (artist_counts stats); [apply Hfinish|].
    apply Redraws_throws. eauto.
  - destruct g as [| |s]; try apply Hfinish.
    destruct (top_artists_per_genre stats) as [t|]; [|apply Hfinish].
    destruct (js_get t s) as [[|]| |]; try apply Hfinish;
      try exact (Hfinish false).
    destruct (0 <? inheritedLength s); [|apply Hfinish].
    apply Redraws_throws. eauto.
Qed.

Lemma Redraws_renderDurationDistribution (stats : Stats) (g : Selection)
      (files : option (list File)) :
  Redraws (renderDurationDistribution stats g files) [el_durhist].
Proof. unfold renderDurationDistribution. redraws_with Drawn. Qed.

Lemma Redraws_renderYearHistogramFromFiles (LocalTZA : Z -> Z)
      (files : option (list File)) (g : Selection) :
  Redraws (renderYearHistogramFromFiles LocalTZA files g) [el_yearhist].
Proof.
  unfold renderYearHistogramFromFiles.
  destruct (renderYearHistogramFromFiles_entries LocalTZA files g).
  - redraws_with Cleared.
  - redraws_with Drawn.
Qed.

Lemma Redraws_renderAddedTimelineFromFiles (LocalTZA : Z -> Z)
      (files : option (list File)) (g : Selection) :
  Redraws (renderAddedTimelineFromFiles LocalTZA files g) [el_timeline].
Proof.
  unfold renderAddedTimelineFromFiles.
  destruct (renderAddedTimelineFromFiles_entries LocalTZA files g).
  - redraws_with Cleared.
  - redraws_with Drawn.
Qed.

Lemma Redraws_renderGenreRadar (stats : Stats) :
  Redraws (renderGenreRadar stats) [el_genreradar].
Proof.
  unfold renderGenreRadar. destruct (top_genres stats) as [tg|].
  - destruct (firstn 6 tg), (genre_percentages stats);
      try (redraws_with Cleared); try (redraws_with Drawn).
    apply Redraws_throws. eauto.
  - apply Redraws_throws. eauto.
Qed.

Lemma Redraws_applyGenreFilter (LocalTZA : Z -> Z) (stats : Stats)
      (files : option (list File)) (g : Selection) :
  Redraws (applyGenreFilter LocalTZA stats files g)
          [el_summarytext; el_duration_bins; el_barchart; el_genrepie;
           el_artistchart; el_durhist; el_yearhist; el_timeline; el_genreradar].
Proof.
  unfold applyGenreFilter.
  change [el_summarytext; el_duration_bins; el_barchart; el_genrepie;
          el_artistchart; el_durhist; el_yearhist; el_timeline; el_genreradar]
    with (((((((([el_summarytext] ++ [el_duration_bins]) ++ [el_barchart])
                ++ [el_genrepie]) ++ [el_artistchart]) ++ [el_durhist])
             ++ [el_yearhist]) ++ [el_timeline]) ++ [el_genreradar]).
  repeat apply Redraws_then.
  - apply Redraws_renderSummary.
  - apply Redraws_renderDurationBins.
  - apply Redraws_renderGenreBar.
  - apply Redraws_renderGenrePie.
  - apply Redraws_renderArtistBar.
  - apply Redraws_renderDurationDistribution.
  - apply Redraws_renderYearHistogramFromFiles.
  - apply Redraws_renderAddedTimelineFromFiles.
  - apply Redraws_renderGenreRadar.
Qed.

(** What [applyGenreFilter] leaves on the page does not depend on what
    was there before: for given data and selection it either throws
    from every page, or returns from every page with the same display
    in each of the nine elements it renders, none of them left as
    loaded, and with the genre select untouched. *)
Theorem applyGenreFilter_forgets_previous_page :
  forall (LocalTZA : Z -> Z) (stats : Stats) (files : option (list File))
         (g : Selection),
    (forall d, exists r, applyGenreFilter LocalTZA stats files g d = Threw r)
    \/ exists page : Element -> Display,
         forall d, exists r,
           applyGenreFilter LocalTZA stats files g d = Returned r
           /\ r el_genre_select = d el_genre_select
           /\ forall e, e <> el_genre_select -> r e = page e /\ r e <> Initial.
Proof.
  intros LocalTZA stats files g.
  destruct (Redraws_applyGenreFilter LocalTZA stats files g)
    as [Hthrow|(page & Hpage & Hret)]; [now left|].
  right. exists page. intros d. destruct (Hret d) as (r & Hr & Hset).
  exists r. split; [exact Hr|]. split; [now rewrite Hset|].
  intros e He. rewrite Hset.
  destruct e; try (now elim He); (split; [reflexivity | now apply Hpage]).
Qed.

(** ** Empty charts *)










(** The genre "constructor" with per-genre lists that hold none for it:
    the constructor of objects is read as the list, and mapping over it
    throws. *)
Example renderArtistBar_constructor_throws :
  NoArtistList statsComplete "constructor"
  /\ exists r,
       renderArtistBar (SelString "constructor") statsComplete (Some threeRockFiles)
                       initialDom = Threw r.
Proof. split; [now left | eexists; reflexivity]. Qed.

(** With a genre selected and the files loaded, the bins from which the
    duration chart is drawn are never empty as long as one file is
    shown: where the statistics offer none, the fallback supplies them. *)
Theorem renderDurationDistribution_bins_not_empty :
  forall (stats : Stats) (g : Selection) (fs : list File),
    truthySelection g = true ->
    getFilteredFiles (Some fs) g <> [] ->
    binsKeys (renderDurationDistribution_bins stats g (Some fs)) <> [].
Proof.
  intros stats g fs Hg Hshown. unfold renderDurationDistribution_bins.
  rewrite Hg. cbn [andb].
  match goal with
  | |- context [List.length (binsKeys ?b) =? 0] => set (bins1 := b)
  end.
  destruct (List.length (binsKeys bins1) =? 0) eqn:E; cbn [andb].
  - simpl binsKeys. intros Hkeys. apply Object_keys_nil in Hkeys.
    destruct (durationCounts_entries_total (Some fs) g) as (es & Hes & Htotal).
    rewrite Hkeys in Hes. simpl in Hes. injection Hes as <-.
    simpl in Htotal. apply Hshown. now apply length_zero_iff_nil.
  - apply Nat.eqb_neq in E. intros Hkeys. apply E. now rewrite Hkeys.
Qed.

Lemma renderDurationDistribution_bins_not_empty_witness :
  truthySelection (SelString "Rock") = true
  /\ getFilteredFiles (Some [rock300]) (SelString "Rock") <> []
  /\ binsKeys (renderDurationDistribution_bins
                 (mkStats None None None None None None None None None None None)
                 (SelString "Rock") (Some [rock300])) <> [].
Proof.
  assert (H1 : truthySelection (SelString "Rock") = true) by reflexivity.
  assert (H2 : getFilteredFiles (Some [rock300]) (SelString "Rock") <> [])
    by discriminate.
  split; [exact H1|]. split; [exact H2|].
  exact (renderDurationDistribution_bins_not_empty
           (mkStats None None None None None None None None None None None)
           (SelString "Rock") [rock300] H1 H2).
Defined.

(** ** Instances of the general facts about the page *)

Lemma applyGenreFilter_returns_witness :
  summary statsComplete <> None /\ genre_counts statsComplete <> None
  /\ artist_counts statsComplete <> None /\ genre_percentages statsComplete <> None
  /\ top_genres statsComplete <> None
  /\ (forall s, SelString "Rock" = SelString s -> inheritedKey s = false)
  /\ exists d',
       applyGenreFilter UTC statsComplete (Some threeRockFiles) (SelString "Rock")
                        initialDom = Returned d'.
Proof.
  assert (H1 : summary statsComplete <> None) by discriminate.
  assert (H2 : genre_counts statsComplete <> None) by discriminate.
  assert (H3 : artist_counts statsComplete <> None) by discriminate.
  assert (H4 : genre_percentages statsComplete <> None) by discriminate.
  assert (H5 : top_genres statsComplete <> None) by discriminate.
  assert (H6 : forall s, SelString "Rock" = SelString s -> inheritedKey s = false)
    by (intros s [= <-]; reflexivity).
  split; [exact H1|]. split; [exact H2|]. split; [exact H3|].
  split; [exact H4|]. split; [exact H5|]. split; [exact H6|].
  exact (applyGenreFilter_returns UTC statsComplete (Some threeRockFiles)
                                  (SelString "Rock") initialDom
                                  H1 H2 H3 H4 H5 H6).
Defined.

Lemma applyGenreFilter_without_genre_counts_witness :
  genre_counts statsWithoutGenreCounts = None
  /\ exists d',
       applyGenreFilter UTC statsWithoutGenreCounts (Some threeRockFiles)
                        (SelString "Rock") initialDom = Threw d'
       /\ d' el_genrepie = initialDom el_genrepie.
Proof.
  assert (H : genre_counts statsWithoutGenreCounts = None) by reflexivity.
  split; [exact H|].
  destruct (applyGenreFilter_without_genre_counts
              UTC statsWithoutGenreCounts (Some threeRockFiles)
              (SelString "Rock") initialDom H) as (d' & Hd & Hpie & _).
  exists d'. split; assumption.
Defined.

Lemma renderDurationDistribution_global_bins_witness :
  PerGenreBinsAbsent statsGlobalBinsOnly "Rock"
  /\ inheritedKey "Rock" = false
  /\ duration_bins statsGlobalBinsOnly = Some [("2-4m", VNum 7)]
  /\ [("2-4m", VNum 7)] <> []
  /\ renderDurationDistribution_bins statsGlobalBinsOnly (SelString "Rock")
                                     (Some [rock300])
     = BinsObject [("2-4m", VNum 7)].
Proof.
  assert (H1 : PerGenreBinsAbsent statsGlobalBinsOnly "Rock") by exact I.
  assert (H2 : inheritedKey "Rock" = false) by reflexivity.
  assert (H3 : duration_bins statsGlobalBinsOnly = Some [("2-4m", VNum 7)])
    by reflexivity.
  assert (H4 : [("2-4m", VNum 7)] <> @nil (string * JsVal)) by discriminate.
  split; [exact H1|]. split; [exact H2|]. split; [exact H3|]. split; [exact H4|].
  exact (renderDurationDistribution_global_bins
           statsGlobalBinsOnly "Rock" (Some [rock300]) [("2-4m", VNum 7)]
           H1 H2 H3 H4).
Defined.
